(** * A boundary-tag memory allocator over page-granular arenas

    Shallow embedding of [block.h], [block.c], [allocator.c] and the
    page-provider adapter [kernel.c], the properties of the allocator that
    are stated in its specification, and further properties of the code.

    Memory is a finite map from byte addresses to [size_t] words (a word that
    was never written reads as zero, as in a fresh anonymous mapping).  A
    [Block] header is three consecutive words: [size_curr] at the block
    address, [size_prev] eight bytes further and [offset] sixteen bytes
    further.  All [size_t] arithmetic wraps modulo [2^64]; pointers are
    plain integers and [NULL] is [0]. *)

From Stdlib Require Import ZArith Lia List Bool.
From stdpp Require Import base option gmap list.

Local Open Scope Z_scope.

(** ** [size_t] arithmetic *)

Definition SIZE_MAX : Z := 2^64 - 1.
Definition NULL : Z := 0.

Definition wrap (z : Z) : Z := z mod 2^64.
Definition size_add (a b : Z) : Z := wrap (a + b).
Definition size_sub (a b : Z) : Z := wrap (a - b).
Definition size_mul (a b : Z) : Z := wrap (a * b).
(** [~a] on a [size_t]. *)
Definition size_not (a : Z) : Z := wrap (Z.lnot a).

Definition is_size_t (z : Z) : Prop := 0 <= z <= SIZE_MAX.

(** ** Compile-time configuration

    [config.h], [allocator_impl.h] and [tree.h] are not among the sources;
    the constants they define are parameters of the development.
    [size_t] is 64 bits wide, so [sizeof(Block)] is 24. *)

Class Config := {
  ALIGN : Z;
  ALLOCATOR_PAGE_SIZE : Z;
  ALLOCATOR_ARENA_PAGES : Z;
  sizeof_tree_node_type : Z
}.

Definition sizeof_size_t : Z := 8.
Definition sizeof_Block : Z := 3 * sizeof_size_t.

(** The configuration of the literal scenarios of the specification:
    16-byte alignment, 4096-byte pages, 16 pages per arena (the header is
    then 32 bytes) and a minimum block of 64 bytes. *)
Definition scenario : Config := {|
  ALIGN := 16;
  ALLOCATOR_PAGE_SIZE := 4096;
  ALLOCATOR_ARENA_PAGES := 16;
  sizeof_tree_node_type := 56
|}.

(** ** Memory

    A word is kept under the address of its first byte.  The code reads and
    writes the words of block headers, which do not overlap; the model does
    not relate two words that share some of their bytes, so a statement that
    a call leaves a word alone is to be read for a word none of whose bytes
    the call writes. *)

Abbreviation Memory := (gmap Z Z).

Definition load (m : Memory) (a : Z) : Z := default 0 (m !! a).
Definition store (m : Memory) (a v : Z) : Memory := <[a := v]> m.

(** [m] without the words that overlap the byte range [lo, lo + len). *)
Definition erase_range (m : Memory) (lo len : Z) : Memory :=
  filter (fun kv : Z * Z => ~ (lo - sizeof_size_t < kv.1 < lo + len)) m.

(** [memcpy(dst, src, n)], word by word.  The copy of the model cannot
    fault: whether a range lies in mapped pages is observed apart, with
    [range_mapped], and what is stated of a copy into unmapped memory stops
    at the call ([realloc_move_call]). *)
Definition memcpy (m : Memory) (dst src n : Z) : Memory :=
  foldl (fun acc i => store acc (dst + sizeof_size_t * i) (load m (src + sizeof_size_t * i)))
        m (seqZ 0 ((n + sizeof_size_t - 1) / sizeof_size_t)).

(** ** The size index *)

(** Modelled from the spec: [tree.h] and the AVL tree behind it are not among
    the sources.  The specification gives the index as an ordered multiset of
    nodes keyed by an integer size, with insert, remove by node handle,
    best-fit lookup and an emptiness test.  A node handle is the address of
    the node, which lies in the payload of its free block; the multiset is a
    list of handles with their keys. *)
Abbreviation tree_type := (list (Z * Z)).

(** Modelled from the spec: the initial, empty index. *)
Definition TREE_INITIALIZER : tree_type := [].

(** Modelled from the spec: insert a node under a key. *)
Definition tree_add (t : tree_type) (node key : Z) : tree_type := (node, key) :: t.

(** Modelled from the spec: remove by node handle. *)
Fixpoint tree_remove (t : tree_type) (node : Z) : tree_type :=
  match t with
  | [] => []
  | (n, k) :: t' => if n =? node then t' else (n, k) :: tree_remove t' node
  end.

(** Modelled from the spec: a node of minimum key among the keys that are at
    least [size], with its key; none when no key qualifies. *)
Fixpoint tree_best (t : tree_type) (size : Z) : option (Z * Z) :=
  match t with
  | [] => None
  | (n, k) :: t' =>
      match tree_best t' size with
      | Some (n', k') => if (size <=? k) && (k <=? k') then Some (n, k) else Some (n', k')
      | None => if size <=? k then Some (n, k) else None
      end
  end.

(** Modelled from the spec: best-fit lookup, [NULL] when no node qualifies. *)
Definition tree_find_best (t : tree_type) (size : Z) : Z :=
  match tree_best t size with
  | Some (n, _) => n
  | None => NULL
  end.

(** Modelled from the spec: the emptiness test. *)
Definition tree_is_empty (t : tree_type) : bool :=
  match t with [] => true | _ => false end.

(** The node [node] is in the index. *)
Definition tree_mem (t : tree_type) (node : Z) : bool :=
  existsb (fun nk => fst nk =? node) t.

(** ** The allocator and its environment *)

Inductive Event :=
| EKernelAlloc (size result : Z)
| EKernelFree (ptr size : Z)
| EKernelReset (ptr size : Z)
| EMemcpy (dst src n : Z).

(** [mem] is the address space, [blocks_tree] the static size index of
    [allocator.c], [mapped] the mappings the page provider has handed out and
    not taken back (base and requested length), [trace] the calls made to the
    page provider and to [memcpy], oldest first. *)
Record State := mkState {
  mem : Memory;
  blocks_tree : tree_type;
  mapped : list (Z * Z);
  trace : list Event
}.

Definition initial_state : State := mkState ∅ TREE_INITIALIZER [] [].

Definition with_mem (st : State) (m : Memory) : State :=
  mkState m (blocks_tree st) (mapped st) (trace st).
Definition with_tree (st : State) (t : tree_type) : State :=
  mkState (mem st) t (mapped st) (trace st).

(** A run-time [assert]: [None] is the abort of a debug build. *)
Definition assert (b : bool) : option unit := if b then Some tt else None.

Section Allocator.
Context {cfg : Config}.

(** Modelled from the spec: the macro [ROUND_BYTES] of [allocator_impl.h],
    [(x + ALIGN - 1) & ~(ALIGN - 1)]. *)
Definition ROUND_BYTES (x : Z) : Z :=
  Z.land (size_sub (size_add x ALIGN) 1) (size_not (ALIGN - 1)).

Definition BLOCK_OCCUPIED : Z := 1.
Definition BLOCK_LAST : Z := 2.

Definition BLOCK_STRUCT_SIZE : Z := ROUND_BYTES sizeof_Block.
Definition BLOCK_SIZE_MIN : Z := ROUND_BYTES sizeof_tree_node_type.
Definition ARENA_SIZE : Z := ALLOCATOR_ARENA_PAGES * ALLOCATOR_PAGE_SIZE.
Definition BLOCK_SIZE_MAX : Z := size_sub ARENA_SIZE BLOCK_STRUCT_SIZE.

(** *** [block.h] *)

(** Addresses of the fields of the header at [block]. *)
Definition size_curr_of (block : Z) : Z := block.
Definition size_prev_of (block : Z) : Z := block + sizeof_size_t.
Definition offset_of (block : Z) : Z := block + 2 * sizeof_size_t.

Definition block_to_payload (block : Z) : Z := block + BLOCK_STRUCT_SIZE.
Definition payload_to_block (ptr : Z) : Z := ptr - BLOCK_STRUCT_SIZE.
Definition block_to_node (block : Z) : Z := block_to_payload block.
Definition node_to_block (node : Z) : Z := payload_to_block node.

Definition block_set_size_curr (m : Memory) (block size : Z) : Memory :=
  let flags := Z.land (load m (size_curr_of block)) (Z.lor BLOCK_OCCUPIED BLOCK_LAST) in
  store m (size_curr_of block) (Z.lor size flags).

Definition block_get_size_curr (m : Memory) (block : Z) : Z :=
  Z.land (load m (size_curr_of block)) (size_not (Z.lor BLOCK_OCCUPIED BLOCK_LAST)).

Definition block_set_size_prev (m : Memory) (block size : Z) : Memory :=
  store m (size_prev_of block) size.

Definition block_get_size_prev (m : Memory) (block : Z) : Z :=
  load m (size_prev_of block).

Definition block_set_flag_busy (m : Memory) (block : Z) : Memory :=
  store m (size_curr_of block) (Z.lor (load m (size_curr_of block)) BLOCK_OCCUPIED).

Definition block_get_flag_busy (m : Memory) (block : Z) : bool :=
  negb (Z.land (load m (size_curr_of block)) BLOCK_OCCUPIED =? 0).

Definition block_clr_flag_busy (m : Memory) (block : Z) : Memory :=
  store m (size_curr_of block)
        (Z.land (load m (size_curr_of block)) (size_not BLOCK_OCCUPIED)).

Definition block_get_flag_first (m : Memory) (block : Z) : bool :=
  load m (size_prev_of block) =? 0.

Definition block_set_flag_last (m : Memory) (block : Z) : Memory :=
  store m (size_curr_of block) (Z.lor (load m (size_curr_of block)) BLOCK_LAST).

Definition block_get_flag_last (m : Memory) (block : Z) : bool :=
  negb (Z.land (load m (size_curr_of block)) BLOCK_LAST =? 0).

Definition block_clr_flag_last (m : Memory) (block : Z) : Memory :=
  store m (size_curr_of block)
        (Z.land (load m (size_curr_of block)) (size_not BLOCK_LAST)).

Definition block_set_offset (m : Memory) (block offset : Z) : Memory :=
  store m (offset_of block) offset.

Definition block_get_offset (m : Memory) (block : Z) : Z :=
  load m (offset_of block).

Definition block_next (m : Memory) (block : Z) : Z :=
  block + BLOCK_STRUCT_SIZE + block_get_size_curr m block.

Definition block_prev (m : Memory) (block : Z) : Z :=
  block - BLOCK_STRUCT_SIZE - block_get_size_prev m block.

Definition arena_init (m : Memory) (block size : Z) : Memory :=
  let m := store m (size_curr_of block) size in
  let m := store m (size_prev_of block) 0 in
  let m := store m (offset_of block) 0 in
  block_set_flag_last m block.

Definition block_init (m : Memory) (block : Z) : Memory :=
  block_clr_flag_last (block_clr_flag_busy m block) block.

(** *** [block.c] *)

(** [block_split]: the result is the new block, or [NULL]. *)
Definition block_split (m : Memory) (block size : Z) : Z * Memory :=
  let m := block_set_flag_busy m block in
  let size_rest := size_sub (block_get_size_curr m block) size in
  if size_add BLOCK_STRUCT_SIZE BLOCK_SIZE_MIN <=? size_rest then
    let size_rest := size_sub size_rest BLOCK_STRUCT_SIZE in
    let m := block_set_size_curr m block size in
    let block_r := block_next m block in
    let m := block_init m block_r in
    let m := block_set_size_curr m block_r size_rest in
    let m := block_set_size_prev m block_r size in
    let m := block_set_offset m block_r
               (size_add (size_add (block_get_offset m block) size) BLOCK_STRUCT_SIZE) in
    let m :=
      if block_get_flag_last m block then
        block_set_flag_last (block_clr_flag_last m block) block_r
      else
        block_set_size_prev m (block_next m block_r) size_rest in
    (block_r, m)
  else (NULL, m).

Definition block_merge (m : Memory) (block block_r : Z) : option Memory :=
  _ ← assert (negb (block_get_flag_busy m block_r));
  _ ← assert (block_next m block =? block_r);
  let size :=
    size_add (size_add (block_get_size_curr m block) (block_get_size_curr m block_r))
             BLOCK_STRUCT_SIZE in
  let m := block_set_size_curr m block size in
  Some (if block_get_flag_last m block_r then block_set_flag_last m block
        else block_set_size_prev m (block_next m block_r) size).

(** *** [kernel.c]

    The operating system is not modelled: [k] is the answer of [mmap] to a
    request of a given length, the address of the new mapping or [NULL]
    when memory is exhausted.  The fatal exits of the adapter are not
    modelled either. *)

Definition kernel_alloc (k : Z -> Z) (st : State) (size : Z) : Z * State :=
  let ptr := k size in
  (ptr, mkState (mem st) (blocks_tree st)
                (if ptr =? NULL then mapped st else (ptr, size) :: mapped st)
                (trace st ++ [EKernelAlloc size ptr])).

Definition kernel_free (st : State) (ptr size : Z) : State :=
  mkState (erase_range (mem st) ptr size) (blocks_tree st)
          (filter (fun bs : Z * Z => bs.1 <> ptr) (mapped st))
          (trace st ++ [EKernelFree ptr size]).

(** [kernel_reset] fills the range with a pattern and tells the kernel to
    drop the pages; the words of the range read as zero afterwards.  As with
    [memcpy], a range outside the mapped pages does not fault in the model;
    [block_dontneed_call] gives the arguments of the call. *)
Definition kernel_reset (st : State) (ptr size : Z) : State :=
  mkState (erase_range (mem st) ptr size) (blocks_tree st) (mapped st)
          (trace st ++ [EKernelReset ptr size]).

(** *** [block.c], continued *)

(** The two page-aligned offsets [offset1] and [offset2] that
    [block_dontneed] computes. *)
Definition dontneed_offsets (m : Memory) (block : Z) : Z * Z :=
  let size_curr := block_get_size_curr m block in
  let offset := block_get_offset m block in
  let offset1 := size_add (size_add offset BLOCK_STRUCT_SIZE) sizeof_tree_node_type in
  let offset1 := Z.land (size_sub (size_add offset1 ALLOCATOR_PAGE_SIZE) 1)
                        (size_not (size_sub ALLOCATOR_PAGE_SIZE 1)) in
  let offset2 := size_add (size_add offset size_curr) BLOCK_STRUCT_SIZE in
  let offset2 := Z.land offset2 (size_not (size_sub ALLOCATOR_PAGE_SIZE 1)) in
  (offset1, offset2).

Definition block_dontneed (st : State) (block : Z) : option State :=
  let size_curr := block_get_size_curr (mem st) block in
  if size_sub size_curr sizeof_tree_node_type <? ALLOCATOR_PAGE_SIZE then Some st
  else
    let offset := block_get_offset (mem st) block in
    let '(offset1, offset2) := dontneed_offsets (mem st) block in
    if offset1 =? offset2 then Some st
    else
      _ ← assert (Z.land (size_sub offset2 offset1) (size_sub ALLOCATOR_PAGE_SIZE 1) =? 0);
      Some (kernel_reset st (block + size_sub offset1 offset) (size_sub offset2 offset1)).

(** [block_dontneed] up to its call of [kernel_reset]: the pointer and the
    length it passes, or nothing when it returns without a call. *)
Definition block_dontneed_call (m : Memory) (block : Z) : option (option (Z * Z)) :=
  let size_curr := block_get_size_curr m block in
  if size_sub size_curr sizeof_tree_node_type <? ALLOCATOR_PAGE_SIZE then Some None
  else
    let offset := block_get_offset m block in
    let '(offset1, offset2) := dontneed_offsets m block in
    if offset1 =? offset2 then Some None
    else
      _ ← assert (Z.land (size_sub offset2 offset1) (size_sub ALLOCATOR_PAGE_SIZE 1) =? 0);
      Some (Some (block + size_sub offset1 offset, size_sub offset2 offset1)).

(** *** [allocator.c] *)

Definition arena_alloc (k : Z -> Z) (st : State) (size : Z) : Z * State :=
  if BLOCK_SIZE_MAX <? size then
    let '(block, st) := kernel_alloc k st size in
    if negb (block =? NULL) then
      (block, with_mem st (arena_init (mem st) block (size_sub size BLOCK_STRUCT_SIZE)))
    else (block, st)
  else
    let '(block, st) := kernel_alloc k st ARENA_SIZE in
    if negb (block =? NULL) then
      (block, with_mem st (arena_init (mem st) block (size_sub ARENA_SIZE BLOCK_STRUCT_SIZE)))
    else (block, st).

Definition tree_add_block (st : State) (block : Z) : option State :=
  _ ← assert (negb (block_get_flag_busy (mem st) block));
  Some (with_tree st (tree_add (blocks_tree st) (block_to_node block)
                               (block_get_size_curr (mem st) block))).

Definition tree_remove_block (st : State) (block : Z) : option State :=
  _ ← assert (negb (block_get_flag_busy (mem st) block));
  Some (with_tree st (tree_remove (blocks_tree st) (block_to_node block))).

(** The end of [mem_alloc]: split the chosen block and index the rest. *)
Definition mem_alloc_split (st : State) (block aligned_size : Z) : option (Z * State) :=
  let '(block_r, m) := block_split (mem st) block aligned_size in
  let st := with_mem st m in
  st ← (if negb (block_r =? NULL) then tree_add_block st block_r else Some st);
  Some (block_to_payload block, st).

Definition mem_alloc (k : Z -> Z) (st : State) (size : Z) : option (Z * State) :=
  if BLOCK_SIZE_MAX <? size then
    if size_sub SIZE_MAX (size_sub ALIGN 1) <? size then Some (NULL, st)
    else
      let arena_size :=
        size_add (size_mul (ROUND_BYTES size / ALLOCATOR_PAGE_SIZE) ALLOCATOR_PAGE_SIZE)
                 BLOCK_STRUCT_SIZE in
      let '(block, st) := arena_alloc k st arena_size in
      Some (block_to_payload block, st)
  else
    let size := if size <? BLOCK_SIZE_MIN then BLOCK_SIZE_MIN else size in
    let aligned_size := ROUND_BYTES size in
    let node := tree_find_best (blocks_tree st) aligned_size in
    if node =? NULL then
      let '(block, st) := arena_alloc k st aligned_size in
      if block =? NULL then Some (NULL, st)
      else mem_alloc_split st block aligned_size
    else
      let st := with_tree st (tree_remove (blocks_tree st) node) in
      mem_alloc_split st (node_to_block node) aligned_size.

Definition mem_free (st : State) (ptr : Z) : option State :=
  if ptr =? NULL then Some st
  else
    let block := payload_to_block ptr in
    let st := with_mem st (block_clr_flag_busy (mem st) block) in
    if BLOCK_SIZE_MAX <? block_get_size_curr (mem st) block then
      Some (kernel_free st block
              (size_add (block_get_size_curr (mem st) block) BLOCK_STRUCT_SIZE))
    else
      st ← (if negb (block_get_flag_last (mem st) block) then
              let block_r := block_next (mem st) block in
              if negb (block_get_flag_busy (mem st) block_r) then
                st ← tree_remove_block st block_r;
                m ← block_merge (mem st) block block_r;
                Some (with_mem st m)
              else Some st
            else Some st);
      '(block, st) ← (if negb (block_get_flag_first (mem st) block) then
              let block_l := block_prev (mem st) block in
              if negb (block_get_flag_busy (mem st) block_l) then
                st ← tree_remove_block st block_l;
                m ← block_merge (mem st) block_l block;
                Some (block_l, with_mem st m)
              else Some (block, st)
            else Some (block, st));
      if block_get_flag_first (mem st) block && block_get_flag_last (mem st) block then
        Some (kernel_free st block ARENA_SIZE)
      else
        st ← block_dontneed st block;
        tree_add_block st block.

(** The label [move_large_block] of [mem_realloc]. *)
Definition realloc_move (k : Z -> Z) (st : State) (ptr1 size size_curr : Z)
  : option (Z * State) :=
  '(ptr2, st) ← mem_alloc k st size;
  if negb (ptr2 =? NULL) then
    let n := if size_curr <? size then size_curr else size in
    let st := mkState (memcpy (mem st) ptr2 ptr1 n) (blocks_tree st) (mapped st)
                      (trace st ++ [EMemcpy ptr2 ptr1 n]) in
    st ← mem_free st ptr1;
    Some (ptr2, st)
  else Some (ptr2, st).

(** The label [move_large_block] up to its call of [memcpy]: the pointer that
    [mem_alloc] returned, the state at that point, and the arguments
    [(dst, src, n)] of the copy when the pointer passes the test against
    [NULL]. *)
Definition realloc_move_call (k : Z -> Z) (st : State) (ptr1 size size_curr : Z)
  : option (Z * State * option (Z * Z * Z)) :=
  '(ptr2, st) ← mem_alloc k st size;
  Some (ptr2, st,
        if negb (ptr2 =? NULL) then
          Some (ptr2, ptr1, if size_curr <? size then size_curr else size)
        else None).

(** [mem_realloc] from the test [size > size_curr] on. *)
Definition realloc_grow (k : Z -> Z) (st : State) (ptr1 block1 size size_curr : Z)
  : option (Z * State) :=
  if (size_curr <? size) && negb (block_get_flag_last (mem st) block1) then
    let block_r := block_next (mem st) block1 in
    if negb (block_get_flag_busy (mem st) block_r) then
      let total_size :=
        size_add (size_add size_curr (block_get_size_curr (mem st) block_r))
                 BLOCK_STRUCT_SIZE in
      if size <=? total_size then
        st ← tree_remove_block st block_r;
        m ← block_merge (mem st) block1 block_r;
        let '(block_n, m) := block_split m block1 size in
        let st := with_mem st m in
        st ← (if negb (block_n =? NULL) then tree_add_block st block_n else Some st);
        Some (block_to_payload block1, st)
      else realloc_move k st ptr1 size size_curr
    else realloc_move k st ptr1 size size_curr
  else realloc_move k st ptr1 size size_curr.

Definition mem_realloc (k : Z -> Z) (st : State) (ptr1 size : Z) : option (Z * State) :=
  let size := if size <? BLOCK_SIZE_MIN then BLOCK_SIZE_MIN else size in
  let size := ROUND_BYTES size in
  if ptr1 =? NULL then mem_alloc k st size
  else
    let block1 := payload_to_block ptr1 in
    let size_curr := block_get_size_curr (mem st) block1 in
    if BLOCK_SIZE_MAX <? size_curr then
      if size =? size_curr then Some (ptr1, st)
      else realloc_move k st ptr1 size size_curr
    else if size =? size_curr then Some (ptr1, st)
    else if (size <? size_curr) && negb (block_get_flag_last (mem st) block1) then
      let '(block_r, m) := block_split (mem st) block1 size in
      let st := with_mem st m in
      if negb (block_r =? NULL) then
        let block_n := block_next (mem st) block_r in
        st ← (if negb (block_get_flag_busy (mem st) block_n) then
                st ← tree_remove_block st block_n;
                m ← block_merge (mem st) block_r block_n;
                Some (with_mem st m)
              else Some st);
        st ← tree_add_block st block_r;
        Some (block_to_payload block1, st)
      else realloc_grow k st ptr1 block1 size size_curr
    else realloc_grow k st ptr1 block1 size size_curr.

(** *** Observations on a state

    The blocks of an arena are found as the code finds them: from the base
    of the mapping, following [block_next] until a block carries the last
    flag.  The number of steps is bounded by the number of headers that fit
    in the mapping. *)

Fixpoint arena_walk (fuel : nat) (m : Memory) (block : Z) : list Z :=
  match fuel with
  | O => []
  | S fuel =>
      block :: (if block_get_flag_last m block then []
                else arena_walk fuel m (block_next m block))
  end.

Definition arena_blocks (st : State) (arena : Z * Z) : list Z :=
  arena_walk (Z.to_nat (arena.2 / BLOCK_STRUCT_SIZE)) (mem st) arena.1.

(** Two neighbours of the list are both free. *)
Fixpoint adjacent_free (m : Memory) (blocks : list Z) : bool :=
  match blocks with
  | b1 :: ((b2 :: _) as rest) =>
      (negb (block_get_flag_busy m b1) && negb (block_get_flag_busy m b2))
      || adjacent_free m rest
  | _ => false
  end.

Definition no_adjacent_free (st : State) : bool :=
  forallb (fun arena => negb (adjacent_free (mem st) (arena_blocks st arena))) (mapped st).

Definition in_index (st : State) (block : Z) : bool :=
  tree_mem (blocks_tree st) (block_to_node block).

(** [block] is in the index exactly when it is free and not oversized. *)
Definition index_agrees (st : State) (block : Z) : bool :=
  eqb (in_index st block)
      (negb (block_get_flag_busy (mem st) block)
       && (block_get_size_curr (mem st) block <=? BLOCK_SIZE_MAX)).

Definition index_exact (st : State) : bool :=
  forallb (fun arena => forallb (index_agrees st) (arena_blocks st arena)) (mapped st).

(** [x] rounded up to a whole number of pages. *)
Definition round_up_page (x : Z) : Z :=
  (x + ALLOCATOR_PAGE_SIZE - 1) / ALLOCATOR_PAGE_SIZE * ALLOCATOR_PAGE_SIZE.

(** What [mmap] may answer to a request of [size] bytes while [maps] are
    mapped: a page-aligned address whose pages are disjoint from the pages
    of every mapping. *)
Definition provider_ok (maps : list (Z * Z)) (ptr size : Z) : bool :=
  (0 <? ptr) && (ptr mod ALLOCATOR_PAGE_SIZE =? 0)
  && forallb (fun a : Z * Z =>
                (ptr + round_up_page size <=? a.1) || (a.1 + round_up_page a.2 <=? ptr))
             maps.

(** The byte range [lo, lo + len) lies in the pages of one mapping. *)
Definition range_mapped (maps : list (Z * Z)) (lo len : Z) : bool :=
  existsb (fun a : Z * Z => (a.1 <=? lo) && (lo + len <=? a.1 + round_up_page a.2)) maps.

End Allocator.

(** The caller writes a word into a payload it owns. *)
Definition caller_store (st : State) (a v : Z) : State :=
  with_mem st (store (mem st) a v).

(** What a call returned and left behind, seen through [f]. *)
Definition observe {A : Type} (r : option (Z * State)) (f : Z -> State -> A) : option A :=
  '(p, st) ← r; Some (f p st).

(** The busy and last bits of a [size_curr] word. *)
Definition flags_of (busy last : bool) : Z :=
  (if busy then 1 else 0) + (if last then 2 else 0).

(** [w] holds the size [sz] and the flags [busy] and [last]. *)
Definition size_word (w sz : Z) (busy last : bool) : Prop :=
  w = sz + flags_of busy last /\ 0 <= sz /\ sz mod 4 = 0 /\ sz + 3 <= SIZE_MAX.

(** ** Well-formed configurations

    [ALIGN] and the page size are powers of two, [ALIGN] is at least the
    size of a [size_t] and at most a page, and an arena has room for a header
    and a minimal block. *)

Record config_ok (cfg : Config) : Prop := {
  ok_align : exists k, 3 <= k <= 12 /\ ALIGN = 2^k;
  ok_page : exists k, 3 <= k <= 30 /\ ALLOCATOR_PAGE_SIZE = 2^k;
  ok_align_page : ALIGN <= ALLOCATOR_PAGE_SIZE;
  ok_arena_pages : 0 < ALLOCATOR_ARENA_PAGES <= 2^20;
  ok_node : 0 < sizeof_tree_node_type <= 2^20;
  ok_arena : BLOCK_STRUCT_SIZE + BLOCK_SIZE_MIN <= ARENA_SIZE
}.

(** ** Runs under the configuration of the specification's scenarios *)

Module Scenario.

#[local] Existing Instance scenario.

(** A page provider that answers every request with [ptr], and one that has
    no memory left. *)
Definition provider (ptr : Z) : Z -> Z := fun _ => ptr.
Definition no_memory : Z -> Z := fun _ => NULL.

(** Three page-aligned addresses; 25 pages lie between [base_N] and [base_A]
    and 16 pages between [base_A] and [base_P]. *)
Definition base_N : Z := 4096000.
Definition base_A : Z := 4198400.
Definition base_P : Z := 4263936.

(** [mem_alloc(100000)], the first call of [main]. *)
Definition big_alloc : option (Z * State) :=
  mem_alloc (provider base_P) initial_state 100000.

(** [mem_alloc(BLOCK_SIZE_MAX + 1)]. *)
Definition edge_alloc : option (Z * State) :=
  mem_alloc (provider base_A) initial_state 65505.

(** [p = mem_alloc(5); q = mem_alloc(65408)]: [q] takes the whole rest of
    the arena and its block is the last one. *)
Definition last_block_state : option (Z * State) :=
  '(p, st) ← mem_alloc (provider base_A) initial_state 5;
  mem_alloc no_memory st 65408.

(** Then [mem_realloc(q, 64)]. *)
Definition shrink_last : option (Z * State) :=
  '(q, st) ← last_block_state;
  mem_realloc (provider base_N) st q 64.

(** [p = mem_alloc(5); a = mem_alloc(128); b = mem_alloc(64)]: the block of
    [a] has a busy right neighbour. *)
Definition tight_block_state : option (Z * State) :=
  '(p, st) ← mem_alloc (provider base_A) initial_state 5;
  '(a, st) ← mem_alloc no_memory st 128;
  '(b, st) ← mem_alloc no_memory st 64;
  Some (a, st).

(** Then [mem_realloc(a, 64)]: the 64 bytes left cannot hold a block. *)
Definition shrink_tight : option (Z * State) :=
  '(a, st) ← tight_block_state;
  mem_realloc (provider base_N) st a 64.

(** [p = mem_alloc(5)]. *)
Definition small_block_state : option (Z * State) :=
  mem_alloc (provider base_A) initial_state 5.

(** [p1 = mem_alloc(110000); p2 = mem_alloc(64)], and the caller stores the
    word 64 at byte 102368 of the 110000 bytes it asked for. *)
Definition overflow_before : option (Z * State) :=
  '(p1, st) ← mem_alloc (provider base_P) initial_state 110000;
  '(p2, st) ← mem_alloc (provider base_A) st 64;
  Some (p1, caller_store st (p1 + 102368) 64).

(** Then [mem_realloc(p1, 102384)]; the new mapping lies right below the
    arena of [p2]. *)
Definition overflow_after : option (Z * State) :=
  '(p1, st) ← overflow_before;
  mem_realloc (provider base_N) st p1 102384.

(** A fresh default arena at [base_A], the same after [block_split] has cut
    64 bytes from its block, and a state whose memory is the fresh arena. *)
Definition fresh_arena : Memory := arena_init ∅ base_A 65504.
Definition split_arena : Memory := (block_split fresh_arena base_A 64).2.
Definition fresh_arena_state : State := with_mem initial_state fresh_arena.

(** The pointer and the state of [last_block_state]. *)
Definition last_block : Z * State := default (NULL, initial_state) last_block_state.

(** The pointer and the state of [small_block_state], and the state after
    [mem_free] of that pointer. *)
Definition small_block : Z * State := default (NULL, initial_state) small_block_state.
Definition small_block_freed : State :=
  default initial_state (mem_free small_block.2 small_block.1).

(** [a = mem_alloc(256); b = mem_alloc(64)]: the block of [a] has a busy
    right neighbour and room to spare. *)
Definition wide_block : Z * State :=
  default (NULL, initial_state)
    ('(a, st) ← mem_alloc (provider base_A) initial_state 256;
     '(b, st) ← mem_alloc no_memory st 64;
     Some (a, st)).

(** Four blocks of 64 bytes, of which the first and the third have been
    freed; the pointer is the second. *)
Definition holes : Z * State :=
  default (NULL, initial_state)
    ('(p1, st) ← mem_alloc (provider base_A) initial_state 64;
     '(p2, st) ← mem_alloc no_memory st 64;
     '(p3, st) ← mem_alloc no_memory st 64;
     '(p4, st) ← mem_alloc no_memory st 64;
     st ← mem_free st p1;
     st ← mem_free st p3;
     Some (p2, st)).

(** [a = mem_alloc(128)]; [mem_realloc(a, SIZE_MAX)], whose request rounds
    to 0; [b = mem_alloc(64)], which takes the block right behind the block
    of [a].  The pointer is [a]. *)
Definition empty_block_state : option (Z * State) :=
  '(a, st) ← mem_alloc (provider base_A) initial_state 128;
  '(a, st) ← mem_realloc no_memory st a SIZE_MAX;
  '(b, st) ← mem_alloc no_memory st 64;
  Some (a, st).

Definition empty_block : Z * State := default (NULL, initial_state) empty_block_state.

(** The state in which [mem_free(a)] calls [block_dontneed]: the busy flag
    of the block of [a] has been cleared. *)
Definition empty_block_cleared : State :=
  with_mem empty_block.2
           (block_clr_flag_busy (mem empty_block.2) (payload_to_block empty_block.1)).

End Scenario.

(** ** Words and masks *)

(** Evaluate the bit operations of the goal that have constant operands. *)
Ltac bits_const :=
  repeat match goal with
  | |- context [Z.land ?a ?b] =>
      progress (let v := eval vm_compute in (Z.land a b) in change (Z.land a b) with v)
  | |- context [Z.lor ?a ?b] =>
      progress (let v := eval vm_compute in (Z.lor a b) in change (Z.lor a b) with v)
  end.

Section Bits.

Lemma pow2_bounds k : 0 <= k <= 64 -> 0 < 2^k <= 2^64.
Proof.
  intros Hk. split.
  - apply Z.pow_pos_nonneg; lia.
  - apply Z.pow_le_mono_r; lia.
Qed.

Lemma wrap_small z : 0 <= z <= SIZE_MAX -> wrap z = z.
Proof. intros Hz. unfold wrap, SIZE_MAX in *. apply Z.mod_small. lia. Qed.

Lemma wrap_range z : 0 <= wrap z <= SIZE_MAX.
Proof.
  unfold wrap, SIZE_MAX.
  pose proof (Z.mod_pos_bound z (2^64) ltac:(lia)). lia.
Qed.

Lemma size_add_small a b : 0 <= a + b <= SIZE_MAX -> size_add a b = a + b.
Proof. apply wrap_small. Qed.

Lemma size_sub_small a b : 0 <= a - b <= SIZE_MAX -> size_sub a b = a - b.
Proof. apply wrap_small. Qed.

Lemma size_mul_small a b : 0 <= a * b <= SIZE_MAX -> size_mul a b = a * b.
Proof. apply wrap_small. Qed.

Lemma size_not_ones k : 0 <= k <= 64 -> size_not (2^k - 1) = 2^64 - 2^k.
Proof.
  intros Hk. unfold size_not, wrap. pose proof (pow2_bounds k Hk).
  replace (Z.lnot (2^k - 1)) with ((2^64 - 2^k) + (-1) * 2^64)
    by (unfold Z.lnot; lia).
  rewrite Z.mod_add by lia.
  apply Z.mod_small. lia.
Qed.

Lemma testbit_above x k n : 0 <= k -> 0 <= x < 2^k -> k <= n -> Z.testbit x n = false.
Proof.
  intros Hk Hx Hn. destruct (Z.eq_dec x 0) as [->|Hne].
  - apply Z.testbit_0_l.
  - apply Z.bits_above_log2; try lia.
    assert (Z.log2 x < k); [|lia]. apply Z.log2_lt_pow2; lia.
Qed.

Lemma testbit_below a k n : 0 <= n < k -> a mod 2^k = 0 -> Z.testbit a n = false.
Proof.
  intros Hn Ha.
  rewrite <- (Z.mod_pow2_bits_low a k n) by lia. rewrite Ha. apply Z.bits_0.
Qed.

(** [x & (2^64 - 2^k)] clears the [k] low bits of a [size_t]. *)
Lemma land_high_mask x k :
  0 <= k <= 64 -> 0 <= x < 2^64 -> Z.land x (2^64 - 2^k) = 2^k * (x / 2^k).
Proof.
  intros Hk Hx.
  replace (2^64 - 2^k) with (Z.shiftl (Z.ones (64 - k)) k).
  2:{ rewrite Z.shiftl_mul_pow2, Z.ones_equiv by lia.
      replace (2^64) with (2^(64-k) * 2^k)
        by (rewrite <- Z.pow_add_r by lia; f_equal; lia).
      lia. }
  replace (2^k * (x / 2^k)) with (Z.shiftl (Z.shiftr x k) k).
  2:{ rewrite Z.shiftl_mul_pow2, Z.shiftr_div_pow2 by lia. lia. }
  apply Z.bits_inj'. intros n Hn.
  rewrite Z.land_spec.
  destruct (Z_lt_dec n k).
  - rewrite !Z.shiftl_spec_low by lia. apply andb_false_r.
  - rewrite !Z.shiftl_spec by lia. rewrite Z.shiftr_spec by lia.
    replace (n - k + k) with n by lia.
    destruct (Z_lt_dec n 64).
    + rewrite Z.ones_spec_low by lia. apply andb_true_r.
    + rewrite Z.ones_spec_high by lia.
      rewrite (testbit_above x 64 n) by lia. reflexivity.
Qed.

Lemma land_disjoint a f k :
  0 <= k -> a mod 2^k = 0 -> 0 <= f < 2^k -> Z.land a f = 0.
Proof.
  intros Hk Ha Hf.
  apply Z.bits_inj'. intros n Hn. rewrite Z.land_spec, Z.bits_0.
  destruct (Z_lt_dec n k).
  - rewrite (testbit_below a k n) by lia. reflexivity.
  - rewrite (testbit_above f k n) by lia. apply andb_false_r.
Qed.

Lemma lor_disjoint a f k :
  0 <= k -> a mod 2^k = 0 -> 0 <= f < 2^k -> Z.lor a f = a + f.
Proof.
  intros Hk Ha Hf.
  rewrite <- Z.add_lor_land. rewrite (land_disjoint a f k) by assumption. lia.
Qed.

Lemma two_bits f : 0 <= f < 4 -> f = 0 \/ f = 1 \/ f = 2 \/ f = 3.
Proof. lia. Qed.

(** Bit operations on a word that carries a multiple of four and two flag
    bits. *)
Lemma lor_flags a f g :
  a mod 4 = 0 -> 0 <= f < 4 -> 0 <= g < 4 -> Z.lor (a + f) g = a + Z.lor f g.
Proof.
  intros Ha Hf Hg.
  rewrite <- (lor_disjoint a f 2) by (try assumption; lia).
  rewrite <- Z.lor_assoc.
  apply (lor_disjoint a (Z.lor f g) 2); [lia | assumption |].
  destruct (two_bits f Hf) as [->|[->|[->| ->]]];
    destruct (two_bits g Hg) as [->|[->|[->| ->]]]; change (2^2) with 4; bits_const; lia.
Qed.

Lemma land_flags a f g :
  a mod 4 = 0 -> 0 <= f < 4 -> 0 <= g < 4 -> Z.land (a + f) g = Z.land f g.
Proof.
  intros Ha Hf Hg.
  rewrite <- (lor_disjoint a f 2) by (try assumption; lia).
  rewrite Z.land_lor_distr_l.
  rewrite (land_disjoint a g 2) by (try assumption; lia).
  apply Z.lor_0_l.
Qed.

Lemma land_size_flags a f g :
  a mod 4 = 0 -> 0 <= f < 4 -> 0 <= g < 4 -> 0 <= a -> a + f <= SIZE_MAX ->
  Z.land (a + f) (2^64 - 4 + g) = a + Z.land f g.
Proof.
  intros Ha Hf Hg Ha0 Hmax. unfold SIZE_MAX in Hmax.
  rewrite <- (lor_disjoint (2^64 - 4) g 2); [| lia | reflexivity | assumption].
  rewrite Z.land_lor_distr_r.
  change (2^64 - 4) with (2^64 - 2^2).
  rewrite (land_high_mask (a + f) 2) by lia.
  rewrite (land_flags a f g) by assumption.
  replace (2 ^ 2 * ((a + f) / 2 ^ 2)) with a.
  2:{ change (2^2) with 4.
      pose proof (Z.div_mod a 4 ltac:(lia)) as E. rewrite Ha in E.
      replace (a + f) with (f + (a / 4) * 4) by lia.
      rewrite Z.div_add by lia. rewrite (Z.div_small f) by lia. lia. }
  apply (lor_disjoint a (Z.land f g) 2); [lia | assumption |].
  destruct (two_bits f Hf) as [->|[->|[->| ->]]];
    destruct (two_bits g Hg) as [->|[->|[->| ->]]]; change (2^2) with 4; bits_const; lia.
Qed.

End Bits.

Lemma flags_of_range b l : 0 <= flags_of b l < 4.
Proof. destruct b, l; unfold flags_of; lia. Qed.

Lemma size_word_exists w :
  is_size_t w -> exists sz b l, size_word w sz b l.
Proof.
  intros [H0 Hmax]. unfold SIZE_MAX in Hmax.
  pose proof (Z.div_mod w 4 ltac:(lia)) as E.
  pose proof (Z.mod_pos_bound w 4 ltac:(lia)) as Hm.
  exists (4 * (w / 4)), (negb (w mod 4 =? 0) && negb (w mod 4 =? 2)),
         (2 <=? w mod 4).
  unfold size_word, SIZE_MAX. repeat split.
  - destruct (two_bits _ Hm) as [R|[R|[R|R]]]; rewrite R in *;
      match goal with
      | |- context [flags_of ?a ?b] =>
          let v := eval vm_compute in (flags_of a b) in change (flags_of a b) with v
      end; lia.
  - lia.
  - rewrite Z.mul_comm. apply Z.mod_mul. lia.
  - assert (w / 4 < 2^62) by (apply Z.div_lt_upper_bound; lia). lia.
Qed.

Section Words.
Context {cfg : Config}.

Lemma size_not_3 : size_not (Z.lor BLOCK_OCCUPIED BLOCK_LAST) = 2^64 - 4 + 0.
Proof. reflexivity. Qed.
Lemma size_not_1 : size_not BLOCK_OCCUPIED = 2^64 - 4 + 2.
Proof. reflexivity. Qed.
Lemma size_not_2 : size_not BLOCK_LAST = 2^64 - 4 + 1.
Proof. reflexivity. Qed.

Lemma word_size w sz b l :
  size_word w sz b l -> Z.land w (size_not (Z.lor BLOCK_OCCUPIED BLOCK_LAST)) = sz.
Proof.
  intros (-> & H0 & Hm & Hmax). rewrite size_not_3.
  rewrite land_size_flags; try assumption; try lia.
  - destruct b, l; unfold flags_of; bits_const; lia.
  - apply flags_of_range.
  - pose proof (flags_of_range b l). lia.
Qed.

Lemma word_busy w sz b l :
  size_word w sz b l -> negb (Z.land w BLOCK_OCCUPIED =? 0) = b.
Proof.
  intros (-> & H0 & Hm & Hmax).
  rewrite land_flags; try assumption; [| apply flags_of_range | unfold BLOCK_OCCUPIED; lia].
  destruct b, l; reflexivity.
Qed.

Lemma word_last w sz b l :
  size_word w sz b l -> negb (Z.land w BLOCK_LAST =? 0) = l.
Proof.
  intros (-> & H0 & Hm & Hmax).
  rewrite land_flags; try assumption; [| apply flags_of_range | unfold BLOCK_LAST; lia].
  destruct b, l; reflexivity.
Qed.

Lemma word_set_busy w sz b l :
  size_word w sz b l -> size_word (Z.lor w BLOCK_OCCUPIED) sz true l.
Proof.
  intros (-> & H0 & Hm & Hmax). repeat split; try assumption.
  rewrite lor_flags; try assumption; [| apply flags_of_range | unfold BLOCK_OCCUPIED; lia].
  destruct b, l; reflexivity.
Qed.

Lemma word_set_last w sz b l :
  size_word w sz b l -> size_word (Z.lor w BLOCK_LAST) sz b true.
Proof.
  intros (-> & H0 & Hm & Hmax). repeat split; try assumption.
  rewrite lor_flags; try assumption; [| apply flags_of_range | unfold BLOCK_LAST; lia].
  destruct b, l; reflexivity.
Qed.

Lemma word_clr_busy w sz b l :
  size_word w sz b l -> size_word (Z.land w (size_not BLOCK_OCCUPIED)) sz false l.
Proof.
  intros (-> & H0 & Hm & Hmax). repeat split; try assumption.
  rewrite size_not_1.
  rewrite land_size_flags; try assumption; try lia.
  - destruct b, l; reflexivity.
  - apply flags_of_range.
  - pose proof (flags_of_range b l). lia.
Qed.

Lemma word_clr_last w sz b l :
  size_word w sz b l -> size_word (Z.land w (size_not BLOCK_LAST)) sz b false.
Proof.
  intros (-> & H0 & Hm & Hmax). repeat split; try assumption.
  rewrite size_not_2.
  rewrite land_size_flags; try assumption; try lia.
  - destruct b, l; reflexivity.
  - apply flags_of_range.
  - pose proof (flags_of_range b l). lia.
Qed.

Lemma word_set_size w sz b l size :
  size_word w sz b l -> 0 <= size -> size mod 4 = 0 -> size + 3 <= SIZE_MAX ->
  size_word (Z.lor size (Z.land w (Z.lor BLOCK_OCCUPIED BLOCK_LAST))) size b l.
Proof.
  intros (-> & H0 & Hm & Hmax) Hs0 Hsm Hsmax. repeat split; try assumption.
  rewrite land_flags; try assumption;
    [| apply flags_of_range | unfold BLOCK_OCCUPIED, BLOCK_LAST; bits_const; lia].
  replace (Z.land (flags_of b l) (Z.lor BLOCK_OCCUPIED BLOCK_LAST)) with (flags_of b l)
    by (destruct b, l; reflexivity).
  apply (lor_disjoint size _ 2); [lia | assumption | apply flags_of_range].
Qed.

End Words.

Lemma scenario_ok : config_ok scenario.
Proof.
  split.
  - exists 4. split; [lia | reflexivity].
  - exists 12. split; [lia | reflexivity].
  - vm_compute. discriminate.
  - vm_compute. split; [reflexivity | discriminate].
  - vm_compute. split; [reflexivity | discriminate].
  - vm_compute. discriminate.
Qed.

Section Constants.
Context {cfg : Config} (Hcfg : config_ok cfg).

Lemma ALIGN_range : 8 <= ALIGN <= 4096.
Proof.
  destruct (ok_align _ Hcfg) as (k & Hk & ->).
  split.
  - change 8 with (2^3). apply Z.pow_le_mono_r; lia.
  - change 4096 with (2^12). apply Z.pow_le_mono_r; lia.
Qed.

Lemma PAGE_range : 8 <= ALLOCATOR_PAGE_SIZE <= 2^30.
Proof.
  destruct (ok_page _ Hcfg) as (k & Hk & ->).
  split.
  - change 8 with (2^3). apply Z.pow_le_mono_r; lia.
  - apply Z.pow_le_mono_r; lia.
Qed.

Lemma mod_pow2_le a j k : 0 <= j <= k -> a mod 2^k = 0 -> a mod 2^j = 0.
Proof.
  intros Hjk Ha.
  apply Z.mod_divide in Ha; [| apply Z.pow_nonzero; lia].
  apply Z.mod_divide; [apply Z.pow_nonzero; lia |].
  destruct Ha as [q ->].
  exists (q * 2^(k - j)). rewrite <- Z.mul_assoc, <- Z.pow_add_r by lia.
  do 2 f_equal. lia.
Qed.

Lemma align_mod_4 a : a mod ALIGN = 0 -> a mod 4 = 0.
Proof.
  destruct (ok_align _ Hcfg) as (k & Hk & ->).
  change 4 with (2^2). apply mod_pow2_le. lia.
Qed.

Lemma align_mod_8 a : a mod ALIGN = 0 -> a mod 8 = 0.
Proof.
  destruct (ok_align _ Hcfg) as (k & Hk & ->).
  change 8 with (2^3). apply mod_pow2_le. lia.
Qed.

Lemma page_mod_align a : a mod ALLOCATOR_PAGE_SIZE = 0 -> a mod ALIGN = 0.
Proof.
  pose proof (ok_align_page _ Hcfg) as Hle.
  destruct (ok_align _ Hcfg) as (k & Hk & Ek).
  destruct (ok_page _ Hcfg) as (j & Hj & Ej).
  rewrite Ek, Ej in *. apply mod_pow2_le. split; [lia|].
  apply (Z.pow_le_mono_r_iff 2); lia.
Qed.

(** Rounding up to a power of two, as the masks of the code compute it. *)
Lemma round_up_pow2 x k :
  0 <= k <= 64 -> 0 <= x -> x + 2^k - 1 <= SIZE_MAX ->
  Z.land (size_sub (size_add x (2^k)) 1) (size_not (2^k - 1))
  = 2^k * ((x + 2^k - 1) / 2^k).
Proof.
  intros Hk Hx Hmax. pose proof (pow2_bounds k Hk) as Hp.
  assert (E : size_sub (size_add x (2^k)) 1 = x + 2^k - 1).
  { unfold size_sub, size_add, wrap.
    rewrite Zminus_mod_idemp_l. apply Z.mod_small. unfold SIZE_MAX in Hmax. lia. }
  rewrite E, size_not_ones by assumption.
  apply land_high_mask; [assumption |]. unfold SIZE_MAX in Hmax. lia.
Qed.

Lemma round_down_pow2 x k :
  0 <= k <= 64 -> 0 <= x <= SIZE_MAX ->
  Z.land x (size_not (2^k - 1)) = 2^k * (x / 2^k).
Proof.
  intros Hk Hx. rewrite size_not_ones by assumption.
  apply land_high_mask; [assumption |]. unfold SIZE_MAX in Hx. lia.
Qed.

Lemma ROUND_BYTES_eq x :
  0 <= x -> x + ALIGN - 1 <= SIZE_MAX ->
  ROUND_BYTES x = ALIGN * ((x + ALIGN - 1) / ALIGN).
Proof.
  intros Hx Hmax. unfold ROUND_BYTES.
  destruct (ok_align _ Hcfg) as (k & Hk & Ek). rewrite Ek in *.
  apply round_up_pow2; try assumption; lia.
Qed.

Lemma round_up_bounds a x :
  0 < a -> x <= a * ((x + a - 1) / a) < x + a /\ (a * ((x + a - 1) / a)) mod a = 0.
Proof.
  intros Ha.
  pose proof (Z.div_mod (x + a - 1) a ltac:(lia)) as E.
  pose proof (Z.mod_pos_bound (x + a - 1) a Ha) as Hm.
  split; [lia |]. rewrite Z.mul_comm. apply Z.mod_mul. lia.
Qed.

Lemma ROUND_BYTES_bounds x :
  0 <= x -> x + ALIGN - 1 <= SIZE_MAX ->
  x <= ROUND_BYTES x < x + ALIGN /\ ROUND_BYTES x mod ALIGN = 0.
Proof.
  intros Hx Hmax. rewrite ROUND_BYTES_eq by assumption.
  apply round_up_bounds. pose proof ALIGN_range. lia.
Qed.

Lemma ROUND_BYTES_aligned x :
  0 <= x <= SIZE_MAX -> x mod ALIGN = 0 -> ROUND_BYTES x = x.
Proof.
  intros Hx Hm. pose proof ALIGN_range as Ha.
  assert (Hq : x = ALIGN * (x / ALIGN)).
  { assert (Hnz : ALIGN <> 0) by lia.
    pose proof (Z.div_mod x ALIGN Hnz) as E. rewrite Hm in E. lia. }
  assert (Hmax : x + ALIGN - 1 <= SIZE_MAX).
  { destruct (ok_align _ Hcfg) as (k & Hk & Ek).
    assert (SIZE_MAX + 1 = ALIGN * 2^(64 - k)).
    { rewrite Ek, <- Z.pow_add_r by lia. unfold SIZE_MAX.
      replace (k + (64 - k)) with 64 by lia. lia. }
    assert (x / ALIGN < 2^(64 - k)) by (apply Z.div_lt_upper_bound; lia).
    nia. }
  rewrite ROUND_BYTES_eq by lia.
  rewrite Hq at 1.
  replace (ALIGN * (x / ALIGN) + ALIGN - 1) with ((ALIGN - 1) + (x / ALIGN) * ALIGN) by lia.
  rewrite Z.div_add by lia. rewrite (Z.div_small (ALIGN - 1)) by lia. lia.
Qed.

Lemma BLOCK_STRUCT_SIZE_bounds :
  sizeof_Block <= BLOCK_STRUCT_SIZE < sizeof_Block + ALIGN /\ BLOCK_STRUCT_SIZE mod ALIGN = 0.
Proof.
  pose proof ALIGN_range. apply ROUND_BYTES_bounds; unfold sizeof_Block, sizeof_size_t, SIZE_MAX; lia.
Qed.

Lemma BLOCK_SIZE_MIN_bounds :
  sizeof_tree_node_type <= BLOCK_SIZE_MIN < sizeof_tree_node_type + ALIGN
  /\ BLOCK_SIZE_MIN mod ALIGN = 0.
Proof.
  pose proof ALIGN_range. pose proof (ok_node _ Hcfg).
  apply ROUND_BYTES_bounds; unfold SIZE_MAX; lia.
Qed.

Lemma ARENA_SIZE_range : 0 < ARENA_SIZE <= 2^50.
Proof.
  unfold ARENA_SIZE. pose proof PAGE_range. pose proof (ok_arena_pages _ Hcfg).
  change (2^50) with (2^20 * 2^30). nia.
Qed.

Lemma BLOCK_SIZE_MAX_eq : BLOCK_SIZE_MAX = ARENA_SIZE - BLOCK_STRUCT_SIZE.
Proof.
  unfold BLOCK_SIZE_MAX. apply size_sub_small.
  pose proof ARENA_SIZE_range. pose proof BLOCK_STRUCT_SIZE_bounds.
  pose proof BLOCK_SIZE_MIN_bounds. pose proof (ok_arena _ Hcfg).
  pose proof (ok_node _ Hcfg). unfold SIZE_MAX, sizeof_Block, sizeof_size_t in *. lia.
Qed.

End Constants.

(** ** Reading memory after a write *)

Lemma load_store_eq (m : Memory) a v : load (store m a v) a = v.
Proof. unfold load, store. rewrite lookup_insert_eq. reflexivity. Qed.

Lemma load_store_ne (m : Memory) a v a' : a <> a' -> load (store m a v) a' = load m a'.
Proof. intros H. unfold load, store. rewrite lookup_insert_ne by assumption. reflexivity. Qed.

Ltac mem_simpl :=
  repeat first [ rewrite load_store_eq | rewrite load_store_ne by lia ].

(** ** [block_split] and [block_merge] *)

Section Split.
Context {cfg : Config} (Hcfg : config_ok cfg).

Lemma land_cleared_flags g :
  Z.land (Z.land (Z.land g (size_not BLOCK_OCCUPIED)) (size_not BLOCK_LAST))
         (Z.lor BLOCK_OCCUPIED BLOCK_LAST) = 0.
Proof.
  rewrite <- !Z.land_assoc.
  change (Z.land (size_not BLOCK_OCCUPIED)
            (Z.land (size_not BLOCK_LAST) (Z.lor BLOCK_OCCUPIED BLOCK_LAST))) with 0.
  apply Z.land_0_r.
Qed.

Lemma sizes_fit : 24 <= BLOCK_STRUCT_SIZE <= 24 + 4096 /\ BLOCK_STRUCT_SIZE mod 4 = 0 /\
   0 < BLOCK_SIZE_MIN <= 2^21 /\ BLOCK_SIZE_MIN mod 4 = 0.
Proof.
  pose proof (BLOCK_STRUCT_SIZE_bounds Hcfg) as (H1 & H2).
  pose proof (BLOCK_SIZE_MIN_bounds Hcfg) as (H3 & H4).
  pose proof (ALIGN_range Hcfg). pose proof (ok_node _ Hcfg).
  unfold sizeof_Block, sizeof_size_t in *.
  repeat split; try lia; try (apply (align_mod_4 Hcfg); assumption).
Qed.

(** C6: [block_split] on a block [block] and an aligned size [s] that is at
    most the size of the block marks the block busy.  It returns a new block
    exactly when the space left, the size of the block minus [s], is at
    least [BLOCK_STRUCT_SIZE + BLOCK_SIZE_MIN].  The new block then starts
    right after the [s] bytes kept, is free, is last exactly when the block was
    last (the block itself is no longer last), has the space left minus one
    header as its size, [s] as [size_prev] and the offset of the block plus
    [s] plus one header as its offset; when the block was not last, the
    [size_prev] of the block after the new one is the size of the new one.
    When the space left is too small the result is [NULL] and the block is
    only marked busy: its size and last flag are as before. *)
Theorem block_split_spec (m : Memory) (block s : Z) :
  0 < block ->
  is_size_t (load m (size_curr_of block)) ->
  is_size_t (block_get_offset m block) ->
  s mod ALIGN = 0 ->
  0 <= s <= block_get_size_curr m block ->
  block_get_offset m block + s + BLOCK_STRUCT_SIZE <= SIZE_MAX ->
  let c := block_get_size_curr m block in
  let was_last := block_get_flag_last m block in
  let block_r := (block_split m block s).1 in
  let m' := (block_split m block s).2 in
  block_get_flag_busy m' block = true /\
  (block_r <> NULL <-> BLOCK_STRUCT_SIZE + BLOCK_SIZE_MIN <= c - s) /\
  (block_r <> NULL ->
     block_r = block + BLOCK_STRUCT_SIZE + s /\
     block_get_size_curr m' block = s /\
     block_get_flag_last m' block = false /\
     block_get_flag_busy m' block_r = false /\
     block_get_flag_last m' block_r = was_last /\
     block_get_size_curr m' block_r = c - s - BLOCK_STRUCT_SIZE /\
     block_get_size_prev m' block_r = s /\
     block_get_offset m' block_r = block_get_offset m block + s + BLOCK_STRUCT_SIZE /\
     (was_last = false ->
        block_get_size_prev m' (block_next m' block_r) = block_get_size_curr m' block_r)) /\
  (block_r = NULL ->
     m' = block_set_flag_busy m block /\
     block_get_size_curr m' block = c /\
     block_get_flag_last m' block = was_last).
Proof.
  intros Hpos Hw Hoff Hs Hsc Hofs c was_last.
  destruct (size_word_exists _ Hw) as (sz & b & l & Hword).
  pose proof sizes_fit as (HH & HH4 & HM & HM4).
  assert (Hc : block_get_size_curr m block = sz) by (apply (word_size _ _ _ _ Hword)).
  assert (Hl : block_get_flag_last m block = l) by (apply (word_last _ _ _ _ Hword)).
  subst c was_last. cbv zeta. rewrite Hc, Hl in *. clear Hl.
  pose proof (word_set_busy _ _ _ _ Hword) as Hword1.
  destruct Hword as (Ew & Hsz0 & Hsz4 & Hszmax).
  assert (Hs4 : s mod 4 = 0) by (apply (align_mod_4 Hcfg); assumption).
  unfold block_split.
  set (m1 := block_set_flag_busy m block).
  assert (L1 : load m1 block = sz + flags_of true l).
  { unfold m1, block_set_flag_busy, size_curr_of. mem_simpl. apply Hword1. }
  assert (F1 : forall a, a <> block -> load m1 a = load m a).
  { intros a Ha. unfold m1, block_set_flag_busy, size_curr_of. mem_simpl. reflexivity. }
  assert (S1 : block_get_size_curr m1 block = sz).
  { unfold block_get_size_curr, size_curr_of. rewrite L1.
    apply (word_size _ sz true l). repeat split; assumption. }
  assert (B1 : block_get_flag_busy m1 block = true).
  { unfold block_get_flag_busy, size_curr_of. rewrite L1.
    apply (word_busy _ sz true l). repeat split; assumption. }
  assert (La1 : block_get_flag_last m1 block = l).
  { unfold block_get_flag_last, size_curr_of. rewrite L1.
    apply (word_last _ sz true l). repeat split; assumption. }
  rewrite S1.
  rewrite (size_sub_small sz s) by (unfold SIZE_MAX in *; lia).
  rewrite (size_add_small BLOCK_STRUCT_SIZE BLOCK_SIZE_MIN) by (unfold SIZE_MAX; lia).
  destruct (Z.leb_spec (BLOCK_STRUCT_SIZE + BLOCK_SIZE_MIN) (sz - s)) as [Hfit | Hno].
  2:{ cbn [fst snd]. repeat split; try assumption; try congruence; try (unfold NULL; lia). }
  cbn [fst snd].
  rewrite (size_sub_small (sz - s) BLOCK_STRUCT_SIZE) by (unfold SIZE_MAX in *; lia).
  set (rest := sz - s - BLOCK_STRUCT_SIZE).
  assert (Hrest : 0 <= rest /\ rest mod 4 = 0 /\ rest + 3 <= SIZE_MAX).
  { unfold rest. repeat split; try lia.
    rewrite <- Zminus_mod_idemp_r, HH4, Z.sub_0_r.
    rewrite <- Zminus_mod_idemp_r, Hs4, Z.sub_0_r. assumption. }
  destruct Hrest as (Hr0 & Hr4 & Hrmax).
  set (m2 := block_set_size_curr m1 block s).
  assert (L2 : load m2 block = s + flags_of true l).
  { unfold m2, block_set_size_curr, size_curr_of. mem_simpl. rewrite L1.
    apply (word_set_size _ sz true l); try assumption; try lia.
    repeat split; assumption. }
  assert (F2 : forall a, a <> block -> load m2 a = load m a).
  { intros a Ha. unfold m2, block_set_size_curr, size_curr_of. mem_simpl. auto. }
  assert (W2 : size_word (load m2 block) s true l).
  { rewrite L2. repeat split; try assumption; lia. }
  assert (N2 : block_next m2 block = block + BLOCK_STRUCT_SIZE + s).
  { unfold block_next, block_get_size_curr, size_curr_of.
    rewrite (word_size _ _ _ _ W2). reflexivity. }
  rewrite N2.
  set (block_r := block + BLOCK_STRUCT_SIZE + s).
  set (m3 := block_init m2 block_r).
  set (m4 := block_set_size_curr m3 block_r rest).
  assert (L4 : load m4 block_r = rest).
  { unfold m4, block_set_size_curr, size_curr_of. mem_simpl.
    unfold m3, block_init, block_clr_flag_last, block_clr_flag_busy, size_curr_of.
    mem_simpl. rewrite land_cleared_flags. apply Z.lor_0_r. }
  assert (F4 : forall a, a <> block_r -> load m4 a = load m2 a).
  { intros a Ha. unfold m4, block_set_size_curr, m3, block_init,
      block_clr_flag_last, block_clr_flag_busy, size_curr_of. mem_simpl. reflexivity. }
  set (m5 := block_set_size_prev m4 block_r s).
  assert (O5 : block_get_offset m5 block = block_get_offset m block).
  { unfold block_get_offset, m5, block_set_size_prev, offset_of, size_prev_of, sizeof_size_t.
    subst block_r. mem_simpl. rewrite F4 by lia. apply F2. lia. }
  rewrite O5.
  set (off := block_get_offset m block) in *.
  rewrite (size_add_small off s) by (unfold is_size_t in Hoff; lia).
  rewrite (size_add_small (off + s)) by (unfold is_size_t in Hoff; lia).
  set (m6 := block_set_offset m5 block_r (off + s + BLOCK_STRUCT_SIZE)).
  assert (F6 : forall a, a <> block_r + 8 -> a <> block_r + 16 -> load m6 a = load m4 a).
  { intros a Ha Ha'. unfold m6, block_set_offset, m5, block_set_size_prev,
      offset_of, size_prev_of, sizeof_size_t. mem_simpl. reflexivity. }
  assert (P6 : load m6 (block_r + 8) = s).
  { unfold m6, block_set_offset, m5, block_set_size_prev,
      offset_of, size_prev_of, sizeof_size_t. mem_simpl. reflexivity. }
  assert (Of6 : load m6 (block_r + 16) = off + s + BLOCK_STRUCT_SIZE).
  { unfold m6, block_set_offset, offset_of, sizeof_size_t. mem_simpl. reflexivity. }
  assert (La6 : block_get_flag_last m6 block = l).
  { unfold block_get_flag_last, size_curr_of. subst block_r.
    rewrite F6, F4 by lia. apply (word_last _ _ _ _ W2). }
  rewrite La6.
  assert (W6r : size_word (load m6 block_r) rest false false).
  { rewrite F6, L4 by lia. repeat split; try assumption. unfold flags_of. lia. }
  assert (W6 : size_word (load m6 block) s true l).
  { subst block_r. rewrite F6, F4 by lia. assumption. }
  assert (Hne : block_r <> NULL) by (unfold NULL; subst block_r; lia).
  split; [| split; [| split]]; try (intros; congruence).
  - (* busy *)
    destruct l.
    + unfold block_get_flag_busy, block_set_flag_last, block_clr_flag_last, size_curr_of.
      subst block_r. mem_simpl.
      apply (word_busy _ s true false). apply word_clr_last with (l := true). assumption.
    + unfold block_get_flag_busy, block_set_size_prev, block_next, size_prev_of,
        size_curr_of, sizeof_size_t.
      unfold block_get_size_curr, size_curr_of. rewrite (word_size _ _ _ _ W6r).
      subst block_r. mem_simpl. apply (word_busy _ _ _ _ W6).
  - split; [intros _; lia | intros _; assumption].
  - intros _. split; [reflexivity |].
    destruct l.
    + set (m7 := block_clr_flag_last m6 block).
      set (m8 := block_set_flag_last m7 block_r).
      assert (L8 : size_word (load m8 block) s true false).
      { unfold m8, block_set_flag_last, m7, block_clr_flag_last, size_curr_of.
        subst block_r. mem_simpl. apply word_clr_last with (l := true). assumption. }
      assert (L8r : size_word (load m8 block_r) rest false true).
      { unfold m8, block_set_flag_last, m7, block_clr_flag_last, size_curr_of.
        mem_simpl. subst block_r. mem_simpl.
        apply word_set_last with (l := false). assumption. }
      assert (F8 : forall a, a <> block -> a <> block_r -> load m8 a = load m6 a).
      { intros a Ha Ha'. unfold m8, block_set_flag_last, m7, block_clr_flag_last,
          size_curr_of. mem_simpl. reflexivity. }
      unfold block_get_size_curr, block_get_flag_last, block_get_flag_busy,
        block_get_size_prev, block_get_offset, size_curr_of, size_prev_of, offset_of,
        sizeof_size_t.
      rewrite (word_size _ _ _ _ L8), (word_last _ _ _ _ L8), (word_size _ _ _ _ L8r),
        (word_last _ _ _ _ L8r), (word_busy _ _ _ _ L8r).
      rewrite !F8 by (subst block_r; lia).
      change (2 * 8) with 16. rewrite P6, Of6.
      repeat split; try reflexivity. intros; discriminate.
    + set (nxt := block_next m6 block_r).
      assert (Nx : nxt = block_r + BLOCK_STRUCT_SIZE + rest).
      { unfold nxt, block_next, block_get_size_curr, size_curr_of.
        rewrite (word_size _ _ _ _ W6r). reflexivity. }
      set (m7 := block_set_size_prev m6 nxt rest).
      assert (F7 : forall a, a <> nxt + 8 -> load m7 a = load m6 a).
      { intros a Ha. unfold m7, block_set_size_prev, size_prev_of, sizeof_size_t.
        mem_simpl. reflexivity. }
      assert (P7 : load m7 (nxt + 8) = rest).
      { unfold m7, block_set_size_prev, size_prev_of, sizeof_size_t. mem_simpl. reflexivity. }
      unfold block_next.
      unfold block_get_size_curr, block_get_flag_last, block_get_flag_busy,
        block_get_size_prev, block_get_offset, size_curr_of, size_prev_of, offset_of,
        sizeof_size_t.
      change (2 * 8) with 16.
      rewrite !F7 by (subst block_r; lia).
      rewrite (word_size _ _ _ _ W6), (word_last _ _ _ _ W6), (word_size _ _ _ _ W6r),
        (word_last _ _ _ _ W6r), (word_busy _ _ _ _ W6r).
      rewrite P6, Of6. rewrite <- Nx, P7.
      repeat split; reflexivity.
Qed.

(** C7: [block_merge] of a block with its free right neighbour [block_r]
    passes both assertions and sets the size of the block to the sum of the
    two sizes and one header.  The busy bit of the block is kept.  When
    [block_r] was last the block becomes last; otherwise the [size_prev] of
    the block that followed [block_r], which now follows the merged block, is
    the new size and the last flag of the block is kept. *)
Theorem block_merge_spec (m : Memory) (block block_r : Z) :
  is_size_t (load m (size_curr_of block)) ->
  is_size_t (load m (size_curr_of block_r)) ->
  block_next m block = block_r ->
  block_get_flag_busy m block_r = false ->
  block_get_size_curr m block + block_get_size_curr m block_r + BLOCK_STRUCT_SIZE + 3
    <= SIZE_MAX ->
  let size := block_get_size_curr m block + block_get_size_curr m block_r
              + BLOCK_STRUCT_SIZE in
  exists m',
    block_merge m block block_r = Some m' /\
    block_get_size_curr m' block = size /\
    block_get_flag_busy m' block = block_get_flag_busy m block /\
    block_next m' block = block_next m block_r /\
    (if block_get_flag_last m block_r then
       block_get_flag_last m' block = true
     else
       block_get_size_prev m' (block_next m' block) = size /\
       block_get_flag_last m' block = block_get_flag_last m block).
Proof.
  intros Hw Hwr Hnext Hfree Hmax size.
  destruct (size_word_exists _ Hw) as (sz & b & l & Hword).
  destruct (size_word_exists _ Hwr) as (szr & br & lr & Hwordr).
  pose proof sizes_fit as (HH & HH4 & HM & HM4).
  assert (Hc : block_get_size_curr m block = sz) by (apply (word_size _ _ _ _ Hword)).
  assert (Hcr : block_get_size_curr m block_r = szr) by (apply (word_size _ _ _ _ Hwordr)).
  assert (Hb : block_get_flag_busy m block = b) by (apply (word_busy _ _ _ _ Hword)).
  assert (Hl : block_get_flag_last m block = l) by (apply (word_last _ _ _ _ Hword)).
  assert (Hlr : block_get_flag_last m block_r = lr) by (apply (word_last _ _ _ _ Hwordr)).
  assert (Er : block_r = block + BLOCK_STRUCT_SIZE + sz).
  { rewrite <- Hnext. unfold block_next. rewrite Hc. reflexivity. }
  subst size. cbv zeta. unfold block_merge.
  rewrite Hfree, Hnext, Z.eqb_refl. cbn [assert negb mbind option_bind].
  assert (N1' : block_next m block_r = block_r + BLOCK_STRUCT_SIZE + szr).
  { unfold block_next. rewrite Hcr. reflexivity. }
  rewrite Hc, Hcr, Hb, Hl, N1' in *.
  destruct Hword as (Ew & Hsz0 & Hsz4 & Hszmax).
  destruct Hwordr as (Ewr & Hszr0 & Hszr4 & Hszrmax).
  rewrite (size_add_small sz szr) by lia.
  rewrite (size_add_small (sz + szr)) by lia.
  set (size := sz + szr + BLOCK_STRUCT_SIZE).
  assert (Hsize : 0 <= size /\ size mod 4 = 0 /\ size + 3 <= SIZE_MAX).
  { unfold size. repeat split; try lia.
    rewrite <- Zplus_mod_idemp_r, HH4, Z.add_0_r.
    rewrite <- Zplus_mod_idemp_r, Hszr4, Z.add_0_r. assumption. }
  destruct Hsize as (Hz0 & Hz4 & Hzmax).
  set (m1 := block_set_size_curr m block size).
  assert (W1 : size_word (load m1 block) size b l).
  { unfold m1, block_set_size_curr, size_curr_of. mem_simpl.
    apply (word_set_size _ sz b l); try assumption. repeat split; assumption. }
  assert (F1 : forall a, a <> block -> load m1 a = load m a).
  { intros a Ha. unfold m1, block_set_size_curr, size_curr_of. mem_simpl. reflexivity. }
  assert (W1r : size_word (load m1 block_r) szr br lr).
  { rewrite F1 by lia. repeat split; assumption. }
  assert (La1 : block_get_flag_last m1 block_r = lr) by (apply (word_last _ _ _ _ W1r)).
  assert (N1 : block_next m1 block_r = block_r + BLOCK_STRUCT_SIZE + szr).
  { unfold block_next, block_get_size_curr, size_curr_of.
    rewrite (word_size _ _ _ _ W1r). reflexivity. }
  rewrite La1, Hlr.
  destruct lr.
  - eexists. split; [reflexivity |].
    assert (W2 : size_word (load (block_set_flag_last m1 block) block) size b true).
    { unfold block_set_flag_last, size_curr_of. mem_simpl.
      apply word_set_last with (l := l). assumption. }
    unfold block_next.
    unfold block_get_size_curr, block_get_flag_busy, block_get_flag_last, size_curr_of.
    rewrite (word_size _ _ _ _ W2), (word_busy _ _ _ _ W2), (word_last _ _ _ _ W2).
    repeat split; try reflexivity. unfold size. lia.
  - eexists. split; [reflexivity |].
    rewrite N1.
    set (m2 := block_set_size_prev m1 (block_r + BLOCK_STRUCT_SIZE + szr) size).
    assert (W2 : size_word (load m2 block) size b l).
    { unfold m2, block_set_size_prev, size_prev_of, sizeof_size_t. mem_simpl. assumption. }
    unfold block_next, block_get_size_prev.
    unfold block_get_size_curr, block_get_flag_busy, block_get_flag_last, size_curr_of.
    rewrite (word_size _ _ _ _ W2), (word_busy _ _ _ _ W2), (word_last _ _ _ _ W2).
    replace (block + BLOCK_STRUCT_SIZE + size) with (block_r + BLOCK_STRUCT_SIZE + szr)
      by (unfold size; lia).
    unfold m2, block_set_size_prev. rewrite load_store_eq.
    repeat split; reflexivity.
Qed.

End Split.

(** ** [block_dontneed] and the overflow guard of [mem_alloc] *)

Section Dontneed.
Context {cfg : Config} (Hcfg : config_ok cfg).

Lemma land_low_mask x k : 0 <= k -> Z.land x (2^k - 1) = x mod 2^k.
Proof.
  intros Hk. rewrite <- Z.land_ones by lia. rewrite Z.ones_equiv. reflexivity.
Qed.

Lemma size_curr_nonneg (m : Memory) block : 0 <= block_get_size_curr m block.
Proof.
  unfold block_get_size_curr. apply Z.land_nonneg. right.
  rewrite size_not_3. lia.
Qed.

(** On a block that can hold its index node, the size test of
    [block_dontneed], which is computed on [size_t], is the test on the
    integers. *)
Lemma dontneed_guard_exact (m : Memory) (block : Z) :
  sizeof_tree_node_type <= block_get_size_curr m block <= SIZE_MAX ->
  (size_sub (block_get_size_curr m block) sizeof_tree_node_type <? ALLOCATOR_PAGE_SIZE) = false
  <-> block_get_size_curr m block - sizeof_tree_node_type >= ALLOCATOR_PAGE_SIZE.
Proof.
  intros Hs. pose proof (ok_node _ Hcfg) as Hnode.
  rewrite size_sub_small by lia. rewrite Z.ltb_ge. lia.
Qed.

(** X20: for a block whose size minus the size of the index node, taken over
    the integers, is at least a page (and whose end offset is a [size_t]),
    [block_dontneed] passes its size test; the lower page-aligned offset it
    computes is at most the upper one, their difference is a multiple of the
    page size, so the assertion holds, and the lower offset is at or beyond
    the end of the index node that lies at the start of the payload.  When the
    two offsets are equal the state, and with it the trace of page-provider
    calls, is unchanged; otherwise [kernel_reset] is called on the range,
    whose length is the plain difference of the offsets. *)
Theorem block_dontneed_offsets (st : State) (block : Z) :
  let size_curr := block_get_size_curr (mem st) block in
  let offset := block_get_offset (mem st) block in
  let offset1 := (dontneed_offsets (mem st) block).1 in
  let offset2 := (dontneed_offsets (mem st) block).2 in
  is_size_t offset ->
  size_curr - sizeof_tree_node_type >= ALLOCATOR_PAGE_SIZE ->
  offset + size_curr + BLOCK_STRUCT_SIZE <= SIZE_MAX ->
  (size_sub size_curr sizeof_tree_node_type <? ALLOCATOR_PAGE_SIZE) = false /\
  offset1 <= offset2 /\
  (offset2 - offset1) mod ALLOCATOR_PAGE_SIZE = 0 /\
  (Z.land (size_sub offset2 offset1) (size_sub ALLOCATOR_PAGE_SIZE 1) =? 0) = true /\
  offset + BLOCK_STRUCT_SIZE + sizeof_tree_node_type <= offset1 /\
  offset2 <= offset + size_curr + BLOCK_STRUCT_SIZE /\
  (offset1 = offset2 -> block_dontneed st block = Some st) /\
  (offset1 <> offset2 ->
     block_dontneed st block
     = Some (kernel_reset st (block + (offset1 - offset)) (offset2 - offset1))).
Proof.
  intros size_curr offset offset1 offset2 Hoff Hguard Hend.
  pose proof (size_curr_nonneg (mem st) block) as Hsz0. fold size_curr in Hsz0.
  pose proof (BLOCK_STRUCT_SIZE_bounds Hcfg) as (HH & _).
  pose proof (ok_node _ Hcfg) as Hnode.
  pose proof (PAGE_range Hcfg) as Hpage.
  destruct (ok_page _ Hcfg) as (kp & Hkp & Ep).
  unfold sizeof_Block, sizeof_size_t, is_size_t in *.
  set (x := offset + BLOCK_STRUCT_SIZE + sizeof_tree_node_type).
  set (y := offset + size_curr + BLOCK_STRUCT_SIZE).
  assert (E1 : offset1 = ALLOCATOR_PAGE_SIZE * ((x + ALLOCATOR_PAGE_SIZE - 1) / ALLOCATOR_PAGE_SIZE)).
  { unfold offset1, dontneed_offsets. cbn [fst snd]. fold offset.
    rewrite (size_add_small offset) by lia.
    rewrite (size_add_small (offset + BLOCK_STRUCT_SIZE)) by lia. fold x.
    rewrite (size_sub_small ALLOCATOR_PAGE_SIZE 1) by (unfold SIZE_MAX; lia).
    rewrite Ep. apply round_up_pow2; lia. }
  assert (E2 : offset2 = ALLOCATOR_PAGE_SIZE * (y / ALLOCATOR_PAGE_SIZE)).
  { unfold offset2, dontneed_offsets. cbn [fst snd]. fold offset size_curr.
    rewrite (size_add_small offset) by lia.
    rewrite (size_add_small (offset + size_curr)) by lia. fold y.
    rewrite (size_sub_small ALLOCATOR_PAGE_SIZE 1) by (unfold SIZE_MAX; lia).
    rewrite Ep. apply round_down_pow2; lia. }
  set (q1 := (x + ALLOCATOR_PAGE_SIZE - 1) / ALLOCATOR_PAGE_SIZE) in *.
  set (q2 := y / ALLOCATOR_PAGE_SIZE) in *.
  assert (Hq : q1 <= q2).
  { unfold q1, q2. apply Z.div_le_mono; [lia | unfold x, y; lia]. }
  assert (Hq1 : x <= ALLOCATOR_PAGE_SIZE * q1).
  { assert (Hp0 : 0 < ALLOCATOR_PAGE_SIZE) by lia.
    pose proof (round_up_bounds ALLOCATOR_PAGE_SIZE x Hp0) as (Hb & _).
    fold q1 in Hb. lia. }
  assert (Hq2 : ALLOCATOR_PAGE_SIZE * q2 <= y).
  { unfold q2. apply Z.mul_div_le. lia. }
  assert (Hq0 : 0 <= q1).
  { unfold q1. apply Z.div_pos; unfold x; lia. }
  assert (Hguard' : (size_sub size_curr sizeof_tree_node_type <? ALLOCATOR_PAGE_SIZE) = false).
  { rewrite size_sub_small by lia. apply Z.ltb_ge. lia. }
  assert (Hmod : (offset2 - offset1) mod ALLOCATOR_PAGE_SIZE = 0).
  { rewrite E1, E2. replace (ALLOCATOR_PAGE_SIZE * q2 - ALLOCATOR_PAGE_SIZE * q1)
      with ((q2 - q1) * ALLOCATOR_PAGE_SIZE) by lia.
    apply Z.mod_mul. lia. }
  assert (Hle : offset1 <= offset2) by (rewrite E1, E2; nia).
  assert (Hassert : (Z.land (size_sub offset2 offset1) (size_sub ALLOCATOR_PAGE_SIZE 1) =? 0) = true).
  { rewrite (size_sub_small ALLOCATOR_PAGE_SIZE 1) by (unfold SIZE_MAX; lia).
    rewrite (size_sub_small offset2 offset1) by (rewrite E1, E2 in *; nia).
    apply Z.eqb_eq. rewrite Ep, land_low_mask by lia. rewrite <- Ep. assumption. }
  repeat split; try assumption; try (rewrite ?E1, ?E2; lia).
  - intros Heq. unfold block_dontneed. fold size_curr. rewrite Hguard'.
    destruct (dontneed_offsets (mem st) block) as [o1 o2] eqn:Eo.
    cbn [fst snd] in *. subst offset1 offset2.
    rewrite (proj2 (Z.eqb_eq o1 o2) Heq). reflexivity.
  - intros Hne. unfold block_dontneed. fold size_curr. rewrite Hguard'.
    destruct (dontneed_offsets (mem st) block) as [o1 o2] eqn:Eo.
    cbn [fst snd] in *. subst offset1 offset2.
    rewrite (proj2 (Z.eqb_neq o1 o2) Hne). rewrite Hassert.
    cbn [assert mbind option_bind]. fold offset.
    rewrite (size_sub_small o1 offset) by (rewrite E1 in *; nia).
    rewrite (size_sub_small o2 o1) by (rewrite E1, E2 in *; nia).
    reflexivity.
Qed.

(** C9: a request that is larger than [BLOCK_SIZE_MAX] and larger than
    [SIZE_MAX - (ALIGN - 1)] returns [NULL] and leaves the state as it was:
    nothing is added to the trace, so the page provider is not called. *)
Theorem mem_alloc_overflow (k : Z -> Z) (st : State) (s : Z) :
  BLOCK_SIZE_MAX < s -> SIZE_MAX - (ALIGN - 1) < s ->
  mem_alloc k st s = Some (NULL, st).
Proof.
  intros Hbig Hover. unfold mem_alloc.
  rewrite (proj2 (Z.ltb_lt _ _) Hbig).
  pose proof (ALIGN_range Hcfg).
  rewrite (size_sub_small ALIGN 1) by (unfold SIZE_MAX; lia).
  rewrite size_sub_small by (unfold SIZE_MAX; lia).
  rewrite (proj2 (Z.ltb_lt _ _) Hover). reflexivity.
Qed.

End Dontneed.

(** ** [mem_alloc] returning [NULL] *)

Section AllocNull.
Context {cfg : Config} (Hcfg : config_ok cfg).

Lemma tree_add_block_frame st block st' :
  tree_add_block st block = Some st' ->
  mem st' = mem st /\ mapped st' = mapped st /\ trace st' = trace st.
Proof.
  unfold tree_add_block. destruct (negb _); cbn; [| discriminate].
  intros [= <-]. repeat split.
Qed.

Lemma mem_alloc_split_result st block aligned_size p st' :
  mem_alloc_split st block aligned_size = Some (p, st') -> p = block_to_payload block.
Proof.
  unfold mem_alloc_split. destruct (block_split _ _ _) as [block_r m].
  destruct (negb (block_r =? NULL)).
  - destruct (tree_add_block _ _); cbn; [| discriminate]. intros [= <- _]. reflexivity.
  - cbn. intros [= <- _]. reflexivity.
Qed.

Lemma arena_alloc_result (k : Z -> Z) st size block st' :
  arena_alloc k st size = (block, st') ->
  (block = k size \/ block = k ARENA_SIZE) /\
  (block = NULL ->
     mem st' = mem st /\ blocks_tree st' = blocks_tree st /\ mapped st' = mapped st).
Proof.
  unfold arena_alloc, kernel_alloc.
  destruct (BLOCK_SIZE_MAX <? size).
  - destruct (Z.eqb_spec (k size) NULL) as [E|E]; cbn [negb]; intros [= <- <-].
    + split; [left; reflexivity |]. intros _. repeat split.
    + split; [left; reflexivity |]. intros F. contradiction.
  - destruct (Z.eqb_spec (k ARENA_SIZE) NULL) as [E|E]; cbn [negb]; intros [= <- <-].
    + split; [right; reflexivity |]. intros _. repeat split.
    + split; [right; reflexivity |]. intros F. contradiction.
Qed.

(** When [mem_alloc] returns [NULL] the memory, the index and the mappings
    are as before. *)
Lemma mem_alloc_null (k : Z -> Z) (st : State) (s : Z) (st' : State) :
  (forall n, 0 <= k n) ->
  mem_alloc k st s = Some (NULL, st') ->
  mem st' = mem st /\ blocks_tree st' = blocks_tree st /\ mapped st' = mapped st.
Proof.
  intros Hk. unfold mem_alloc.
  pose proof (BLOCK_STRUCT_SIZE_bounds Hcfg) as (HH & _).
  unfold sizeof_Block, sizeof_size_t in HH.
  destruct (BLOCK_SIZE_MAX <? s).
  - destruct (_ <? s).
    + intros [= <-]. repeat split.
    + destruct (arena_alloc _ _ _) as [block st1] eqn:Ea.
      apply arena_alloc_result in Ea as ([E|E] & _);
        intros [= Hp _]; unfold block_to_payload, NULL in Hp;
        [pose proof (Hk (size_add
           (size_mul (ROUND_BYTES s / ALLOCATOR_PAGE_SIZE) ALLOCATOR_PAGE_SIZE)
           BLOCK_STRUCT_SIZE)) | pose proof (Hk ARENA_SIZE)]; lia.
  - set (aligned_size := ROUND_BYTES _).
    destruct (Z.eqb_spec (tree_find_best (blocks_tree st) aligned_size) NULL) as [En|En].
    + destruct (arena_alloc _ _ _) as [block st1] eqn:Ea.
      apply arena_alloc_result in Ea as (Hb & Hnull).
      destruct (Z.eqb_spec block NULL) as [Eb|Eb].
      * intros [= <-]. apply Hnull. assumption.
      * intros Hs. apply mem_alloc_split_result in Hs.
        unfold block_to_payload, NULL in *.
        destruct Hb as [E|E]; [pose proof (Hk aligned_size) | pose proof (Hk ARENA_SIZE)]; lia.
    + intros Hs. apply mem_alloc_split_result in Hs.
      unfold block_to_payload, node_to_block, payload_to_block in Hs. lia.
Qed.

(** The move path of [mem_realloc] when [mem_alloc] returns [NULL]: the
    result is [NULL], nothing is copied or freed. *)
Lemma realloc_move_null (k : Z -> Z) (st : State) (ptr1 size size_curr : Z) (st2 : State) :
  (forall n, 0 <= k n) ->
  mem_alloc k st size = Some (NULL, st2) ->
  realloc_move k st ptr1 size size_curr = Some (NULL, st2) /\
  mem st2 = mem st /\ blocks_tree st2 = blocks_tree st /\ mapped st2 = mapped st.
Proof.
  intros Hk Hnull. split.
  - unfold realloc_move. rewrite Hnull. reflexivity.
  - apply (mem_alloc_null k st size st2 Hk Hnull).
Qed.

(** The move path when [mem_alloc] returns a block: the smaller of the two
    sizes is copied, then the old pointer is freed, and the new pointer is
    the result. *)
Lemma realloc_move_copies (k : Z -> Z) (st : State) (ptr1 size size_curr ptr2 : Z)
      (st2 : State) :
  mem_alloc k st size = Some (ptr2, st2) ->
  ptr2 <> NULL ->
  realloc_move k st ptr1 size size_curr
  = st3 ← mem_free (mkState (memcpy (mem st2) ptr2 ptr1 (Z.min size_curr size))
                            (blocks_tree st2) (mapped st2)
                            (trace st2 ++ [EMemcpy ptr2 ptr1 (Z.min size_curr size)])) ptr1;
    Some (ptr2, st3).
Proof.
  intros Halloc Hnn. unfold realloc_move. rewrite Halloc. cbn [mbind option_bind].
  rewrite (proj2 (Z.eqb_neq ptr2 NULL) Hnn). cbn [negb].
  replace (if size_curr <? size then size_curr else size) with (Z.min size_curr size);
    [reflexivity |].
  destruct (Z.ltb_spec size_curr size); lia.
Qed.

End AllocNull.

(** ** Shrinking with [mem_realloc] *)

Section Realloc.
Context {cfg : Config} (Hcfg : config_ok cfg).

Lemma with_mem_same st : with_mem st (mem st) = st.
Proof. destruct st. reflexivity. Qed.

Lemma store_same (m : Memory) a : load m a <> 0 -> store m a (load m a) = m.
Proof.
  unfold load, store. intros H.
  destruct (m !! a) as [v|] eqn:E; cbn in *; [| congruence].
  apply insert_id. assumption.
Qed.

(** Marking a busy block busy writes back the word that is there. *)
Lemma set_busy_busy (m : Memory) block :
  is_size_t (load m (size_curr_of block)) ->
  block_get_flag_busy m block = true ->
  block_set_flag_busy m block = m.
Proof.
  intros Hw Hb.
  destruct (size_word_exists _ Hw) as (sz & b & l & Hword).
  unfold block_get_flag_busy in Hb.
  rewrite (word_busy _ _ _ _ Hword) in Hb. subst b.
  unfold block_set_flag_busy.
  pose proof (word_set_busy _ _ _ _ Hword) as (E & _).
  destruct Hword as (Ew & H0 & _).
  rewrite E, <- Ew. apply store_same. rewrite Ew.
  unfold flags_of. destruct l; lia.
Qed.

(** C3, as amended: for a busy block that is not oversized and a normalised
    request [s] smaller than its size, when the block is last in its arena or
    [block_split] finds too little space for a new block, [mem_realloc] does
    what the label [move_large_block] does: it returns the result of
    [mem_alloc(s)]; when that is not [NULL], [s] bytes are copied to it and
    the old pointer is freed, and when it is [NULL] nothing else is done: the
    memory, and so the block, the index and the mappings are as before. *)
Theorem mem_realloc_shrink_moves (k : Z -> Z) (st : State) (ptr1 s : Z) :
  let block1 := payload_to_block ptr1 in
  let c := block_get_size_curr (mem st) block1 in
  0 < block1 -> ptr1 <> NULL ->
  is_size_t (load (mem st) (size_curr_of block1)) ->
  block_get_flag_busy (mem st) block1 = true ->
  c <= BLOCK_SIZE_MAX ->
  BLOCK_SIZE_MIN <= s -> s mod ALIGN = 0 ->
  s < c ->
  block_get_flag_last (mem st) block1 = true
  \/ (block_split (mem st) block1 s).1 = NULL ->
  mem_realloc k st ptr1 s
  = ('(ptr2, st2) ← mem_alloc k st s;
     if negb (ptr2 =? NULL) then
       st3 ← mem_free (mkState (memcpy (mem st2) ptr2 ptr1 s) (blocks_tree st2)
                               (mapped st2) (trace st2 ++ [EMemcpy ptr2 ptr1 s])) ptr1;
       Some (ptr2, st3)
     else Some (ptr2, st2))
  /\ (forall st2,
        (forall n, 0 <= k n) ->
        mem_alloc k st s = Some (NULL, st2) ->
        mem_realloc k st ptr1 s = Some (NULL, st2) /\
        mem st2 = mem st /\ blocks_tree st2 = blocks_tree st /\ mapped st2 = mapped st).
Proof.
  intros block1 c Hpos Hnn Hw Hbusy Hmax Hmin Hal Hlt Hcase.
  match goal with |- ?A /\ _ => assert (Heq : A) end; [|
    split; [exact Heq |];
    intros st2 Hk Hnull; split; [rewrite Heq, Hnull; reflexivity |];
    apply (mem_alloc_null Hcfg k st s st2 Hk Hnull)].
  pose proof (BLOCK_SIZE_MIN_bounds Hcfg) as (HM & _).
  pose proof (BLOCK_STRUCT_SIZE_bounds Hcfg) as (HH & _).
  pose proof (ok_node _ Hcfg) as Hnode.
  pose proof (BLOCK_SIZE_MAX_eq Hcfg) as EM.
  pose proof (ARENA_SIZE_range Hcfg) as HA.
  unfold sizeof_Block, sizeof_size_t in HH.
  assert (Hmove : realloc_move k st ptr1 s c
    = '(ptr2, st2) ← mem_alloc k st s;
      if negb (ptr2 =? NULL) then
        st3 ← mem_free (mkState (memcpy (mem st2) ptr2 ptr1 s) (blocks_tree st2)
                                (mapped st2) (trace st2 ++ [EMemcpy ptr2 ptr1 s])) ptr1;
        Some (ptr2, st3)
      else Some (ptr2, st2)).
  { unfold realloc_move. rewrite (proj2 (Z.ltb_ge c s)) by lia. reflexivity. }
  assert (Hgrow : realloc_grow k st ptr1 block1 s c = realloc_move k st ptr1 s c).
  { unfold realloc_grow. rewrite (proj2 (Z.ltb_ge c s)) by lia. reflexivity. }
  rewrite <- Hmove, <- Hgrow.
  unfold mem_realloc.
  rewrite (proj2 (Z.ltb_ge s BLOCK_SIZE_MIN)) by lia.
  rewrite (ROUND_BYTES_aligned Hcfg) by (try assumption; unfold SIZE_MAX; lia).
  rewrite (proj2 (Z.eqb_neq ptr1 NULL)) by assumption.
  fold block1. fold c.
  rewrite (proj2 (Z.ltb_ge BLOCK_SIZE_MAX c)) by lia.
  rewrite (proj2 (Z.eqb_neq s c)) by lia.
  rewrite (proj2 (Z.ltb_lt s c)) by lia.
  destruct (block_get_flag_last (mem st) block1) eqn:Elast; [reflexivity |].
  destruct Hcase as [Hcase | Hnull]; [discriminate |].
  cbn [andb negb].
  unfold block_split in *.
  rewrite (set_busy_busy (mem st) block1 Hw Hbusy) in *.
  destruct (size_add BLOCK_STRUCT_SIZE BLOCK_SIZE_MIN
            <=? size_sub (block_get_size_curr (mem st) block1) s).
  - exfalso. cbn [fst] in Hnull. unfold block_next in Hnull.
    pose proof (size_curr_nonneg (block_set_size_curr (mem st) block1 s) block1).
    unfold NULL in Hnull. lia.
  - rewrite with_mem_same. reflexivity.
Qed.

End Realloc.

(** ** [mem_alloc] when the page provider has no memory *)

Section OutOfMemory.
Context {cfg : Config} (Hcfg : config_ok cfg).

(** C1: an oversized request that passes the overflow guard, when the
    page provider answers [NULL]: the allocator state is unchanged, but the
    result is [block_to_payload(NULL)], the address [BLOCK_STRUCT_SIZE], and
    not [NULL]. *)
Theorem mem_alloc_oversized_no_memory (k : Z -> Z) (st : State) (s : Z) :
  BLOCK_SIZE_MAX < s -> s <= SIZE_MAX - (ALIGN - 1) ->
  (forall n, k n = NULL) ->
  exists st',
    mem_alloc k st s = Some (BLOCK_STRUCT_SIZE, st') /\
    BLOCK_STRUCT_SIZE <> NULL /\
    mem st' = mem st /\ blocks_tree st' = blocks_tree st /\ mapped st' = mapped st.
Proof.
  intros Hbig Hfit Hk. unfold mem_alloc.
  rewrite (proj2 (Z.ltb_lt _ _) Hbig).
  pose proof (ALIGN_range Hcfg).
  pose proof (BLOCK_STRUCT_SIZE_bounds Hcfg) as (HH & _).
  unfold sizeof_Block, sizeof_size_t in HH.
  rewrite (size_sub_small ALIGN 1) by (unfold SIZE_MAX; lia).
  rewrite size_sub_small by (unfold SIZE_MAX; lia).
  rewrite (proj2 (Z.ltb_ge _ _)) by lia.
  unfold arena_alloc, kernel_alloc. rewrite !Hk.
  change (NULL =? NULL) with true. cbn [negb].
  destruct (BLOCK_SIZE_MAX <? _); eexists;
    (split; [reflexivity | split; [unfold NULL; lia | repeat split]]).
Qed.

End OutOfMemory.

(** ** The calls that [mem_realloc] and [block_dontneed] make *)

Section Calls.
Context {cfg : Config}.

(** [realloc_move_call] is the label [move_large_block] up to the copy:
    what follows is the copy, [mem_free] and the return. *)
Lemma realloc_move_from_call (k : Z -> Z) (st : State) (ptr1 size size_curr : Z) :
  realloc_move k st ptr1 size size_curr
  = '(ptr2, st2, call) ← realloc_move_call k st ptr1 size size_curr;
    match call with
    | Some (dst, src, n) =>
        st3 ← mem_free (mkState (memcpy (mem st2) dst src n) (blocks_tree st2) (mapped st2)
                                (trace st2 ++ [EMemcpy dst src n])) ptr1;
        Some (ptr2, st3)
    | None => Some (ptr2, st2)
    end.
Proof.
  unfold realloc_move, realloc_move_call.
  destruct (mem_alloc k st size) as [[ptr2 st2] |]; cbn [mbind option_bind]; [| reflexivity].
  destruct (negb (ptr2 =? NULL)); reflexivity.
Qed.

(** [block_dontneed_call] is [block_dontneed] up to the call of
    [kernel_reset]. *)
Lemma block_dontneed_from_call (st : State) (block : Z) :
  block_dontneed st block
  = call ← block_dontneed_call (mem st) block;
    Some (match call with
          | Some (ptr, size) => kernel_reset st ptr size
          | None => st
          end).
Proof.
  unfold block_dontneed, block_dontneed_call.
  destruct (_ <? ALLOCATOR_PAGE_SIZE); [reflexivity |].
  destruct (dontneed_offsets (mem st) block) as [offset1 offset2].
  destruct (offset1 =? offset2); [reflexivity |].
  destruct (assert _); reflexivity.
Qed.

(** A request larger than the block, on a block that is not oversized and
    that is last, or has a busy right neighbour, or a free one that is too
    small: [mem_realloc] goes to [move_large_block]. *)
Lemma mem_realloc_grow_moves (k : Z -> Z) (st : State) (ptr1 s : Z) :
  let size := ROUND_BYTES (if s <? BLOCK_SIZE_MIN then BLOCK_SIZE_MIN else s) in
  let block1 := payload_to_block ptr1 in
  let size_curr := block_get_size_curr (mem st) block1 in
  let block_r := block_next (mem st) block1 in
  ptr1 <> NULL -> size_curr <= BLOCK_SIZE_MAX -> size_curr < size ->
  block_get_flag_last (mem st) block1 = true \/
  block_get_flag_busy (mem st) block_r = true \/
  size_add (size_add size_curr (block_get_size_curr (mem st) block_r)) BLOCK_STRUCT_SIZE
  < size ->
  mem_realloc k st ptr1 s = realloc_move k st ptr1 size size_curr.
Proof.
  intros size block1 size_curr block_r Hptr Hmax Hlt Hcase.
  unfold mem_realloc. fold size.
  rewrite (proj2 (Z.eqb_neq ptr1 NULL) Hptr). fold block1 size_curr.
  rewrite (proj2 (Z.ltb_ge BLOCK_SIZE_MAX size_curr)) by lia.
  rewrite (proj2 (Z.eqb_neq size size_curr)) by lia.
  rewrite (proj2 (Z.ltb_ge size size_curr)) by lia.
  cbn [andb]. unfold realloc_grow. fold block_r.
  rewrite (proj2 (Z.ltb_lt size_curr size)) by lia. cbn [andb].
  destruct (block_get_flag_last (mem st) block1); cbn [negb]; [reflexivity |].
  destruct (block_get_flag_busy (mem st) block_r); cbn [negb]; [reflexivity |].
  destruct Hcase as [Hl | [Hb | Ht]]; [discriminate | discriminate |].
  rewrite (proj2 (Z.leb_gt _ _)) by lia. reflexivity.
Qed.

End Calls.

(** ** The scenario runs evaluated *)

Section ScenarioFacts.
Import Scenario.
#[local] Existing Instance scenario.

(** C2: [mem_alloc(100000)] asks the page provider for 98336 bytes, 24
    pages and a header, where 100000 rounded up to pages plus a header is
    102432 (and 100000 plus a header rounded up to pages is 102400).  The
    block it initialises has a size of 98304, less than the request, and its
    busy flag is clear. *)
Lemma big_alloc_rounds_down :
  observe big_alloc (fun p st =>
    (p, trace st, block_get_size_curr (mem st) (payload_to_block p),
     block_get_flag_busy (mem st) (payload_to_block p)))
  = Some (base_P + 32, [EKernelAlloc 98336 base_P], 98304, false)
  /\ round_up_page 100000 + BLOCK_STRUCT_SIZE = 102432
  /\ round_up_page (100000 + BLOCK_STRUCT_SIZE) = 102400.
Proof. split; [| split]; vm_compute; reflexivity. Qed.

(** C5: after [mem_alloc(65505)] on the initial state, the block at the
    base of the only arena is the block handed to the caller; its busy flag
    is clear and its size is at most [BLOCK_SIZE_MAX], and it is not in the
    index. *)
Lemma edge_alloc_not_indexed :
  observe edge_alloc (fun p st =>
    (payload_to_block p, mapped st, arena_blocks st (base_A, 65536),
     block_get_flag_busy (mem st) base_A,
     block_get_size_curr (mem st) base_A <=? BLOCK_SIZE_MAX,
     in_index st base_A, index_exact st))
  = Some (base_A, [(base_A, 65536)], [base_A], false, true, false, false).
Proof. vm_compute. reflexivity. Qed.

(** C3: the block of [q] is busy, last in its arena, not oversized
    (65408) and the normalised request 64 is smaller; [mem_realloc(q, 64)]
    returns another pointer and the block of [q] is freed and indexed. *)
Lemma shrink_last_moves :
  observe last_block_state (fun q st =>
    (q, block_get_flag_busy (mem st) (payload_to_block q),
     block_get_flag_last (mem st) (payload_to_block q),
     block_get_size_curr (mem st) (payload_to_block q),
     BLOCK_SIZE_MAX, ROUND_BYTES 64))
  = Some (4198528, true, true, 65408, 65504, 64)
  /\ observe shrink_last (fun p st =>
       (p, block_get_flag_busy (mem st) (payload_to_block 4198528),
        in_index st (payload_to_block 4198528)))
     = Some (4096032, false, true).
Proof. split; vm_compute; reflexivity. Qed.

(** The same when the block is not last and [block_split] returns [NULL]. *)
Lemma shrink_tight_moves :
  observe tight_block_state (fun a st =>
    (a, block_get_flag_busy (mem st) (payload_to_block a),
     block_get_flag_last (mem st) (payload_to_block a),
     block_get_size_curr (mem st) (payload_to_block a),
     (block_split (mem st) (payload_to_block a) 64).1))
  = Some (4198528, true, false, 128, NULL)
  /\ observe shrink_tight (fun p st =>
       (p, block_get_flag_busy (mem st) (payload_to_block 4198528)))
     = Some (4198784, false).
Proof. split; vm_compute; reflexivity. Qed.

(** C8: [p] is a live block of 64 bytes and the page provider has no memory
    left.  [mem_realloc(p, 100000)] goes to [move_large_block]; there
    [mem_alloc(100000)] calls the page provider, which answers [NULL], and
    returns the address 32, which is [BLOCK_STRUCT_SIZE] and not [NULL],
    leaving memory, index and mappings as they were.  The test against
    [NULL] passes, so [mem_realloc] does not return [NULL]: it calls
    [memcpy(32, p, 64)], and not even the first byte of that destination
    lies in a mapping. *)
Lemma grow_no_memory_reaches_memcpy :
  small_block_state = Some small_block
  /\ (small_block.1,
      block_get_flag_busy (mem small_block.2) (payload_to_block small_block.1),
      block_get_size_curr (mem small_block.2) (payload_to_block small_block.1),
      mapped small_block.2)
     = (4198432, true, 64, [(base_A, 65536)])
  /\ mem_realloc no_memory small_block.2 small_block.1 100000
     = realloc_move no_memory small_block.2 small_block.1 100000 64
  /\ realloc_move_call no_memory small_block.2 small_block.1 100000 64
     = Some (32,
             mkState (mem small_block.2) (blocks_tree small_block.2) (mapped small_block.2)
                     (trace small_block.2 ++ [EKernelAlloc 98336 NULL]),
             Some (32, 4198432, 64))
  /\ (BLOCK_STRUCT_SIZE, 32 =? NULL) = (32, false)
  /\ range_mapped (mapped small_block.2) 32 1 = false.
Proof.
  split; [vm_compute; reflexivity |]. split; [vm_compute; reflexivity |]. split.
  { pose proof (mem_realloc_grow_moves no_memory small_block.2 small_block.1 100000) as H.
    cbv zeta in H.
    replace (ROUND_BYTES (if 100000 <? BLOCK_SIZE_MIN then BLOCK_SIZE_MIN else 100000))
      with 100000 in H by (vm_compute; reflexivity).
    replace (block_get_size_curr (mem small_block.2) (payload_to_block small_block.1))
      with 64 in H by (vm_compute; reflexivity).
    apply H.
    - vm_compute. discriminate.
    - vm_compute. discriminate.
    - vm_compute. reflexivity.
    - right. right. vm_compute. reflexivity. }
  split; [| split]; vm_compute; reflexivity.
Qed.

(** C10: [a] is a pointer whose block [mem_realloc(a, SIZE_MAX)] has cut
    down to size 0; the block is busy, first in its arena, and its right
    neighbour is busy.  [mem_free(a)] clears the busy flag and calls
    [block_dontneed] on the block.  The size of the free block minus the
    size of an index node is negative, yet the [size_t] test of the guard
    does not return: the subtraction wraps.  The lower offset computed is
    4096 and the upper one 0, the assertion on their difference holds, and
    [kernel_reset] is called one page behind the block with a length of
    [2^64 - 4096], a range that lies in no mapping. *)
Lemma block_dontneed_guard_wraps :
  empty_block_state = Some empty_block
  /\ (empty_block.1, payload_to_block empty_block.1, mapped empty_block.2,
      arena_blocks empty_block.2 (base_A, 65536))
     = (base_A + 32, base_A, [(base_A, 65536)], [base_A; base_A + 32; base_A + 128])
  /\ (block_get_flag_busy (mem empty_block.2) base_A,
      block_get_size_curr (mem empty_block.2) base_A,
      block_get_flag_first (mem empty_block.2) base_A,
      block_get_flag_last (mem empty_block.2) base_A,
      block_get_offset (mem empty_block.2) base_A,
      block_next (mem empty_block.2) base_A,
      block_get_flag_busy (mem empty_block.2) (base_A + 32))
     = (true, 0, true, false, 0, base_A + 32, true)
  /\ mem_free empty_block.2 empty_block.1
     = (st ← block_dontneed empty_block_cleared base_A; tree_add_block st base_A)
  /\ (block_get_flag_busy (mem empty_block_cleared) base_A,
      block_get_size_curr (mem empty_block_cleared) base_A,
      block_get_size_curr (mem empty_block_cleared) base_A - sizeof_tree_node_type
      <? ALLOCATOR_PAGE_SIZE,
      size_sub (block_get_size_curr (mem empty_block_cleared) base_A) sizeof_tree_node_type
      <? ALLOCATOR_PAGE_SIZE)
     = (false, 0, true, false)
  /\ dontneed_offsets (mem empty_block_cleared) base_A = (4096, 0)
  /\ (Z.land (size_sub 0 4096) (size_sub ALLOCATOR_PAGE_SIZE 1) =? 0) = true
  /\ block_dontneed_call (mem empty_block_cleared) base_A
     = Some (Some (base_A + 4096, 2^64 - 4096))
  /\ range_mapped (mapped empty_block_cleared) (base_A + 4096) (2^64 - 4096) = false.
Proof.
  split; [| split; [| split; [| split; [| split; [| split; [| split; [| split]]]]]]];
    vm_compute; reflexivity.
Qed.

(** C4: three answers a page provider may give, and a state reached by two
    calls of [mem_alloc] in which no two neighbours are free.
    [mem_realloc(p1, 102384)] gets a block of 98304 bytes in a mapping of 25
    pages and copies 102384 bytes into it, all read from the mapping of [p1];
    the copy fills the rest of the 25 pages and ends 16 bytes into the next
    page, where the arena of [p2] begins, and overwrites the [size_curr] of
    its first block with the word 64 of the caller.  When [mem_realloc]
    returns, that block and its right neighbour are both free. *)
Lemma realloc_copy_overruns_mapping :
  provider_ok [] base_P 106528 = true
  /\ provider_ok [(base_P, 106528)] base_A 65536 = true
  /\ provider_ok [(base_A, 65536); (base_P, 106528)] base_N 98336 = true
  /\ observe overflow_before (fun p1 st =>
       (p1, mapped st, map (arena_blocks st) (mapped st),
        block_get_flag_busy (mem st) base_A, no_adjacent_free st))
     = Some (base_P + 32, [(base_A, 65536); (base_P, 106528)],
             [[base_A; base_A + 96]; [base_P]], true, true)
  /\ observe overflow_after (fun p st =>
       (p, trace st, mapped st, map (arena_blocks st) (mapped st),
        block_get_flag_busy (mem st) base_A,
        block_get_flag_busy (mem st) (base_A + 96), no_adjacent_free st))
     = Some (base_N + 32,
             [EKernelAlloc 106528 base_P; EKernelAlloc 65536 base_A;
              EKernelAlloc 98336 base_N; EMemcpy (base_N + 32) (base_P + 32) 102384;
              EKernelFree base_P 106528],
             [(base_N, 98336); (base_A, 65536)],
             [[base_N]; [base_A; base_A + 96]], false, false, false)
  /\ range_mapped [(base_P, 106528)] (base_P + 32) 102384 = true
  /\ range_mapped [(base_N, 98336)] (base_N + 32) (102400 - 32) = true
  /\ base_N + 32 + (102400 - 32) = base_A
  /\ range_mapped [(base_A, 65536)] base_A 16 = true.
Proof.
  split; [| split; [| split; [| split; [| split; [| split; [| split; [| split]]]]]]];
    vm_compute; reflexivity.
Qed.

End ScenarioFacts.

(** ** The accessors of [block.h] *)

Section Accessors.

(** The three accessors of [size_curr] on a word that holds a size and two
    flags. *)
Lemma block_fields_of_word (m : Memory) (block sz : Z) (b l : bool) :
  size_word (load m (size_curr_of block)) sz b l ->
  block_get_size_curr m block = sz /\
  block_get_flag_busy m block = b /\
  block_get_flag_last m block = l.
Proof.
  intros Hw. unfold block_get_size_curr, block_get_flag_busy, block_get_flag_last.
  rewrite (word_size _ _ _ _ Hw), (word_busy _ _ _ _ Hw), (word_last _ _ _ _ Hw).
  repeat split.
Qed.

Lemma block_word_of_fields (m : Memory) (block : Z) :
  is_size_t (load m (size_curr_of block)) ->
  size_word (load m (size_curr_of block)) (block_get_size_curr m block)
            (block_get_flag_busy m block) (block_get_flag_last m block).
Proof.
  intros Hw. destruct (size_word_exists _ Hw) as (sz & b & l & Hword).
  destruct (block_fields_of_word m block sz b l Hword) as (-> & -> & ->). exact Hword.
Qed.

(** X1: [block_set_size_curr] followed by [block_get_size_curr] gives the
    size back, for a size that is a multiple of 4 and leaves room for the
    two flag bits: the busy and last flags, [size_prev] and [offset] of the
    block are as they were. *)
Theorem block_size_curr_round_trip (m : Memory) (block size : Z) :
  is_size_t (load m (size_curr_of block)) ->
  0 <= size -> size mod 4 = 0 -> size + 3 <= SIZE_MAX ->
  let m' := block_set_size_curr m block size in
  block_get_size_curr m' block = size /\
  block_get_flag_busy m' block = block_get_flag_busy m block /\
  block_get_flag_last m' block = block_get_flag_last m block /\
  block_get_size_prev m' block = block_get_size_prev m block /\
  block_get_offset m' block = block_get_offset m block.
Proof.
  intros Hw H0 H4 Hmax m'.
  pose proof (block_word_of_fields m block Hw) as Hword.
  assert (W : size_word (load m' (size_curr_of block)) size
                (block_get_flag_busy m block) (block_get_flag_last m block)).
  { unfold m', block_set_size_curr. rewrite load_store_eq.
    apply (word_set_size _ _ _ _ _ Hword); assumption. }
  destruct (block_fields_of_word _ _ _ _ _ W) as (-> & -> & ->).
  unfold block_get_size_prev, block_get_offset, m', block_set_size_curr,
    size_curr_of, size_prev_of, offset_of, sizeof_size_t.
  mem_simpl. repeat split.
Qed.

(** X2: the busy flag, the last flag and the size share the word
    [size_curr] without disturbing one another: after each of
    [block_set_flag_busy], [block_clr_flag_busy], [block_set_flag_last],
    [block_clr_flag_last] the flag in question reads as set or cleared and the
    other flag and the size read as before; [block_init] clears both flags
    and keeps the size. *)
Theorem block_flags_independent (m : Memory) (block : Z) :
  is_size_t (load m (size_curr_of block)) ->
  let size := block_get_size_curr m block in
  let busy := block_get_flag_busy m block in
  let last := block_get_flag_last m block in
  (block_get_flag_busy (block_set_flag_busy m block) block = true /\
   block_get_flag_last (block_set_flag_busy m block) block = last /\
   block_get_size_curr (block_set_flag_busy m block) block = size) /\
  (block_get_flag_busy (block_clr_flag_busy m block) block = false /\
   block_get_flag_last (block_clr_flag_busy m block) block = last /\
   block_get_size_curr (block_clr_flag_busy m block) block = size) /\
  (block_get_flag_last (block_set_flag_last m block) block = true /\
   block_get_flag_busy (block_set_flag_last m block) block = busy /\
   block_get_size_curr (block_set_flag_last m block) block = size) /\
  (block_get_flag_last (block_clr_flag_last m block) block = false /\
   block_get_flag_busy (block_clr_flag_last m block) block = busy /\
   block_get_size_curr (block_clr_flag_last m block) block = size) /\
  (block_get_flag_busy (block_init m block) block = false /\
   block_get_flag_last (block_init m block) block = false /\
   block_get_size_curr (block_init m block) block = size).
Proof.
  intros Hw size busy last.
  pose proof (block_word_of_fields m block Hw) as Hword.
  fold size busy last in Hword.
  assert (Wsb := word_set_busy _ _ _ _ Hword).
  assert (Wcb := word_clr_busy _ _ _ _ Hword).
  assert (Wsl := word_set_last _ _ _ _ Hword).
  assert (Wcl := word_clr_last _ _ _ _ Hword).
  assert (Wi := word_clr_last _ _ _ _ Wcb).
  repeat split.
  all: first
    [ apply (block_fields_of_word (block_set_flag_busy m block) block size true last);
      unfold block_set_flag_busy; rewrite load_store_eq; exact Wsb
    | apply (block_fields_of_word (block_clr_flag_busy m block) block size false last);
      unfold block_clr_flag_busy; rewrite load_store_eq; exact Wcb
    | apply (block_fields_of_word (block_set_flag_last m block) block size busy true);
      unfold block_set_flag_last; rewrite load_store_eq; exact Wsl
    | apply (block_fields_of_word (block_clr_flag_last m block) block size busy false);
      unfold block_clr_flag_last; rewrite load_store_eq; exact Wcl
    | apply (block_fields_of_word (block_init m block) block size false false);
      unfold block_init, block_clr_flag_last, block_clr_flag_busy;
      rewrite !load_store_eq; exact Wi ].
Qed.

(** X3: [arena_init] makes one block that spans the arena: it has the given
    size, is free, is the last and the first block, and its [size_prev] and
    [offset] are zero. *)
Theorem arena_init_block (m : Memory) (block size : Z) :
  0 <= size -> size mod 4 = 0 -> size + 3 <= SIZE_MAX ->
  let m' := arena_init m block size in
  block_get_size_curr m' block = size /\
  block_get_flag_busy m' block = false /\
  block_get_flag_last m' block = true /\
  block_get_flag_first m' block = true /\
  block_get_size_prev m' block = 0 /\
  block_get_offset m' block = 0.
Proof.
  intros H0 H4 Hmax m'.
  assert (W : size_word (load m' (size_curr_of block)) size false true).
  { unfold m', arena_init, block_set_flag_last, size_curr_of, size_prev_of, offset_of,
      sizeof_size_t.
    mem_simpl. apply word_set_last with (l := false).
    repeat split; try assumption. unfold flags_of. lia. }
  destruct (block_fields_of_word _ _ _ _ _ W) as (-> & -> & ->).
  unfold block_get_flag_first, block_get_size_prev, block_get_offset, m', arena_init,
    block_set_flag_last, size_curr_of, size_prev_of, offset_of, sizeof_size_t.
  mem_simpl. repeat split.
Qed.

End Accessors.

(** ** The memory after [block_split] and [block_merge] *)

Section SplitMerge.
Context {cfg : Config} (Hcfg : config_ok cfg).

Lemma sum_mod_4 a b : a mod 4 = 0 -> b mod 4 = 0 -> (a + b) mod 4 = 0.
Proof.
  intros Ha Hb. rewrite <- Zplus_mod_idemp_r, Hb, Z.add_0_r. assumption.
Qed.

Lemma diff_mod_4 a b : a mod 4 = 0 -> b mod 4 = 0 -> (a - b) mod 4 = 0.
Proof.
  intros Ha Hb. rewrite <- Zminus_mod_idemp_r, Hb, Z.sub_0_r. assumption.
Qed.

(** When the space left is too small, [block_split] only marks the block. *)
Lemma block_split_none (m : Memory) (block s c : Z) (b l : bool) :
  size_word (load m (size_curr_of block)) c b l ->
  0 <= s <= c -> c - s < BLOCK_STRUCT_SIZE + BLOCK_SIZE_MIN ->
  block_split m block s = (NULL, block_set_flag_busy m block).
Proof.
  intros Hw Hs Hsmall.
  pose proof (sizes_fit Hcfg) as (HH & HH4 & HM & HM4).
  pose proof (word_set_busy _ _ _ _ Hw) as Hw1.
  unfold block_split.
  assert (S1 : block_get_size_curr (block_set_flag_busy m block) block = c).
  { apply (block_fields_of_word _ _ c true l). unfold block_set_flag_busy.
    rewrite load_store_eq. exact Hw1. }
  rewrite S1. destruct Hw as (_ & H0 & _ & Hmax).
  rewrite (size_sub_small c s) by (unfold SIZE_MAX in *; lia).
  rewrite (size_add_small BLOCK_STRUCT_SIZE BLOCK_SIZE_MIN) by (unfold SIZE_MAX; lia).
  rewrite (proj2 (Z.leb_gt _ _)) by lia. reflexivity.
Qed.

(** The words of memory after a [block_split] that makes a new block. *)
Lemma block_split_mem (m : Memory) (block s c : Z) (b l : bool) :
  size_word (load m (size_curr_of block)) c b l ->
  s mod 4 = 0 -> 0 <= s <= c ->
  BLOCK_STRUCT_SIZE + BLOCK_SIZE_MIN <= c - s ->
  let block_r := block + BLOCK_STRUCT_SIZE + s in
  let rest := c - s - BLOCK_STRUCT_SIZE in
  exists m',
    block_split m block s = (block_r, m') /\
    load m' block = s + flags_of true false /\
    load m' block_r = rest + flags_of false l /\
    load m' (block_r + 8) = s /\
    load m' (block_r + 16)
    = size_add (size_add (load m (block + 16)) s) BLOCK_STRUCT_SIZE /\
    (l = false -> load m' (block_r + BLOCK_STRUCT_SIZE + rest + 8) = rest) /\
    (forall a, a <> block -> a <> block_r -> a <> block_r + 8 -> a <> block_r + 16 ->
               (l = false -> a <> block_r + BLOCK_STRUCT_SIZE + rest + 8) ->
               load m' a = load m a).
Proof.
  intros Hword Hs4 Hsc Hfit block_r rest.
  pose proof (sizes_fit Hcfg) as (HH & HH4 & HM & HM4).
  pose proof (word_set_busy _ _ _ _ Hword) as Hword1.
  destruct Hword as (Ew & Hsz0 & Hsz4 & Hszmax).
  unfold size_curr_of in *.
  unfold block_split.
  set (m1 := block_set_flag_busy m block).
  assert (L1 : load m1 block = c + flags_of true l).
  { unfold m1, block_set_flag_busy, size_curr_of. mem_simpl. apply Hword1. }
  assert (F1 : forall a, a <> block -> load m1 a = load m a).
  { intros a Ha. unfold m1, block_set_flag_busy, size_curr_of. mem_simpl. reflexivity. }
  assert (S1 : block_get_size_curr m1 block = c).
  { apply (block_fields_of_word _ _ c true l). unfold size_curr_of. rewrite L1.
    repeat split; assumption. }
  rewrite S1.
  rewrite (size_sub_small c s) by (unfold SIZE_MAX in *; lia).
  rewrite (size_add_small BLOCK_STRUCT_SIZE BLOCK_SIZE_MIN) by (unfold SIZE_MAX; lia).
  rewrite (proj2 (Z.leb_le _ _)) by lia.
  rewrite (size_sub_small (c - s) BLOCK_STRUCT_SIZE) by (unfold SIZE_MAX in *; lia).
  fold rest.
  assert (Hr0 : 0 <= rest) by (unfold rest; lia).
  assert (Hr4 : rest mod 4 = 0).
  { unfold rest. apply diff_mod_4; [apply diff_mod_4 |]; assumption. }
  assert (Hrmax : rest + 3 <= SIZE_MAX) by (unfold rest; lia).
  set (m2 := block_set_size_curr m1 block s).
  assert (W2 : size_word (load m2 block) s true l).
  { unfold m2, block_set_size_curr, size_curr_of. mem_simpl. rewrite L1.
    apply (word_set_size _ c true l); try assumption; try lia.
    repeat split; assumption. }
  assert (F2 : forall a, a <> block -> load m2 a = load m a).
  { intros a Ha. unfold m2, block_set_size_curr, size_curr_of. mem_simpl. auto. }
  assert (N2 : block_next m2 block = block_r).
  { unfold block_next.
    destruct (block_fields_of_word m2 block s true l W2) as (-> & _). reflexivity. }
  rewrite N2.
  set (m3 := block_init m2 block_r).
  set (m4 := block_set_size_curr m3 block_r rest).
  assert (L4 : load m4 block_r = rest).
  { unfold m4, block_set_size_curr, size_curr_of. mem_simpl.
    unfold m3, block_init, block_clr_flag_last, block_clr_flag_busy, size_curr_of.
    mem_simpl. rewrite land_cleared_flags. apply Z.lor_0_r. }
  assert (F4 : forall a, a <> block_r -> load m4 a = load m2 a).
  { intros a Ha. unfold m4, block_set_size_curr, m3, block_init,
      block_clr_flag_last, block_clr_flag_busy, size_curr_of. mem_simpl. reflexivity. }
  set (m5 := block_set_size_prev m4 block_r s).
  assert (O5 : block_get_offset m5 block = load m (block + 16)).
  { unfold block_get_offset, m5, block_set_size_prev, offset_of, size_prev_of, sizeof_size_t.
    subst block_r. mem_simpl. rewrite F4 by lia. apply F2. lia. }
  rewrite O5.
  set (off' := size_add (size_add (load m (block + 16)) s) BLOCK_STRUCT_SIZE).
  set (m6 := block_set_offset m5 block_r off').
  assert (F6 : forall a, a <> block_r + 8 -> a <> block_r + 16 -> load m6 a = load m4 a).
  { intros a Ha Ha'. unfold m6, block_set_offset, m5, block_set_size_prev,
      offset_of, size_prev_of, sizeof_size_t. mem_simpl. reflexivity. }
  assert (P6 : load m6 (block_r + 8) = s).
  { unfold m6, block_set_offset, m5, block_set_size_prev,
      offset_of, size_prev_of, sizeof_size_t. mem_simpl. reflexivity. }
  assert (Of6 : load m6 (block_r + 16) = off').
  { unfold m6, block_set_offset, offset_of, sizeof_size_t. mem_simpl. reflexivity. }
  assert (W6 : size_word (load m6 block) s true l).
  { subst block_r. rewrite F6, F4 by lia. assumption. }
  assert (W6r : size_word (load m6 block_r) rest false false).
  { rewrite F6, L4 by lia. repeat split; try assumption. unfold flags_of. lia. }
  destruct (block_fields_of_word m6 block s true l W6) as (_ & _ & ->).
  destruct l.
  - eexists. split; [reflexivity |].
    pose proof (word_clr_last _ _ _ _ W6) as (E8 & _).
    pose proof (word_set_last _ _ _ _ W6r) as (E8r & _).
    unfold block_set_flag_last, block_clr_flag_last, size_curr_of.
    subst block_r. mem_simpl.
    repeat split; try assumption; try (intros; discriminate).
    intros a Ha1 Ha2 Ha3 Ha4 _. mem_simpl. rewrite F6, F4, F2 by lia. reflexivity.
  - eexists. split; [reflexivity |].
    assert (Nx : block_next m6 block_r = block_r + BLOCK_STRUCT_SIZE + rest).
    { unfold block_next.
      destruct (block_fields_of_word m6 block_r rest false false W6r) as (-> & _).
      reflexivity. }
    rewrite Nx. unfold block_set_size_prev, size_prev_of, sizeof_size_t.
    destruct W6 as (E6 & _). destruct W6r as (E6r & _).
    subst block_r. mem_simpl.
    repeat split; try assumption.
    intros a Ha1 Ha2 Ha3 Ha4 Ha5. specialize (Ha5 eq_refl).
    mem_simpl. rewrite F6, F4, F2 by lia. reflexivity.
Qed.

(** The words of memory after [block_merge]. *)
Lemma block_merge_mem (m : Memory) (block block_r sz szr : Z) (b l lr : bool) :
  size_word (load m (size_curr_of block)) sz b l ->
  size_word (load m (size_curr_of block_r)) szr false lr ->
  block_r = block + BLOCK_STRUCT_SIZE + sz ->
  sz + szr + BLOCK_STRUCT_SIZE + 3 <= SIZE_MAX ->
  let size := sz + szr + BLOCK_STRUCT_SIZE in
  exists m',
    block_merge m block block_r = Some m' /\
    load m' block = size + flags_of b (l || lr) /\
    (lr = false -> load m' (block_r + BLOCK_STRUCT_SIZE + szr + 8) = size) /\
    (forall a, a <> block ->
               (lr = false -> a <> block_r + BLOCK_STRUCT_SIZE + szr + 8) ->
               load m' a = load m a).
Proof.
  intros Hword Hwordr Er Hmax size.
  pose proof (sizes_fit Hcfg) as (HH & HH4 & HM & HM4).
  destruct (block_fields_of_word _ _ _ _ _ Hword) as (Hc & Hb & Hl).
  destruct (block_fields_of_word _ _ _ _ _ Hwordr) as (Hcr & Hbr & Hlr).
  unfold block_merge.
  assert (Hn : block_next m block = block_r).
  { unfold block_next. rewrite Hc. lia. }
  rewrite Hbr, Hn, Z.eqb_refl. cbn [assert negb mbind option_bind].
  rewrite Hc, Hcr.
  pose proof Hword as (Ew & Hsz0 & Hsz4 & Hszmax).
  pose proof Hwordr as (Ewr & Hszr0 & Hszr4 & Hszrmax).
  unfold size_curr_of in *.
  rewrite (size_add_small sz szr) by lia.
  rewrite (size_add_small (sz + szr)) by lia.
  fold size.
  assert (Hz4 : size mod 4 = 0).
  { unfold size. apply sum_mod_4; [apply sum_mod_4 |]; assumption. }
  set (m1 := block_set_size_curr m block size).
  assert (W1 : size_word (load m1 block) size b l).
  { unfold m1, block_set_size_curr, size_curr_of. mem_simpl.
    apply (word_set_size _ sz b l); try assumption; unfold size; lia. }
  assert (F1 : forall a, a <> block -> load m1 a = load m a).
  { intros a Ha. unfold m1, block_set_size_curr, size_curr_of. mem_simpl. reflexivity. }
  assert (W1r : size_word (load m1 block_r) szr false lr).
  { rewrite F1 by lia. assumption. }
  destruct (block_fields_of_word m1 block_r szr false lr W1r) as (Sr & _ & ->).
  destruct lr.
  - eexists. split; [reflexivity |].
    pose proof (word_set_last _ _ _ _ W1) as (E2 & _).
    unfold block_set_flag_last, size_curr_of. mem_simpl.
    rewrite orb_true_r. repeat split; try assumption; try (intros; discriminate).
    intros a Ha _. mem_simpl. apply F1. assumption.
  - eexists. split; [reflexivity |].
    unfold block_next. rewrite Sr.
    unfold block_set_size_prev, size_prev_of, sizeof_size_t.
    destruct W1 as (E1 & _). rewrite orb_false_r.
    subst block_r. mem_simpl.
    repeat split; try assumption.
    intros a Ha Ha'. specialize (Ha' eq_refl). mem_simpl. apply F1. assumption.
Qed.

End SplitMerge.

(** ** Neighbours after [block_split], and [block_merge] undoing it *)

Section SplitLinks.
Context {cfg : Config} (Hcfg : config_ok cfg).

(** X4: when [block_split] makes a new block, the new block is the right
    neighbour of the block that was split ([block_next]), that block is its
    left neighbour ([block_prev]), and its own right neighbour is the block
    that followed the original one; the new block is not first unless the
    requested size is zero. *)
Theorem block_split_links (m : Memory) (block s : Z) :
  is_size_t (load m (size_curr_of block)) ->
  s mod ALIGN = 0 ->
  0 <= s <= block_get_size_curr m block ->
  BLOCK_STRUCT_SIZE + BLOCK_SIZE_MIN <= block_get_size_curr m block - s ->
  let block_r := (block_split m block s).1 in
  let m' := (block_split m block s).2 in
  block_next m' block = block_r /\
  block_prev m' block_r = block /\
  block_next m' block_r = block_next m block /\
  block_get_flag_first m' block_r = (s =? 0).
Proof.
  intros Hw Hal Hs Hfit.
  pose proof (block_word_of_fields m block Hw) as Hword.
  pose proof (sizes_fit Hcfg) as (HH & HH4 & HM & HM4).
  set (c := block_get_size_curr m block) in *.
  set (l := block_get_flag_last m block) in *.
  assert (Hs4 : s mod 4 = 0) by (apply (align_mod_4 Hcfg); assumption).
  destruct (block_split_mem Hcfg m block s c _ l Hword Hs4 Hs Hfit)
    as (m' & E & Lb & Lr & Pr & _ & _ & _).
  rewrite E. cbn [fst snd].
  destruct Hword as (_ & Hc0 & Hc4 & Hcmax).
  assert (Wb : size_word (load m' (size_curr_of block)) s true false).
  { unfold size_curr_of. rewrite Lb. repeat split; try assumption; lia. }
  assert (Wr : size_word (load m' (size_curr_of (block + BLOCK_STRUCT_SIZE + s)))
                 (c - s - BLOCK_STRUCT_SIZE) false l).
  { unfold size_curr_of. rewrite Lr. repeat split; try lia.
    apply diff_mod_4; [apply diff_mod_4 |]; assumption. }
  destruct (block_fields_of_word _ _ _ _ _ Wb) as (Sb & _).
  destruct (block_fields_of_word _ _ _ _ _ Wr) as (Sr & _).
  unfold block_next, block_prev, block_get_flag_first, block_get_size_prev,
    size_prev_of, sizeof_size_t.
  rewrite Sb, Sr, Pr. fold c.
  repeat split; lia.
Qed.

(** X5: [block_merge] undoes [block_split]: merging the block with the
    block that [block_split] made succeeds, both assertions hold, and the
    block has its former size and last flag, [size_prev] and [offset]; it
    stays busy, and unless it is the last block the [size_prev] of the block
    after it is its size again. *)
Theorem block_split_merge (m : Memory) (block s : Z) :
  is_size_t (load m (size_curr_of block)) ->
  s mod ALIGN = 0 ->
  0 <= s <= block_get_size_curr m block ->
  BLOCK_STRUCT_SIZE + BLOCK_SIZE_MIN <= block_get_size_curr m block - s ->
  let block_r := (block_split m block s).1 in
  let m' := (block_split m block s).2 in
  exists m'',
    block_merge m' block block_r = Some m'' /\
    block_get_size_curr m'' block = block_get_size_curr m block /\
    block_get_flag_last m'' block = block_get_flag_last m block /\
    block_get_flag_busy m'' block = true /\
    block_get_size_prev m'' block = block_get_size_prev m block /\
    block_get_offset m'' block = block_get_offset m block /\
    (block_get_flag_last m block = false ->
     block_get_size_prev m'' (block_next m'' block) = block_get_size_curr m block).
Proof.
  intros Hw Hal Hs Hfit.
  pose proof (block_word_of_fields m block Hw) as Hword.
  pose proof (sizes_fit Hcfg) as (HH & HH4 & HM & HM4).
  set (c := block_get_size_curr m block) in *.
  set (l := block_get_flag_last m block) in *.
  assert (Hs4 : s mod 4 = 0) by (apply (align_mod_4 Hcfg); assumption).
  destruct (block_split_mem Hcfg m block s c _ l Hword Hs4 Hs Hfit)
    as (m' & E & Lb & Lr & Pr & Or & Pn & Fr).
  rewrite E. cbn [fst snd].
  destruct Hword as (_ & Hc0 & Hc4 & Hcmax).
  set (block_r := block + BLOCK_STRUCT_SIZE + s) in *.
  set (rest := c - s - BLOCK_STRUCT_SIZE) in *.
  assert (Wb : size_word (load m' (size_curr_of block)) s true false).
  { unfold size_curr_of. rewrite Lb. repeat split; try assumption; lia. }
  assert (Wr : size_word (load m' (size_curr_of block_r)) rest false l).
  { unfold size_curr_of. rewrite Lr. unfold rest. repeat split; try lia.
    apply diff_mod_4; [apply diff_mod_4 |]; assumption. }
  destruct (block_merge_mem Hcfg m' block block_r s rest true false l Wb Wr eq_refl)
    as (m'' & Em & Lm & Pm & Fm); [unfold rest; lia |].
  exists m''. split; [exact Em |].
  replace (s + rest + BLOCK_STRUCT_SIZE) with c in * by (unfold rest; lia).
  cbn [orb] in Lm.
  assert (Wm : size_word (load m'' (size_curr_of block)) c true l).
  { unfold size_curr_of. rewrite Lm. repeat split; assumption. }
  destruct (block_fields_of_word _ _ _ _ _ Wm) as (Sm & Bm & Lam).
  rewrite Sm, Bm, Lam.
  unfold block_next, block_get_size_prev, block_get_offset, size_prev_of, offset_of,
    sizeof_size_t.
  rewrite Sm. change (2 * 8) with 16.
  assert (Hnx : block + BLOCK_STRUCT_SIZE + c + 8 = block_r + BLOCK_STRUCT_SIZE + rest + 8)
    by (unfold block_r, rest; lia).
  repeat split.
  - destruct l.
    + rewrite Fm by first [lia | intros; discriminate].
      apply Fr; unfold block_r; first [lia | intros; discriminate].
    + rewrite Fm by (intros; unfold block_r, rest; lia).
      apply Fr; intros; unfold block_r, rest; lia.
  - destruct l.
    + rewrite Fm by first [lia | intros; discriminate].
      apply Fr; unfold block_r; first [lia | intros; discriminate].
    + rewrite Fm by (intros; unfold block_r, rest; lia).
      apply Fr; intros; unfold block_r, rest; lia.
  - intros El. rewrite Hnx. apply Pm. assumption.
Qed.

End SplitLinks.

(** ** [mem_alloc] below the oversized threshold *)

Section AllocSmall.
Context {cfg : Config} (Hcfg : config_ok cfg).

Lemma round_up_le_multiple a x y :
  0 < a -> x <= y -> y mod a = 0 -> a * ((x + a - 1) / a) <= y.
Proof.
  intros Ha Hxy Hy.
  pose proof (Z.div_mod y a ltac:(lia)) as E. rewrite Hy in E.
  assert ((x + a - 1) / a < y / a + 1).
  { apply Z.div_lt_upper_bound; [lia |]. nia. }
  nia.
Qed.

Lemma aligned_room x :
  0 <= x <= SIZE_MAX -> x mod ALIGN = 0 -> x + ALIGN - 1 <= SIZE_MAX.
Proof.
  intros Hx Hm. pose proof (ALIGN_range Hcfg) as Ha.
  assert (Hnz : ALIGN <> 0) by lia.
  pose proof (Z.div_mod x ALIGN Hnz) as E. rewrite Hm in E.
  destruct (ok_align _ Hcfg) as (k & Hk & Ek).
  assert (SIZE_MAX + 1 = ALIGN * 2^(64 - k)).
  { rewrite Ek, <- Z.pow_add_r by lia. unfold SIZE_MAX.
    replace (k + (64 - k)) with 64 by lia. lia. }
  assert (x / ALIGN < 2^(64 - k)) by (apply Z.div_lt_upper_bound; lia).
  nia.
Qed.

Lemma ARENA_SIZE_aligned : ARENA_SIZE mod ALIGN = 0.
Proof.
  apply (page_mod_align Hcfg). unfold ARENA_SIZE. apply Z.mod_mul.
  pose proof (PAGE_range Hcfg). lia.
Qed.

Lemma BLOCK_SIZE_MAX_facts :
  BLOCK_SIZE_MIN <= BLOCK_SIZE_MAX <= 2^50 /\ BLOCK_SIZE_MAX mod ALIGN = 0.
Proof.
  rewrite (BLOCK_SIZE_MAX_eq Hcfg).
  pose proof (ok_arena _ Hcfg). pose proof (ARENA_SIZE_range Hcfg).
  pose proof (sizes_fit Hcfg) as (HH & _).
  pose proof (BLOCK_STRUCT_SIZE_bounds Hcfg) as (_ & HHa).
  pose proof (ALIGN_range Hcfg).
  split; [lia |].
  rewrite <- Zminus_mod_idemp_r, HHa, Z.sub_0_r. apply ARENA_SIZE_aligned.
Qed.

(** The size [mem_alloc] and [mem_realloc] work with: the request raised to
    [BLOCK_SIZE_MIN] and rounded to [ALIGN]. *)
Lemma normalised_size s :
  0 <= s <= BLOCK_SIZE_MAX ->
  let a := ROUND_BYTES (Z.max s BLOCK_SIZE_MIN) in
  Z.max s BLOCK_SIZE_MIN <= a <= BLOCK_SIZE_MAX /\ a mod ALIGN = 0 /\ a < s + ALIGN + BLOCK_SIZE_MIN.
Proof.
  intros Hs a.
  pose proof BLOCK_SIZE_MAX_facts as ((Hmin & Hmax) & Hal).
  pose proof (sizes_fit Hcfg) as (_ & _ & HM & _).
  pose proof (ALIGN_range Hcfg) as Ha.
  assert (Hr : 0 <= Z.max s BLOCK_SIZE_MIN /\ Z.max s BLOCK_SIZE_MIN + ALIGN - 1 <= SIZE_MAX)
    by (unfold SIZE_MAX; lia).
  destruct (ROUND_BYTES_bounds Hcfg _ (proj1 Hr) (proj2 Hr)) as (Hb & Hm).
  fold a in Hb, Hm. repeat split; try lia; try assumption.
  unfold a. rewrite (ROUND_BYTES_eq Hcfg) by lia.
  apply round_up_le_multiple; [lia | lia | assumption].
Qed.

Lemma mem_alloc_small_normalised (k : Z -> Z) (st : State) (s : Z) :
  0 <= s <= BLOCK_SIZE_MAX ->
  mem_alloc k st s = mem_alloc k st (ROUND_BYTES (Z.max s BLOCK_SIZE_MIN)).
Proof.
  intros Hs. destruct (normalised_size s Hs) as ((Hlo & Hhi) & Hal & _).
  set (a := ROUND_BYTES (Z.max s BLOCK_SIZE_MIN)) in *.
  pose proof BLOCK_SIZE_MAX_facts as ((Hmin & Hmax) & _).
  unfold mem_alloc.
  rewrite (proj2 (Z.ltb_ge BLOCK_SIZE_MAX s)) by lia.
  rewrite (proj2 (Z.ltb_ge BLOCK_SIZE_MAX a)) by lia.
  rewrite (proj2 (Z.ltb_ge a BLOCK_SIZE_MIN)) by lia.
  rewrite (ROUND_BYTES_aligned Hcfg a) by (try assumption; unfold SIZE_MAX; lia).
  replace (if s <? BLOCK_SIZE_MIN then BLOCK_SIZE_MIN else s) with (Z.max s BLOCK_SIZE_MIN)
    by (destruct (Z.ltb_spec s BLOCK_SIZE_MIN); lia).
  reflexivity.
Qed.

(** X6: [mem_alloc] depends on the request only through its normalised
    size: for every request up to [SIZE_MAX - (ALIGN - 1)], asking for the
    request raised to [BLOCK_SIZE_MIN] and rounded up to [ALIGN] gives the
    same result and state as the request itself, and [mem_realloc] with a
    null pointer is [mem_alloc] of the request. *)
Theorem mem_alloc_normalised (k : Z -> Z) (st : State) (s : Z) :
  0 <= s <= SIZE_MAX - (ALIGN - 1) ->
  let size := ROUND_BYTES (if s <? BLOCK_SIZE_MIN then BLOCK_SIZE_MIN else s) in
  mem_alloc k st size = mem_alloc k st s /\
  mem_realloc k st NULL s = mem_alloc k st s.
Proof.
  intros Hs size.
  assert (E : mem_alloc k st size = mem_alloc k st s).
  { pose proof BLOCK_SIZE_MAX_facts as ((Hmin & Hmax) & _).
    pose proof (ALIGN_range Hcfg) as Hal.
    destruct (Z.le_gt_cases s BLOCK_SIZE_MAX) as [Hsmall | Hbig].
    - unfold size.
      replace (if s <? BLOCK_SIZE_MIN then BLOCK_SIZE_MIN else s) with (Z.max s BLOCK_SIZE_MIN)
        by (destruct (Z.ltb_spec s BLOCK_SIZE_MIN); lia).
      symmetry. apply mem_alloc_small_normalised. lia.
    - unfold size. rewrite (proj2 (Z.ltb_ge s BLOCK_SIZE_MIN)) by lia.
      destruct (ROUND_BYTES_bounds Hcfg s) as (HR & HRal); [lia | lia |].
      set (R := ROUND_BYTES s) in *.
      pose proof (aligned_room R ltac:(lia) HRal) as Hroom.
      unfold mem_alloc.
      rewrite (proj2 (Z.ltb_lt BLOCK_SIZE_MAX s)) by lia.
      rewrite (proj2 (Z.ltb_lt BLOCK_SIZE_MAX R)) by lia.
      rewrite (size_sub_small ALIGN 1) by (unfold SIZE_MAX; lia).
      rewrite size_sub_small by (unfold SIZE_MAX; lia).
      rewrite (proj2 (Z.ltb_ge _ s)) by lia.
      rewrite (proj2 (Z.ltb_ge _ R)) by lia.
      rewrite (ROUND_BYTES_aligned Hcfg R) by (try assumption; lia).
      reflexivity. }
  split; [exact E |].
  rewrite <- E. unfold mem_realloc. fold size.
  change (NULL =? NULL) with true. reflexivity.
Qed.

End AllocSmall.

(** ** A request served from a fresh arena, and freed again *)

Section FreshArena.
Context {cfg : Config} (Hcfg : config_ok cfg).

Lemma arena_init_words (m : Memory) (block size : Z) :
  0 <= size -> size mod 4 = 0 -> size + 3 <= SIZE_MAX ->
  load (arena_init m block size) block = size + flags_of false true /\
  load (arena_init m block size) (block + 8) = 0 /\
  load (arena_init m block size) (block + 16) = 0 /\
  (forall a, a <> block -> a <> block + 8 -> a <> block + 16 ->
             load (arena_init m block size) a = load m a).
Proof.
  intros H0 H4 Hmax.
  unfold arena_init, block_set_flag_last, size_curr_of, size_prev_of, offset_of,
    sizeof_size_t.
  change (2 * 8) with 16. mem_simpl.
  repeat split.
  - apply (word_set_last size size false false).
    repeat split; try assumption. unfold flags_of. lia.
  - intros a Ha1 Ha2 Ha3. mem_simpl. reflexivity.
Qed.

Lemma tree_remove_added (t : tree_type) (node key : Z) :
  tree_remove (tree_add t node key) node = t.
Proof. unfold tree_add. cbn. rewrite Z.eqb_refl. reflexivity. Qed.

(** [mem_alloc] when the index has no block for the request and the page
    provider answers: the state it leaves, word by word. *)
Lemma mem_alloc_fresh (k : Z -> Z) (st : State) (s b : Z) :
  0 <= s <= BLOCK_SIZE_MAX ->
  let a := ROUND_BYTES (Z.max s BLOCK_SIZE_MIN) in
  let rest := BLOCK_SIZE_MAX - a - BLOCK_STRUCT_SIZE in
  let block_r := b + BLOCK_STRUCT_SIZE + a in
  let fits := BLOCK_STRUCT_SIZE + BLOCK_SIZE_MIN <=? BLOCK_SIZE_MAX - a in
  tree_find_best (blocks_tree st) a = NULL ->
  k ARENA_SIZE = b -> 0 < b ->
  exists m',
    mem_alloc k st s
    = Some (b + BLOCK_STRUCT_SIZE,
            mkState m'
              (if fits then tree_add (blocks_tree st) (block_to_node block_r) rest
               else blocks_tree st)
              ((b, ARENA_SIZE) :: mapped st)
              (trace st ++ [EKernelAlloc ARENA_SIZE b])) /\
    load m' (b + 8) = 0 /\ load m' (b + 16) = 0 /\
    (if fits then
       load m' b = a + flags_of true false /\
       load m' block_r = rest + flags_of false true /\
       load m' (block_r + 8) = a /\
       load m' (block_r + 16) = a + BLOCK_STRUCT_SIZE
     else load m' b = BLOCK_SIZE_MAX + flags_of true true).
Proof.
  intros Hs a rest block_r fits Hnone Hk Hb.
  destruct (normalised_size Hcfg s Hs) as ((Hlo & Hhi) & Hal & _). fold a in Hlo, Hhi, Hal.
  pose proof (BLOCK_SIZE_MAX_facts Hcfg) as ((Hmin & Hmax) & HMal).
  pose proof (sizes_fit Hcfg) as (HH & HH4 & HM & HM4).
  pose proof (BLOCK_SIZE_MAX_eq Hcfg) as EM.
  assert (Ha4 : a mod 4 = 0) by (apply (align_mod_4 Hcfg); assumption).
  assert (HM4' : BLOCK_SIZE_MAX mod 4 = 0) by (apply (align_mod_4 Hcfg); assumption).
  rewrite (mem_alloc_small_normalised Hcfg k st s Hs). fold a.
  unfold mem_alloc.
  rewrite (proj2 (Z.ltb_ge BLOCK_SIZE_MAX a)) by lia.
  rewrite (proj2 (Z.ltb_ge a BLOCK_SIZE_MIN)) by lia.
  rewrite (ROUND_BYTES_aligned Hcfg a) by (try assumption; unfold SIZE_MAX; lia).
  rewrite Hnone. change (NULL =? NULL) with true. cbv iota.
  unfold arena_alloc, kernel_alloc.
  rewrite (proj2 (Z.ltb_ge BLOCK_SIZE_MAX a)) by lia.
  rewrite Hk. rewrite (proj2 (Z.eqb_neq b NULL)) by (unfold NULL; lia).
  cbn [negb]. fold BLOCK_SIZE_MAX.
  rewrite (proj2 (Z.eqb_neq b NULL)) by (unfold NULL; lia).
  unfold mem_alloc_split, with_mem. cbn [mem blocks_tree mapped trace].
  destruct (arena_init_words (mem st) b BLOCK_SIZE_MAX) as (L0 & P0 & O0 & F0);
    [lia | assumption | unfold SIZE_MAX; lia |].
  set (m0 := arena_init (mem st) b BLOCK_SIZE_MAX) in *.
  assert (W0 : size_word (load m0 (size_curr_of b)) BLOCK_SIZE_MAX false true).
  { unfold size_curr_of. rewrite L0. repeat split; try assumption; unfold SIZE_MAX; lia. }
  unfold fits. destruct (Z.leb_spec (BLOCK_STRUCT_SIZE + BLOCK_SIZE_MIN) (BLOCK_SIZE_MAX - a))
    as [Hfit | Hno].
  - destruct (block_split_mem Hcfg m0 b a BLOCK_SIZE_MAX false true W0 Ha4)
      as (m' & E & Lb & Lr & Pr & Or & _ & Fr); [lia | lia |].
    rewrite E. fold block_r rest in Lr, Pr, Or, Fr |- *.
    rewrite (proj2 (Z.eqb_neq block_r NULL)) by (unfold NULL, block_r; lia).
    cbn [negb]. unfold tree_add_block, with_mem. cbn [mem blocks_tree mapped trace].
    assert (Wr : size_word (load m' (size_curr_of block_r)) rest false true).
    { unfold size_curr_of. rewrite Lr. unfold rest. repeat split; try (unfold SIZE_MAX; lia).
      apply diff_mod_4; [apply diff_mod_4 |]; assumption. }
    destruct (block_fields_of_word _ _ _ _ _ Wr) as (Sr & Br & _).
    rewrite Br, Sr. cbn [negb assert mbind option_bind with_tree mem blocks_tree mapped trace].
    exists m'. split; [reflexivity |].
    rewrite !Fr by first [unfold block_r; lia | intros; discriminate].
    rewrite O0 in Or.
    rewrite (size_add_small 0 a) in Or by (unfold SIZE_MAX; lia).
    rewrite (size_add_small (0 + a)) in Or by (unfold SIZE_MAX; lia).
    repeat split; try assumption; rewrite Or; lia.
  - rewrite (block_split_none Hcfg m0 b a BLOCK_SIZE_MAX false true W0) by lia.
    change (NULL =? NULL) with true.
    cbn [negb assert mbind option_bind with_mem mem blocks_tree mapped trace].
    eexists. split; [reflexivity |].
    unfold block_set_flag_busy, size_curr_of. mem_simpl.
    repeat split; try assumption.
    apply (word_set_busy _ _ _ _ W0).
Qed.

(** X7: [mem_alloc] of a size up to [BLOCK_SIZE_MAX], when the index has no
    block for it and the page provider returns an aligned address [b] for a
    default arena: the result is the payload of the block at [b], it is
    aligned, the block is busy and first with offset zero, its size is a
    multiple of [ALIGN] between the request and [BLOCK_SIZE_MAX], and the
    one call to the page provider is recorded with its mapping. *)
Theorem mem_alloc_fresh_arena (k : Z -> Z) (st : State) (s b : Z) :
  0 <= s <= BLOCK_SIZE_MAX ->
  tree_find_best (blocks_tree st) (ROUND_BYTES (Z.max s BLOCK_SIZE_MIN)) = NULL ->
  k ARENA_SIZE = b -> 0 < b -> b mod ALIGN = 0 ->
  exists st',
    mem_alloc k st s = Some (block_to_payload b, st') /\
    block_to_payload b mod ALIGN = 0 /\
    block_get_flag_busy (mem st') b = true /\
    block_get_flag_first (mem st') b = true /\
    block_get_offset (mem st') b = 0 /\
    s <= block_get_size_curr (mem st') b <= BLOCK_SIZE_MAX /\
    block_get_size_curr (mem st') b mod ALIGN = 0 /\
    mapped st' = (b, ARENA_SIZE) :: mapped st /\
    trace st' = trace st ++ [EKernelAlloc ARENA_SIZE b].
Proof.
  intros Hs Hnone Hk Hb Hbal.
  destruct (mem_alloc_fresh k st s b Hs Hnone Hk Hb) as (m' & E & P & O & Hw).
  destruct (normalised_size Hcfg s Hs) as ((Hlo & Hhi) & Hal & _).
  pose proof (BLOCK_SIZE_MAX_facts Hcfg) as ((Hmin & Hmax) & HMal).
  pose proof (BLOCK_STRUCT_SIZE_bounds Hcfg) as (_ & HHal).
  set (a := ROUND_BYTES (Z.max s BLOCK_SIZE_MIN)) in *.
  eexists. split; [exact E |]. cbn [mem mapped trace].
  unfold block_to_payload, block_get_flag_first, block_get_offset, size_prev_of, offset_of,
    sizeof_size_t. change (2 * 8) with 16. rewrite P, O.
  assert (Hsum : (b + BLOCK_STRUCT_SIZE) mod ALIGN = 0).
  { rewrite <- Zplus_mod_idemp_r, HHal, Z.add_0_r. assumption. }
  destruct (BLOCK_STRUCT_SIZE + BLOCK_SIZE_MIN <=? BLOCK_SIZE_MAX - a).
  - destruct Hw as (Lb & _).
    assert (W : size_word (load m' (size_curr_of b)) a true false).
    { unfold size_curr_of. rewrite Lb. repeat split; try lia.
      apply (align_mod_4 Hcfg); assumption. unfold SIZE_MAX. lia. }
    destruct (block_fields_of_word _ _ _ _ _ W) as (-> & -> & _).
    repeat split; try assumption; lia.
  - assert (W : size_word (load m' (size_curr_of b)) BLOCK_SIZE_MAX true true).
    { unfold size_curr_of. rewrite Hw. repeat split; try lia.
      apply (align_mod_4 Hcfg); assumption. unfold SIZE_MAX. lia. }
    destruct (block_fields_of_word _ _ _ _ _ W) as (-> & -> & _).
    repeat split; try assumption; lia.
Qed.

(** X8: a block served from a fresh arena and freed at once gives the whole
    arena back: [mem_free] joins the block with the free rest, finds it first
    and last, and calls [kernel_free] on the base with the length
    [ARENA_SIZE] that was mapped; the index and the mappings are as before
    [mem_alloc]. *)
Theorem mem_alloc_free_releases_arena (k : Z -> Z) (st : State) (s b : Z) :
  0 <= s <= BLOCK_SIZE_MAX ->
  tree_find_best (blocks_tree st) (ROUND_BYTES (Z.max s BLOCK_SIZE_MIN)) = NULL ->
  k ARENA_SIZE = b -> 0 < b ->
  Forall (fun a : Z * Z => a.1 <> b) (mapped st) ->
  exists st1 st2,
    mem_alloc k st s = Some (block_to_payload b, st1) /\
    mem_free st1 (block_to_payload b) = Some st2 /\
    blocks_tree st2 = blocks_tree st /\
    mapped st2 = mapped st /\
    trace st2 = trace st ++ [EKernelAlloc ARENA_SIZE b; EKernelFree b ARENA_SIZE].
Proof.
  intros Hs Hnone Hk Hb Hfresh.
  destruct (mem_alloc_fresh k st s b Hs Hnone Hk Hb) as (m' & E & P & O & Hw).
  destruct (normalised_size Hcfg s Hs) as ((Hlo & Hhi) & Hal & _).
  pose proof (BLOCK_SIZE_MAX_facts Hcfg) as ((Hmin & Hmax) & HMal).
  pose proof (sizes_fit Hcfg) as (HH & HH4 & HM & HM4).
  set (a := ROUND_BYTES (Z.max s BLOCK_SIZE_MIN)) in *.
  set (rest := BLOCK_SIZE_MAX - a - BLOCK_STRUCT_SIZE) in *.
  set (block_r := b + BLOCK_STRUCT_SIZE + a) in *.
  assert (Ha4 : a mod 4 = 0) by (apply (align_mod_4 Hcfg); assumption).
  assert (HM4' : BLOCK_SIZE_MAX mod 4 = 0) by (apply (align_mod_4 Hcfg); assumption).
  assert (Hfilter : filter (fun bs : Z * Z => bs.1 <> b) ((b, ARENA_SIZE) :: mapped st)
                    = mapped st).
  { rewrite filter_cons_False by (cbn; tauto).
    clear -Hfresh. induction Hfresh as [| x l Hx _ IH]; [reflexivity |].
    rewrite filter_cons_True by assumption. rewrite IH. reflexivity. }
  match type of E with _ = Some (_, ?st1) => exists st1 end.
  match goal with
  | |- exists st2, _ /\ ?f st2 = Some st2 /\ _ => idtac
  | |- exists st2, ?A /\ @?B st2 => enough (exists st2, B st2) as (st2 & H2);
                                     [exists st2; split; [exact E | exact H2] |]
  end.
  cbv beta.
  unfold mem_free.
  rewrite (proj2 (Z.eqb_neq (block_to_payload b) NULL))
    by (unfold block_to_payload, NULL; lia).
  replace (payload_to_block (block_to_payload b)) with b
    by (unfold payload_to_block, block_to_payload; lia).
  unfold with_mem. cbn [mem blocks_tree mapped trace].
  set (m1 := block_clr_flag_busy m' b).
  assert (F1 : forall x, x <> b -> load m1 x = load m' x).
  { intros x Hx. unfold m1, block_clr_flag_busy, size_curr_of. mem_simpl. reflexivity. }
  destruct (BLOCK_STRUCT_SIZE + BLOCK_SIZE_MIN <=? BLOCK_SIZE_MAX - a) eqn:Efit.
  - apply Z.leb_le in Efit. destruct Hw as (Lb & Lr & Pr & Or).
    assert (W1 : size_word (load m1 (size_curr_of b)) a false false).
    { unfold m1, block_clr_flag_busy, size_curr_of. mem_simpl. rewrite Lb.
      apply word_clr_busy with (b := true).
      repeat split; first [assumption | unfold SIZE_MAX; lia]. }
    assert (W1r : size_word (load m1 (size_curr_of block_r)) rest false true).
    { unfold size_curr_of. rewrite F1 by (unfold block_r; lia). rewrite Lr.
      unfold rest. repeat split; try (unfold SIZE_MAX; lia).
      apply diff_mod_4; [apply diff_mod_4 |]; assumption. }
    destruct (block_fields_of_word _ _ _ _ _ W1) as (S1 & B1 & La1).
    rewrite S1, La1. rewrite (proj2 (Z.ltb_ge BLOCK_SIZE_MAX a)) by lia.
    cbn [negb]. unfold block_next. rewrite S1. fold block_r.
    destruct (block_fields_of_word _ _ _ _ _ W1r) as (_ & -> & _).
    cbn [negb]. unfold tree_remove_block. cbn [mem].
    destruct (block_fields_of_word _ _ _ _ _ W1r) as (_ & -> & _).
    cbn [negb assert mbind option_bind with_tree mem blocks_tree mapped trace].
    rewrite tree_remove_added.
    destruct (block_merge_mem Hcfg m1 b block_r a rest false false true W1 W1r eq_refl)
      as (m2 & Em & Lm & _ & Fm); [unfold rest, SIZE_MAX; lia |].
    rewrite Em. cbn [mbind option_bind with_mem mem blocks_tree mapped trace].
    replace (a + rest + BLOCK_STRUCT_SIZE) with BLOCK_SIZE_MAX in Lm by (unfold rest; lia).
    cbn [orb] in Lm.
    assert (W2 : size_word (load m2 (size_curr_of b)) BLOCK_SIZE_MAX false true).
    { unfold size_curr_of. rewrite Lm.
      repeat split; first [assumption | unfold SIZE_MAX; lia]. }
    assert (First2 : block_get_flag_first m2 b = true).
    { unfold block_get_flag_first, size_prev_of, sizeof_size_t.
      rewrite Fm by first [lia | intros; discriminate]. rewrite F1 by lia. rewrite P.
      reflexivity. }
    rewrite First2. cbn [negb].
    cbn [mbind option_bind mem]. rewrite First2.
    destruct (block_fields_of_word _ _ _ _ _ W2) as (_ & _ & ->).
    cbn [andb]. eexists. split; [reflexivity |].
    unfold kernel_free. cbn [mem blocks_tree mapped trace].
    rewrite Hfilter, <- app_assoc. repeat split.
  - assert (W1 : size_word (load m1 (size_curr_of b)) BLOCK_SIZE_MAX false true).
    { unfold m1, block_clr_flag_busy, size_curr_of. mem_simpl. rewrite Hw.
      apply word_clr_busy with (b := true).
      repeat split; first [assumption | unfold SIZE_MAX; lia]. }
    destruct (block_fields_of_word _ _ _ _ _ W1) as (S1 & B1 & La1).
    rewrite S1, La1. rewrite (proj2 (Z.ltb_ge BLOCK_SIZE_MAX BLOCK_SIZE_MAX)) by lia.
    cbn [negb mbind option_bind].
    assert (First1 : block_get_flag_first m1 b = true).
    { unfold block_get_flag_first, size_prev_of, sizeof_size_t.
      rewrite F1 by lia. rewrite P. reflexivity. }
    cbn [mem]. rewrite First1. cbn [negb mbind option_bind mem]. rewrite First1, La1.
    cbn [andb]. eexists. split; [reflexivity |].
    unfold kernel_free. cbn [mem blocks_tree mapped trace].
    rewrite Hfilter, <- app_assoc. repeat split.
Qed.

End FreshArena.

(** ** An oversized request served and freed again *)

Section Oversized.
Context {cfg : Config} (Hcfg : config_ok cfg).

(** X9: an oversized request that the page provider serves, freed at once:
    [mem_alloc] does not touch the index, the mapping it records has the
    length of the block plus its header, and [mem_free] unmaps the same base
    with the same length; the index and the mappings are as before. *)
Theorem mem_alloc_free_oversized (k : Z -> Z) (st : State) (s b : Z) :
  ARENA_SIZE <= s -> s + ALIGN + BLOCK_STRUCT_SIZE <= SIZE_MAX ->
  let n := ROUND_BYTES s / ALLOCATOR_PAGE_SIZE * ALLOCATOR_PAGE_SIZE + BLOCK_STRUCT_SIZE in
  k n = b -> 0 < b ->
  Forall (fun a : Z * Z => a.1 <> b) (mapped st) ->
  exists st1 st2,
    mem_alloc k st s = Some (block_to_payload b, st1) /\
    blocks_tree st1 = blocks_tree st /\
    mapped st1 = (b, n) :: mapped st /\
    block_get_size_curr (mem st1) b + BLOCK_STRUCT_SIZE = n /\
    mem_free st1 (block_to_payload b) = Some st2 /\
    blocks_tree st2 = blocks_tree st /\
    mapped st2 = mapped st /\
    trace st2 = trace st ++ [EKernelAlloc n b; EKernelFree b n].
Proof.
  intros Hbig Hroom n Hk Hb Hfresh.
  pose proof (sizes_fit Hcfg) as (HH & HH4 & HM & HM4).
  pose proof (BLOCK_SIZE_MAX_eq Hcfg) as EM.
  pose proof (ARENA_SIZE_range Hcfg) as HA.
  pose proof (ALIGN_range Hcfg) as Hal.
  pose proof (PAGE_range Hcfg) as Hpg.
  assert (Hs0 : 0 <= s) by lia.
  assert (Hs1 : s + ALIGN - 1 <= SIZE_MAX) by lia.
  destruct (ROUND_BYTES_bounds Hcfg s Hs0 Hs1) as (HR & HRal).
  set (R := ROUND_BYTES s) in *.
  set (fp := R / ALLOCATOR_PAGE_SIZE * ALLOCATOR_PAGE_SIZE) in *.
  assert (Hfp : ARENA_SIZE <= fp <= R).
  { unfold fp. split.
    - unfold ARENA_SIZE. apply Z.mul_le_mono_nonneg_r; [lia |].
      apply Z.div_le_lower_bound; [lia |]. unfold ARENA_SIZE in *. lia.
    - rewrite Z.mul_comm. apply Z.mul_div_le. lia. }
  assert (Hfp4 : fp mod 4 = 0).
  { apply (align_mod_4 Hcfg). apply (page_mod_align Hcfg). unfold fp. apply Z.mod_mul. lia. }
  assert (Hfilter : filter (fun bs : Z * Z => bs.1 <> b) ((b, n) :: mapped st) = mapped st).
  { rewrite filter_cons_False by (cbn; tauto).
    clear -Hfresh. induction Hfresh as [| x l Hx _ IH]; [reflexivity |].
    rewrite filter_cons_True by assumption. rewrite IH. reflexivity. }
  assert (Ealloc : mem_alloc k st s
    = Some (block_to_payload b,
            mkState (arena_init (mem st) b fp) (blocks_tree st) ((b, n) :: mapped st)
                    (trace st ++ [EKernelAlloc n b]))).
  { unfold mem_alloc.
    rewrite (proj2 (Z.ltb_lt BLOCK_SIZE_MAX s)) by lia.
    rewrite (size_sub_small ALIGN 1) by (unfold SIZE_MAX; lia).
    rewrite size_sub_small by (unfold SIZE_MAX; lia).
    rewrite (proj2 (Z.ltb_ge _ s)) by lia.
    fold R. rewrite size_mul_small by (fold fp; lia). fold fp.
    rewrite size_add_small by lia. fold n.
    unfold arena_alloc, kernel_alloc.
    rewrite (proj2 (Z.ltb_lt BLOCK_SIZE_MAX n)) by (unfold n; lia).
    rewrite Hk. rewrite (proj2 (Z.eqb_neq b NULL)) by (unfold NULL; lia).
    cbn [negb]. unfold with_mem. cbn [mem blocks_tree mapped trace].
    rewrite size_sub_small by (unfold n; lia).
    replace (n - BLOCK_STRUCT_SIZE) with fp by (unfold n; lia). reflexivity. }
  destruct (arena_init_words (mem st) b fp) as (L0 & _); [lia | assumption | lia |].
  set (m0 := arena_init (mem st) b fp) in *.
  assert (W0 : size_word (load m0 (size_curr_of b)) fp false true).
  { unfold size_curr_of. rewrite L0. repeat split; first [assumption | lia]. }
  eexists. eexists. split; [exact Ealloc |]. cbn [mem blocks_tree mapped trace].
  destruct (block_fields_of_word _ _ _ _ _ W0) as (S0 & _).
  split; [reflexivity |]. split; [reflexivity |]. split; [rewrite S0; unfold n; lia |].
  unfold mem_free.
  rewrite (proj2 (Z.eqb_neq (block_to_payload b) NULL))
    by (unfold block_to_payload, NULL; lia).
  replace (payload_to_block (block_to_payload b)) with b
    by (unfold payload_to_block, block_to_payload; lia).
  unfold with_mem. cbn [mem blocks_tree mapped trace].
  assert (W1 : size_word (load (block_clr_flag_busy m0 b) (size_curr_of b)) fp false true).
  { unfold block_clr_flag_busy. rewrite load_store_eq.
    apply word_clr_busy with (b := false). exact W0. }
  destruct (block_fields_of_word _ _ _ _ _ W1) as (-> & _).
  rewrite (proj2 (Z.ltb_lt BLOCK_SIZE_MAX fp)) by lia.
  rewrite size_add_small by lia. fold n.
  split; [reflexivity |].
  unfold kernel_free. cbn [mem blocks_tree mapped trace].
  rewrite Hfilter, <- app_assoc. repeat split.
Qed.

End Oversized.

(** ** [mem_realloc] to the size the block has *)

Section SameSize.
Context {cfg : Config} (Hcfg : config_ok cfg).

Lemma round_up_exact a c x :
  0 < a -> c mod a = 0 -> c - a < x <= c -> a * ((x + a - 1) / a) = c.
Proof.
  intros Ha Hc Hx.
  pose proof (Z.div_mod c a ltac:(lia)) as E. rewrite Hc in E.
  assert ((x + a - 1) / a = c / a); [| lia].
  symmetry. apply Z.div_unique with (r := x + a - 1 - c); lia.
Qed.

(** X10: [mem_realloc] with a request that normalises to the size the block
    has, that is a request in [(size_curr - ALIGN, size_curr]], returns the
    same pointer and changes nothing; this holds for oversized blocks as
    well. *)
Theorem mem_realloc_same_size (k : Z -> Z) (st : State) (ptr1 s : Z) :
  ptr1 <> NULL ->
  let c := block_get_size_curr (mem st) (payload_to_block ptr1) in
  BLOCK_SIZE_MIN <= c <= SIZE_MAX -> c mod ALIGN = 0 ->
  0 <= s -> c - ALIGN < s <= c ->
  mem_realloc k st ptr1 s = Some (ptr1, st).
Proof.
  intros Hnn c Hc Hcal Hs0 Hs.
  pose proof (ALIGN_range Hcfg) as Hal.
  pose proof (BLOCK_SIZE_MIN_bounds Hcfg) as (HM & HMal).
  pose proof (ok_node _ Hcfg) as Hnode.
  pose proof (aligned_room Hcfg c ltac:(lia) Hcal) as Hroom.
  assert (Hnorm : ROUND_BYTES (if s <? BLOCK_SIZE_MIN then BLOCK_SIZE_MIN else s) = c).
  { destruct (Z.ltb_spec s BLOCK_SIZE_MIN) as [Hlt | Hge].
    - rewrite (ROUND_BYTES_aligned Hcfg) by (try assumption; lia).
      assert (Hnz : ALIGN <> 0) by lia.
      pose proof (Z.div_mod c ALIGN Hnz) as E1. rewrite Hcal in E1.
      pose proof (Z.div_mod BLOCK_SIZE_MIN ALIGN Hnz) as E2. rewrite HMal in E2.
      assert (c / ALIGN < BLOCK_SIZE_MIN / ALIGN + 1) by (apply Z.mul_lt_mono_pos_l with ALIGN; lia).
      assert (BLOCK_SIZE_MIN / ALIGN <= c / ALIGN) by (apply Z.mul_le_mono_pos_l with ALIGN; lia).
      assert (c / ALIGN = BLOCK_SIZE_MIN / ALIGN) as Eq by lia.
      rewrite Eq in E1. lia.
    - rewrite (ROUND_BYTES_eq Hcfg) by lia.
      apply round_up_exact; [lia | assumption | lia]. }
  unfold mem_realloc. rewrite Hnorm.
  rewrite (proj2 (Z.eqb_neq ptr1 NULL) Hnn). fold c.
  rewrite Z.eqb_refl.
  destruct (BLOCK_SIZE_MAX <? c); reflexivity.
Qed.

End SameSize.

(** ** What [mem_alloc] and [mem_free] ask of the page provider *)

Section Traces.
Context {cfg : Config}.

Lemma tree_remove_block_frame st block st' :
  tree_remove_block st block = Some st' ->
  mem st' = mem st /\ mapped st' = mapped st /\ trace st' = trace st.
Proof.
  unfold tree_remove_block. destruct (negb _); cbn; [| discriminate].
  intros [= <-]. repeat split.
Qed.

(** X11: [mem_alloc] calls the page provider at most once and only through
    [kernel_alloc]: it adds at most one event to the trace, and at most one
    mapping, the one of that call; it never unmaps. *)
Theorem mem_alloc_trace (k : Z -> Z) (st : State) (s p : Z) (st' : State) :
  mem_alloc k st s = Some (p, st') ->
  (trace st' = trace st /\ mapped st' = mapped st) \/
  (exists n,
     trace st' = trace st ++ [EKernelAlloc n (k n)] /\
     (mapped st' = mapped st \/ mapped st' = (k n, n) :: mapped st)).
Proof.
  assert (Harena : forall st0 size block st1,
    arena_alloc k st0 size = (block, st1) ->
    exists n, trace st1 = trace st0 ++ [EKernelAlloc n (k n)] /\
              (mapped st1 = mapped st0 \/ mapped st1 = (k n, n) :: mapped st0)).
  { intros st0 size block st1. unfold arena_alloc, kernel_alloc.
    destruct (BLOCK_SIZE_MAX <? size);
      [exists size | exists ARENA_SIZE];
      destruct (_ =? NULL); cbn [negb] in *; injection H as <- <-; cbn; auto. }
  assert (Hsplit : forall st0 block a q st1,
    mem_alloc_split st0 block a = Some (q, st1) ->
    trace st1 = trace st0 /\ mapped st1 = mapped st0).
  { intros st0 block a q st1. unfold mem_alloc_split.
    destruct (block_split _ _ _) as [block_r m].
    destruct (negb (block_r =? NULL)).
    - destruct (tree_add_block _ _) as [st2 |] eqn:Ea; cbn; [| discriminate].
      apply tree_add_block_frame in Ea as (_ & Hm & Ht).
      intros [= _ <-]. rewrite Hm, Ht. split; reflexivity.
    - cbn. intros [= _ <-]. split; reflexivity. }
  unfold mem_alloc.
  destruct (BLOCK_SIZE_MAX <? s).
  - destruct (_ <? s).
    + intros [= _ <-]. left. split; reflexivity.
    + destruct (arena_alloc _ _ _) as [block st1] eqn:Ea.
      apply Harena in Ea. intros [= _ <-]. right. exact Ea.
  - destruct (_ =? NULL).
    + destruct (arena_alloc _ _ _) as [block st1] eqn:Ea.
      apply Harena in Ea as (n & Ht & Hm).
      destruct (block =? NULL).
      * intros [= _ <-]. right. exists n. split; assumption.
      * intros Hs. apply Hsplit in Hs as (Ht' & Hm').
        right. exists n. rewrite Ht', Hm'. split; assumption.
    + intros Hs. apply Hsplit in Hs as (Ht' & Hm'). left.
      rewrite Ht', Hm'. split; reflexivity.
Qed.

(** X12: [mem_free] adds at most one event to the trace, a [kernel_free]
    or a [kernel_reset], never a [kernel_alloc], and adds no mapping. *)
Theorem mem_free_trace (st : State) (p : Z) (st' : State) :
  mem_free st p = Some st' ->
  (trace st' = trace st \/
   (exists ptr n, trace st' = trace st ++ [EKernelFree ptr n]) \/
   (exists ptr n, trace st' = trace st ++ [EKernelReset ptr n])) /\
  (forall a, a ∈ mapped st' -> a ∈ mapped st).
Proof.
  unfold mem_free.
  destruct (p =? NULL); [intros [= <-]; split; [left; reflexivity | auto] |].
  set (block := payload_to_block p).
  set (st0 := with_mem st (block_clr_flag_busy (mem st) block)).
  assert (H0 : trace st0 = trace st /\ mapped st0 = mapped st) by (split; reflexivity).
  destruct H0 as (Ht0 & Hm0).
  assert (Hkf : forall st1 ptr n,
    trace st1 = trace st -> mapped st1 = mapped st ->
    (trace (kernel_free st1 ptr n) = trace st \/
     (exists ptr0 n0, trace (kernel_free st1 ptr n) = trace st ++ [EKernelFree ptr0 n0]) \/
     (exists ptr0 n0, trace (kernel_free st1 ptr n) = trace st ++ [EKernelReset ptr0 n0])) /\
    (forall a, a ∈ mapped (kernel_free st1 ptr n) -> a ∈ mapped st)).
  { intros st1 ptr n Ht Hm. unfold kernel_free. cbn. rewrite Ht, Hm. split.
    - right. left. eauto.
    - intros a Ha. apply list_elem_of_filter in Ha. tauto. }
  destruct (BLOCK_SIZE_MAX <? _).
  { intros [= <-]. apply Hkf; assumption. }
  destruct (if negb (block_get_flag_last (mem st0) block) then _ else _)
    as [st1 |] eqn:E1; cbn [mbind option_bind]; [| discriminate].
  assert (H1 : trace st1 = trace st /\ mapped st1 = mapped st).
  { destruct (negb (block_get_flag_last (mem st0) block)).
    - destruct (negb (block_get_flag_busy _ _)).
      + destruct (tree_remove_block st0 _) as [st2 |] eqn:Er; cbn in E1; [| discriminate].
        apply tree_remove_block_frame in Er as (_ & Hm & Ht).
        destruct (block_merge _ _ _); cbn in E1; [| discriminate].
        injection E1 as <-. cbn. rewrite Hm, Ht. split; assumption.
      + injection E1 as <-. split; assumption.
    - injection E1 as <-. split; assumption. }
  destruct H1 as (Ht1 & Hm1).
  destruct (if negb (block_get_flag_first (mem st1) block) then _ else _)
    as [[block2 st2] |] eqn:E2; cbn [mbind option_bind]; [| discriminate].
  assert (H2 : trace st2 = trace st /\ mapped st2 = mapped st).
  { clear E1. destruct (negb (block_get_flag_first (mem st1) block)).
    - destruct (negb (block_get_flag_busy _ _)).
      + destruct (tree_remove_block st1 _) as [st3 |] eqn:Er; cbn in E2; [| discriminate].
        apply tree_remove_block_frame in Er as (_ & Hm & Ht).
        destruct (block_merge _ _ _); cbn in E2; [| discriminate].
        injection E2 as _ <-. cbn. rewrite Hm, Ht. split; assumption.
      + injection E2 as _ <-. split; assumption.
    - injection E2 as _ <-. split; assumption. }
  destruct H2 as (Ht2 & Hm2).
  destruct (_ && _).
  { intros [= <-]. apply Hkf; assumption. }
  destruct (block_dontneed st2 block2) as [st3 |] eqn:Ed; cbn [mbind option_bind];
    [| discriminate].
  intros Ha. apply tree_add_block_frame in Ha as (_ & Hm & Ht).
  rewrite Hm, Ht.
  unfold block_dontneed in Ed.
  destruct (_ <? ALLOCATOR_PAGE_SIZE).
  { injection Ed as <-. rewrite Ht2, Hm2. split; [left; reflexivity | auto]. }
  destruct (dontneed_offsets _ _) as [o1 o2].
  destruct (o1 =? o2).
  { injection Ed as <-. rewrite Ht2, Hm2. split; [left; reflexivity | auto]. }
  destruct (assert _); cbn in Ed; [| discriminate].
  injection Ed as <-. unfold kernel_reset. cbn. rewrite Ht2, Hm2.
  split; [right; right; eauto | auto].
Qed.

End Traces.

(** ** What [block_dontneed] leaves alone *)

Section DontneedFrame.
Context {cfg : Config} (Hcfg : config_ok cfg).

Lemma load_erase_range (m : Memory) (lo len a : Z) :
  ~ (lo - sizeof_size_t < a < lo + len) -> load (erase_range m lo len) a = load m a.
Proof.
  intros Ha. unfold load, erase_range. rewrite map_lookup_filter.
  destruct (m !! a) as [v |]; cbn; [| reflexivity].
  rewrite option_guard_True by exact Ha. reflexivity.
Qed.

(** The range that [block_dontneed] hands to [kernel_reset], in addresses. *)
Lemma block_dontneed_range (st : State) (block : Z) :
  let size_curr := block_get_size_curr (mem st) block in
  let offset := block_get_offset (mem st) block in
  is_size_t offset ->
  sizeof_tree_node_type <= size_curr ->
  offset + size_curr + BLOCK_STRUCT_SIZE <= SIZE_MAX ->
  block_dontneed st block = Some st \/
  exists lo len,
    block_dontneed st block = Some (kernel_reset st lo len) /\
    block + BLOCK_STRUCT_SIZE + sizeof_tree_node_type <= lo /\
    lo + len <= block + BLOCK_STRUCT_SIZE + size_curr /\
    0 < len /\ len mod ALLOCATOR_PAGE_SIZE = 0 /\
    (lo - (block - offset)) mod ALLOCATOR_PAGE_SIZE = 0.
Proof.
  intros size_curr offset Hoff Hnode' Hend.
  pose proof (BLOCK_STRUCT_SIZE_bounds Hcfg) as (HH & _).
  pose proof (ok_node _ Hcfg) as Hnode.
  pose proof (PAGE_range Hcfg) as Hpage.
  destruct (ok_page _ Hcfg) as (kp & Hkp & Ep).
  unfold block_dontneed. fold size_curr offset.
  unfold sizeof_Block, sizeof_size_t, is_size_t in *.
  rewrite (size_sub_small size_curr) by lia.
  destruct (Z.ltb_spec (size_curr - sizeof_tree_node_type) ALLOCATOR_PAGE_SIZE) as [Hlt | Hge];
    [left; reflexivity |].
  unfold dontneed_offsets. fold size_curr offset.
  set (x := offset + BLOCK_STRUCT_SIZE + sizeof_tree_node_type).
  set (y := offset + size_curr + BLOCK_STRUCT_SIZE).
  rewrite (size_add_small offset BLOCK_STRUCT_SIZE) by lia.
  rewrite (size_add_small (offset + BLOCK_STRUCT_SIZE)) by lia. fold x.
  rewrite (size_add_small offset size_curr) by lia.
  rewrite (size_add_small (offset + size_curr)) by lia. fold y.
  rewrite (size_sub_small ALLOCATOR_PAGE_SIZE 1) by (unfold SIZE_MAX; lia).
  set (q1 := (x + ALLOCATOR_PAGE_SIZE - 1) / ALLOCATOR_PAGE_SIZE).
  set (q2 := y / ALLOCATOR_PAGE_SIZE).
  assert (E1 : Z.land (size_sub (size_add x ALLOCATOR_PAGE_SIZE) 1)
                      (size_not (ALLOCATOR_PAGE_SIZE - 1)) = ALLOCATOR_PAGE_SIZE * q1).
  { unfold q1. rewrite Ep. apply round_up_pow2; unfold x; lia. }
  assert (E2 : Z.land y (size_not (ALLOCATOR_PAGE_SIZE - 1)) = ALLOCATOR_PAGE_SIZE * q2).
  { unfold q2. rewrite Ep. apply round_down_pow2; unfold y; lia. }
  rewrite E1, E2.
  assert (Hq : q1 <= q2).
  { unfold q1, q2. apply Z.div_le_mono; [lia | unfold x, y; lia]. }
  assert (Hq1 : x <= ALLOCATOR_PAGE_SIZE * q1).
  { assert (Hp0 : 0 < ALLOCATOR_PAGE_SIZE) by lia.
    pose proof (round_up_bounds ALLOCATOR_PAGE_SIZE x Hp0) as (Hb & _).
    fold q1 in Hb. lia. }
  assert (Hq2 : ALLOCATOR_PAGE_SIZE * q2 <= y).
  { unfold q2. apply Z.mul_div_le. lia. }
  assert (Hq0 : 0 <= q1).
  { unfold q1. apply Z.div_pos; unfold x; lia. }
  destruct (Z.eqb_spec (ALLOCATOR_PAGE_SIZE * q1) (ALLOCATOR_PAGE_SIZE * q2)) as [Heq | Hne];
    [left; reflexivity |].
  right.
  rewrite (size_sub_small (ALLOCATOR_PAGE_SIZE * q2)) by nia.
  rewrite (size_sub_small (ALLOCATOR_PAGE_SIZE * q1)) by nia.
  assert (Hmod : (ALLOCATOR_PAGE_SIZE * q2 - ALLOCATOR_PAGE_SIZE * q1) mod ALLOCATOR_PAGE_SIZE = 0).
  { replace (ALLOCATOR_PAGE_SIZE * q2 - ALLOCATOR_PAGE_SIZE * q1)
      with ((q2 - q1) * ALLOCATOR_PAGE_SIZE) by lia.
    apply Z.mod_mul. lia. }
  replace (Z.land (ALLOCATOR_PAGE_SIZE * q2 - ALLOCATOR_PAGE_SIZE * q1) (ALLOCATOR_PAGE_SIZE - 1))
    with 0 by (rewrite <- Hmod; rewrite Ep at 3 6; rewrite land_low_mask by lia; reflexivity).
  cbn [assert mbind option_bind Z.eqb].
  eexists. eexists. split; [reflexivity |].
  repeat split; try (unfold x, y in *; nia); try assumption.
  replace (block + (ALLOCATOR_PAGE_SIZE * q1 - offset) - (block - offset))
    with (q1 * ALLOCATOR_PAGE_SIZE) by lia.
  apply Z.mod_mul. lia.
Qed.

(** X13: [block_dontneed] on a block that can hold its index node and lies
    within the address space succeeds and touches only the inside of the
    payload: the index and the mappings are unchanged, and every word that
    ends at or before the end of the index node, the header included, and
    every word from the end of the block on is as before.  It calls the page
    provider at most once, with [kernel_reset] on a range of whole pages
    that starts at a page boundary of the arena, and only when the block is
    at least a page larger than an index node. *)
Theorem block_dontneed_frame (st : State) (block : Z) :
  let size_curr := block_get_size_curr (mem st) block in
  let offset := block_get_offset (mem st) block in
  is_size_t offset ->
  sizeof_tree_node_type <= size_curr ->
  offset + size_curr + BLOCK_STRUCT_SIZE <= SIZE_MAX ->
  exists st',
    block_dontneed st block = Some st' /\
    blocks_tree st' = blocks_tree st /\
    mapped st' = mapped st /\
    (forall a, a + sizeof_size_t <= block + BLOCK_STRUCT_SIZE + sizeof_tree_node_type \/
               block + BLOCK_STRUCT_SIZE + size_curr <= a ->
               load (mem st') a = load (mem st) a) /\
    (trace st' = trace st \/
     exists lo len,
       trace st' = trace st ++ [EKernelReset lo len] /\
       0 < len /\ len mod ALLOCATOR_PAGE_SIZE = 0 /\
       (lo - (block - offset)) mod ALLOCATOR_PAGE_SIZE = 0 /\
       (size_curr - sizeof_tree_node_type >= ALLOCATOR_PAGE_SIZE)).
Proof.
  intros size_curr offset Hoff Hnode Hend.
  destruct (block_dontneed_range st block Hoff Hnode Hend)
    as [E | (lo & len & E & Hlo & Hhi & Hlen & Hmod & Hbase)].
  - exists st. repeat split; auto.
  - exists (kernel_reset st lo len). split; [exact E |].
    cbn [kernel_reset mem blocks_tree mapped trace].
    split; [reflexivity |]. split; [reflexivity |]. split.
    + intros a Ha. apply load_erase_range. fold size_curr in Hhi.
      unfold sizeof_size_t in *. lia.
    + right. exists lo, len. repeat split; try assumption.
      unfold block_dontneed in E. fold size_curr in E.
      destruct (Z.ltb_spec (size_sub size_curr sizeof_tree_node_type) ALLOCATOR_PAGE_SIZE)
        as [Hlt | Hge].
      * injection E as E. exfalso.
        assert (Ht : trace st = trace (kernel_reset st lo len)) by (rewrite <- E; reflexivity).
        cbn in Ht. apply (f_equal length) in Ht. rewrite length_app in Ht. cbn in Ht. lia.
      * pose proof (ok_node _ Hcfg). pose proof (BLOCK_STRUCT_SIZE_bounds Hcfg) as (HH & _).
        unfold is_size_t, sizeof_Block, sizeof_size_t in *.
        rewrite size_sub_small in Hge by lia. lia.
Qed.

End DontneedFrame.

(** ** [mem_realloc] resizing a block where it lies *)

Section ReallocInPlace.
Context {cfg : Config} (Hcfg : config_ok cfg).

Lemma normalised_id s :
  BLOCK_SIZE_MIN <= s <= SIZE_MAX -> s mod ALIGN = 0 ->
  ROUND_BYTES (if s <? BLOCK_SIZE_MIN then BLOCK_SIZE_MIN else s) = s.
Proof.
  intros Hs Hal. rewrite (proj2 (Z.ltb_ge s BLOCK_SIZE_MIN)) by lia.
  pose proof (sizes_fit Hcfg) as (_ & _ & HM & _).
  apply (ROUND_BYTES_aligned Hcfg); [lia | assumption].
Qed.

(** X14: [mem_realloc] to a smaller size on a block that is not the last of
    its arena, when the bytes given up can hold a header and a minimal block:
    the pointer is unchanged, the block has the new size and stays busy, every
    word of the payload that ends at or before the new size is untouched, and
    the page provider is not called.  The rest becomes a free block that is
    the right neighbour; when the former right neighbour is free it is taken
    out of the index and absorbed, and the free block, with its final size, is
    put into the index. *)
Theorem mem_realloc_shrink_in_place (k : Z -> Z) (st : State) (ptr1 s c cn : Z)
    (b bn ln : bool) :
  let block := payload_to_block ptr1 in
  let block_r := block + BLOCK_STRUCT_SIZE + s in
  let block_n := block + BLOCK_STRUCT_SIZE + c in
  let rest := c - s - BLOCK_STRUCT_SIZE in
  let size_r := if bn then rest else rest + cn + BLOCK_STRUCT_SIZE in
  0 < ptr1 ->
  size_word (load (mem st) (size_curr_of block)) c b false ->
  size_word (load (mem st) (size_curr_of block_n)) cn bn ln ->
  c <= BLOCK_SIZE_MAX -> cn <= BLOCK_SIZE_MAX ->
  BLOCK_SIZE_MIN <= s -> s mod ALIGN = 0 ->
  BLOCK_STRUCT_SIZE + BLOCK_SIZE_MIN <= c - s ->
  exists st',
    mem_realloc k st ptr1 s = Some (ptr1, st') /\
    block_get_size_curr (mem st') block = s /\
    block_get_flag_busy (mem st') block = true /\
    block_next (mem st') block = block_r /\
    block_get_size_curr (mem st') block_r = size_r /\
    block_get_flag_busy (mem st') block_r = false /\
    block_get_flag_last (mem st') block_r = (if bn then false else ln) /\
    block_prev (mem st') block_r = block /\
    (block_get_flag_last (mem st') block_r = false ->
     block_get_size_prev (mem st') (block_next (mem st') block_r) = size_r) /\
    blocks_tree st'
    = (block_to_node block_r, size_r)
        :: (if bn then blocks_tree st
            else tree_remove (blocks_tree st) (block_to_node block_n)) /\
    mapped st' = mapped st /\ trace st' = trace st /\
    (forall a, ptr1 <= a -> a + sizeof_size_t <= ptr1 + s -> load (mem st') a = load (mem st) a).
Proof.
  intros block block_r block_n rest size_r Hptr Hw Hwn Hc Hcn Hs Hal Hfit.
  pose proof (sizes_fit Hcfg) as (HH & HH4 & HM & HM4).
  pose proof (BLOCK_SIZE_MAX_facts Hcfg) as ((Hmin & Hmax) & HMal).
  assert (Hs4 : s mod 4 = 0) by (apply (align_mod_4 Hcfg); assumption).
  assert (Hptr1 : ptr1 = block + BLOCK_STRUCT_SIZE) by (unfold block, payload_to_block; lia).
  destruct (block_fields_of_word _ _ _ _ _ Hw) as (Sc & Bc & Lc).
  pose proof Hw as (_ & Hc0 & Hc4 & _).
  pose proof Hwn as (_ & Hcn0 & Hcn4 & _).
  destruct (block_split_mem Hcfg (mem st) block s c b false Hw Hs4 ltac:(lia) Hfit)
    as (m1 & Es & L1b & L1r & P1r & O1r & P1n & F1).
  fold block_r rest in Es, L1b, L1r, P1r, O1r, P1n, F1.
  specialize (P1n eq_refl).
  replace (block_r + BLOCK_STRUCT_SIZE + rest + 8) with (block_n + 8) in P1n, F1
    by (unfold block_r, block_n, rest; lia).
  assert (Hr4 : rest mod 4 = 0).
  { unfold rest. apply diff_mod_4; [apply diff_mod_4 |]; assumption. }
  assert (W1b : size_word (load m1 (size_curr_of block)) s true false).
  { unfold size_curr_of. rewrite L1b. repeat split; first [assumption | unfold SIZE_MAX; lia]. }
  assert (W1r : size_word (load m1 (size_curr_of block_r)) rest false false).
  { unfold size_curr_of. rewrite L1r.
    repeat split; first [assumption | unfold rest, SIZE_MAX; lia]. }
  assert (W1n : size_word (load m1 (size_curr_of block_n)) cn bn ln).
  { unfold size_curr_of in *. rewrite F1; [exact Hwn | unfold block_n, block_r; lia ..]. }
  destruct (block_fields_of_word _ _ _ _ _ W1r) as (S1r & B1r & La1r).
  destruct (block_fields_of_word _ _ _ _ _ W1n) as (S1n & B1n & La1n).
  assert (Epre : mem_realloc k st ptr1 s
    = (st1 ← (if negb bn then
               st0 ← tree_remove_block (with_mem st m1) block_n;
               m ← block_merge (mem st0) block_r block_n;
               Some (with_mem st0 m)
             else Some (with_mem st m1));
       st2 ← tree_add_block st1 block_r;
       Some (ptr1, st2))).
  { unfold mem_realloc.
    rewrite (normalised_id s) by (try assumption; unfold SIZE_MAX; lia).
    rewrite (proj2 (Z.eqb_neq ptr1 NULL)) by (unfold NULL; lia).
    fold block. rewrite Sc, Lc.
    rewrite (proj2 (Z.ltb_ge BLOCK_SIZE_MAX c)) by lia.
    rewrite (proj2 (Z.eqb_neq s c)) by lia.
    rewrite (proj2 (Z.ltb_lt s c)) by lia.
    cbn [negb andb]. rewrite Es.
    rewrite (proj2 (Z.eqb_neq block_r NULL)) by (unfold NULL, block_r; lia).
    cbn [negb]. change (mem (with_mem st m1)) with m1.
    replace (block_next m1 block_r) with block_n
      by (unfold block_next; rewrite S1r; unfold block_n, block_r, rest; lia).
    rewrite B1n. unfold block_to_payload. rewrite <- Hptr1. reflexivity. }
  rewrite Epre. clear Epre.
  assert (Hfin : forall m2 t2 sz lz,
    size_word (load m2 (size_curr_of block)) s true false ->
    size_word (load m2 (size_curr_of block_r)) sz false lz ->
    load m2 (block_r + 8) = s ->
    (lz = false -> load m2 (block_r + BLOCK_STRUCT_SIZE + sz + 8) = sz) ->
    (forall a, ptr1 <= a -> a + sizeof_size_t <= ptr1 + s -> load m2 a = load (mem st) a) ->
    exists st',
      (st2 ← tree_add_block (mkState m2 t2 (mapped st) (trace st)) block_r;
       Some (ptr1, st2)) = Some (ptr1, st') /\
      block_get_size_curr (mem st') block = s /\
      block_get_flag_busy (mem st') block = true /\
      block_next (mem st') block = block_r /\
      block_get_size_curr (mem st') block_r = sz /\
      block_get_flag_busy (mem st') block_r = false /\
      block_get_flag_last (mem st') block_r = lz /\
      block_prev (mem st') block_r = block /\
      (block_get_flag_last (mem st') block_r = false ->
       block_get_size_prev (mem st') (block_next (mem st') block_r) = sz) /\
      blocks_tree st' = (block_to_node block_r, sz) :: t2 /\
      mapped st' = mapped st /\ trace st' = trace st /\
      (forall a, ptr1 <= a -> a + sizeof_size_t <= ptr1 + s -> load (mem st') a = load (mem st) a)).
  { intros m2 t2 sz lz W2b W2r P2 N2 F2.
    destruct (block_fields_of_word _ _ _ _ _ W2b) as (S2b & B2b & _).
    destruct (block_fields_of_word _ _ _ _ _ W2r) as (S2r & B2r & L2r).
    unfold tree_add_block, with_tree. cbn [mem blocks_tree mapped trace].
    rewrite B2r, S2r. cbn [negb assert mbind option_bind].
    eexists. split; [reflexivity |]. cbn [mem blocks_tree mapped trace].
    unfold block_next, block_prev, block_get_size_prev, size_prev_of, sizeof_size_t.
    rewrite S2b, S2r, L2r, P2.
    repeat split; try assumption; try reflexivity; try (unfold block_r; lia). }
  destruct bn; cbn [negb mbind option_bind].
  - unfold with_mem. apply Hfin; try assumption.
    + intros _. replace (block_r + BLOCK_STRUCT_SIZE + rest + 8) with (block_n + 8)
        by (unfold block_r, block_n, rest; lia). exact P1n.
    + intros a Ha Ha'. unfold sizeof_size_t in Ha'. apply F1; unfold block_r, block_n; lia.
  - unfold tree_remove_block, with_mem, with_tree. cbn [mem blocks_tree mapped trace].
    rewrite B1n. cbn [negb assert mbind option_bind mem blocks_tree mapped trace].
    destruct (block_merge_mem Hcfg m1 block_r block_n rest cn false false ln W1r W1n)
      as (m2 & Em & L2r & N2 & F2);
      [unfold block_r, block_n, rest; lia | unfold SIZE_MAX; lia |].
    rewrite Em. cbn [mbind option_bind mem blocks_tree mapped trace].
    apply Hfin.
    + unfold size_curr_of in *. rewrite F2; [exact W1b | unfold block_r; lia |].
      intros _. unfold block_n. lia.
    + unfold size_curr_of. rewrite L2r. cbn [orb].
      repeat split; first [unfold rest, SIZE_MAX; lia | idtac].
      apply sum_mod_4; [apply sum_mod_4 |]; assumption.
    + rewrite F2; [exact P1r | unfold block_r; lia |].
      intros _. unfold block_n, block_r. lia.
    + intros Hl. etransitivity; [| exact (N2 Hl)].
      f_equal. unfold block_n, block_r, rest. lia.
    + intros a Ha Ha'. unfold sizeof_size_t in Ha'.
      rewrite F2; [apply F1; unfold block_r, block_n; lia | unfold block_r; lia |].
      intros _. unfold block_n. lia.
Qed.


End ReallocInPlace.

(** ** [mem_free] joining a block with its free neighbours *)

Section Coalesce.
Context {cfg : Config} (Hcfg : config_ok cfg).

(** The first step of [mem_free]: the right neighbour, when it is free, is
    taken out of the index and absorbed. *)
Lemma free_step_right (st0 : State) (block c cn : Z) (l bn ln : bool) :
  let block_n := block + BLOCK_STRUCT_SIZE + c in
  let mr := negb l && negb bn in
  let c1 := c + (if mr then cn + BLOCK_STRUCT_SIZE else 0) in
  let l1 := if mr then ln else l in
  size_word (load (mem st0) (size_curr_of block)) c false l ->
  (l = false -> size_word (load (mem st0) (size_curr_of block_n)) cn bn ln) ->
  (mr = true -> c + cn + BLOCK_STRUCT_SIZE + 3 <= SIZE_MAX) ->
  exists m1,
    (if negb (block_get_flag_last (mem st0) block) then
       if negb (block_get_flag_busy (mem st0) (block_next (mem st0) block)) then
         st ← tree_remove_block st0 (block_next (mem st0) block);
         m ← block_merge (mem st) block (block_next (mem st0) block);
         Some (with_mem st m)
       else Some st0
     else Some st0)
    = Some (mkState m1
              (if mr then tree_remove (blocks_tree st0) (block_to_node block_n)
               else blocks_tree st0)
              (mapped st0) (trace st0)) /\
    size_word (load m1 (size_curr_of block)) c1 false l1 /\
    (mr = true -> l1 = false -> load m1 (block + BLOCK_STRUCT_SIZE + c1 + 8) = c1) /\
    (forall a, a <> block -> a <> block + BLOCK_STRUCT_SIZE + c1 + 8 ->
               load m1 a = load (mem st0) a).
Proof.
  intros block_n mr c1 l1 Hw Hwn Hmax.
  pose proof (sizes_fit Hcfg) as (HH & HH4 & HM & HM4).
  destruct (block_fields_of_word _ _ _ _ _ Hw) as (Sc & Bc & Lc).
  rewrite Lc.
  assert (Hsame : st0 = mkState (mem st0) (blocks_tree st0) (mapped st0) (trace st0))
    by (destruct st0; reflexivity).
  destruct l; cbn [negb andb] in *.
  { exists (mem st0). subst mr c1 l1. cbn [negb andb]. rewrite Z.add_0_r.
    split; [congruence |]. split; [assumption | split; [discriminate | auto]]. }
  specialize (Hwn eq_refl).
  replace (block_next (mem st0) block) with block_n
    by (unfold block_next; rewrite Sc; reflexivity).
  destruct (block_fields_of_word _ _ _ _ _ Hwn) as (Sn & Bn & Ln).
  rewrite Bn.
  destruct bn; cbn [negb andb] in *.
  { exists (mem st0). subst mr c1 l1. cbn [negb andb]. rewrite Z.add_0_r.
    split; [congruence |]. split; [assumption | split; [discriminate | auto]]. }
  subst mr c1 l1. cbn [negb andb] in *. specialize (Hmax eq_refl).
  unfold tree_remove_block. rewrite Bn.
  cbn [negb assert mbind option_bind]. unfold with_tree, with_mem.
  cbn [mem blocks_tree mapped trace].
  destruct (block_merge_mem Hcfg (mem st0) block block_n c cn false false ln Hw Hwn)
    as (m1 & Em & L1 & N1 & F1); [reflexivity | assumption |].
  rewrite Em. cbn [mbind option_bind orb] in *.
  exists m1. split; [reflexivity |].
  pose proof Hw as (_ & Hc0 & Hc4 & _).
  pose proof Hwn as (_ & Hcn0 & Hcn4 & _).
  split; [| split].
  - unfold size_curr_of. rewrite L1.
    replace (c + (cn + BLOCK_STRUCT_SIZE)) with (c + cn + BLOCK_STRUCT_SIZE) by lia.
    repeat split; try lia.
    apply sum_mod_4; [apply sum_mod_4 |]; assumption.
  - intros _ Hl. etransitivity; [| etransitivity; [exact (N1 Hl) |]]; [f_equal |];
      unfold block_n; lia.
  - intros a Ha Hb. apply F1; [assumption |]. intros _. unfold block_n. lia.
Qed.

(** The second step: the block is absorbed by its left neighbour, when that
    one is free. *)
Lemma free_step_left (st1 : State) (block c1 p : Z) (l1 bl : bool) :
  let block_l := block - BLOCK_STRUCT_SIZE - p in
  let ml := negb (p =? 0) && negb bl in
  let F := if ml then block_l else block in
  let c2 := (if ml then p + BLOCK_STRUCT_SIZE else 0) + c1 in
  size_word (load (mem st1) (size_curr_of block)) c1 false l1 ->
  load (mem st1) (size_prev_of block) = p ->
  (p <> 0 -> size_word (load (mem st1) (size_curr_of block_l)) p bl false) ->
  (ml = true -> p + c1 + BLOCK_STRUCT_SIZE + 3 <= SIZE_MAX) ->
  exists m2,
    (if negb (block_get_flag_first (mem st1) block) then
       if negb (block_get_flag_busy (mem st1) (block_prev (mem st1) block)) then
         st ← tree_remove_block st1 (block_prev (mem st1) block);
         m ← block_merge (mem st) (block_prev (mem st1) block) block;
         Some (block_prev (mem st1) block, with_mem st m)
       else Some (block, st1)
     else Some (block, st1))
    = Some (F, mkState m2
                 (if ml then tree_remove (blocks_tree st1) (block_to_node block_l)
                  else blocks_tree st1)
                 (mapped st1) (trace st1)) /\
    size_word (load m2 (size_curr_of F)) c2 false l1 /\
    (ml = true -> l1 = false -> load m2 (block + BLOCK_STRUCT_SIZE + c1 + 8) = c2) /\
    (forall a, a <> F -> a <> block + BLOCK_STRUCT_SIZE + c1 + 8 ->
               load m2 a = load (mem st1) a) /\
    (ml = false -> m2 = mem st1).
Proof.
  intros block_l ml F c2 Hw Hp Hwl Hmax.
  pose proof (sizes_fit Hcfg) as (HH & HH4 & HM & HM4).
  assert (Hsame : st1 = mkState (mem st1) (blocks_tree st1) (mapped st1) (trace st1))
    by (destruct st1; reflexivity).
  unfold block_get_flag_first, block_prev, block_get_size_prev. rewrite Hp.
  fold block_l.
  destruct (Z.eqb_spec p 0) as [Hp0 | Hp0]; cbn [negb andb] in *.
  { exists (mem st1). subst ml F c2. cbn [negb andb]. rewrite Z.add_0_l.
    split; [congruence |]. split; [assumption | split; [discriminate | split; auto]]. }
  specialize (Hwl Hp0).
  destruct (block_fields_of_word _ _ _ _ _ Hwl) as (Sl & Bl & Ll).
  rewrite Bl.
  destruct bl; cbn [negb andb] in *.
  { exists (mem st1). subst ml F c2. cbn [negb andb]. rewrite Z.add_0_l.
    split; [congruence |]. split; [assumption | split; [discriminate | split; auto]]. }
  subst ml F c2. cbn [negb andb] in *. specialize (Hmax eq_refl).
  unfold tree_remove_block. rewrite Bl.
  cbn [negb assert mbind option_bind]. unfold with_tree, with_mem.
  cbn [mem blocks_tree mapped trace].
  destruct (block_merge_mem Hcfg (mem st1) block_l block p c1 false false l1 Hwl Hw)
    as (m2 & Em & L2 & N2 & F2); [unfold block_l; lia | assumption |].
  rewrite Em. cbn [mbind option_bind orb] in *.
  exists m2. split; [reflexivity |].
  pose proof Hw as (_ & Hc0 & Hc4 & _).
  pose proof Hwl as (_ & Hl0 & Hl4 & _).
  split; [| split; [| split]].
  - unfold size_curr_of. rewrite L2.
    replace (p + BLOCK_STRUCT_SIZE + c1) with (p + c1 + BLOCK_STRUCT_SIZE) by lia.
    repeat split; try lia.
    apply sum_mod_4; [apply sum_mod_4 |]; assumption.
  - intros _ Hl. etransitivity; [exact (N2 Hl) |]. lia.
  - intros a Ha Hb. apply F2; [assumption |]. intros _. assumption.
  - discriminate.
Qed.

(** X16: [mem_free] on a block of a default arena joins it with its right
    neighbour and with its left neighbour, each when it is free, taking them
    out of the index.  When the result is both first and last the arena is
    handed back with [kernel_free] and its mapping removed; otherwise the
    result is one free block with the sum of the sizes and the headers in
    between, with the last flag of the rightmost part and [size_prev] and
    [offset] of the leftmost, it is put into the index under its size, the
    block after it (when something was joined) records that size, no mapping
    changes, and the only possible call to the page provider is one
    [kernel_reset]. *)
Theorem mem_free_coalesces (st : State) (ptr c p cn : Z) (b l bn ln bl : bool) :
  let block := payload_to_block ptr in
  let block_n := block + BLOCK_STRUCT_SIZE + c in
  let block_l := block - BLOCK_STRUCT_SIZE - p in
  let mr := negb l && negb bn in
  let ml := negb (p =? 0) && negb bl in
  let F := if ml then block_l else block in
  let cF := (if ml then p + BLOCK_STRUCT_SIZE else 0) + c
            + (if mr then cn + BLOCK_STRUCT_SIZE else 0) in
  let lF := if mr then ln else l in
  let t1 := if mr then tree_remove (blocks_tree st) (block_to_node block_n)
            else blocks_tree st in
  let t2 := if ml then tree_remove t1 (block_to_node block_l) else t1 in
  ptr <> NULL ->
  size_word (load (mem st) (size_curr_of block)) c b l ->
  block_get_size_prev (mem st) block = p -> 0 <= p ->
  (l = false -> size_word (load (mem st) (size_curr_of block_n)) cn bn ln) ->
  (p <> 0 -> size_word (load (mem st) (size_curr_of block_l)) p bl false) ->
  BLOCK_SIZE_MIN <= c ->
  0 <= block_get_offset (mem st) F ->
  block_get_offset (mem st) F + cF + BLOCK_STRUCT_SIZE <= ARENA_SIZE ->
  exists st',
    mem_free st ptr = Some st' /\
    if block_get_flag_first (mem st) F && lF then
      blocks_tree st' = t2 /\
      mapped st' = filter (fun bs : Z * Z => bs.1 <> F) (mapped st) /\
      trace st' = trace st ++ [EKernelFree F ARENA_SIZE]
    else
      block_get_size_curr (mem st') F = cF /\
      block_get_flag_busy (mem st') F = false /\
      block_get_flag_last (mem st') F = lF /\
      block_get_size_prev (mem st') F = block_get_size_prev (mem st) F /\
      block_get_offset (mem st') F = block_get_offset (mem st) F /\
      (mr || ml = true -> lF = false ->
       block_get_size_prev (mem st') (block_next (mem st') F) = cF) /\
      blocks_tree st' = (block_to_node F, cF) :: t2 /\
      mapped st' = mapped st /\
      (trace st' = trace st \/
       exists lo len, trace st' = trace st ++ [EKernelReset lo len]).
Proof.
  intros block block_n block_l mr ml F cF lF t1 t2
         Hptr Hw Hp Hp0 Hwn Hwl Hmin Hoff0 Hoff.
  pose proof (sizes_fit Hcfg) as (HH & HH4 & HM & HM4).
  pose proof (BLOCK_SIZE_MAX_eq Hcfg) as EM.
  pose proof (ARENA_SIZE_range Hcfg) as HA.
  pose proof (BLOCK_SIZE_MIN_bounds Hcfg) as (HMn & _).
  pose proof (ok_node _ Hcfg) as Hnode.
  pose proof Hw as (_ & Hc0 & Hc4 & _).
  assert (Hcn0 : mr = true -> 0 <= cn).
  { unfold mr. destruct l; [discriminate |]. intros _. apply (Hwn eq_refl). }
  assert (HcF : c <= cF /\ (mr = true -> c + cn + BLOCK_STRUCT_SIZE <= cF) /\
                (ml = true -> p + (c + (if mr then cn + BLOCK_STRUCT_SIZE else 0))
                              + BLOCK_STRUCT_SIZE <= cF)).
  { unfold cF. destruct ml, mr; repeat split; intros; try discriminate;
      try specialize (Hcn0 eq_refl); lia. }
  destruct HcF as (HcF1 & HcFr & HcFl).
  unfold block_get_size_prev in Hp.
  set (st0 := with_mem st (block_clr_flag_busy (mem st) block)).
  assert (W0 : size_word (load (mem st0) (size_curr_of block)) c false l).
  { unfold st0, with_mem, block_clr_flag_busy. cbn [mem]. rewrite load_store_eq.
    apply word_clr_busy with (b := b). exact Hw. }
  assert (F0 : forall a, a <> block -> load (mem st0) a = load (mem st) a).
  { intros a Ha. unfold st0, with_mem, block_clr_flag_busy, size_curr_of. cbn [mem].
    rewrite load_store_ne by lia. reflexivity. }
  destruct (block_fields_of_word _ _ _ _ _ W0) as (S0 & _).
  destruct (free_step_right st0 block c cn l bn ln W0) as (m1 & E1 & W1 & N1 & F1).
  { intros Hl. unfold size_curr_of in *. rewrite F0 by lia. exact (Hwn Hl). }
  { fold mr. intros Hmr. specialize (HcFr Hmr). unfold SIZE_MAX. lia. }
  fold block_n mr in E1, W1, N1, F1.
  set (c1 := c + (if mr then cn + BLOCK_STRUCT_SIZE else 0)) in *.
  fold lF in W1, N1.
  set (st1 := mkState m1 t1 (mapped st) (trace st)).
  change (mkState m1 _ (mapped st0) (trace st0)) with st1 in E1.
  destruct (free_step_left st1 block c1 p lF bl W1) as (m2 & E2 & W2 & N2 & F2 & I2).
  { unfold st1, size_prev_of, sizeof_size_t. cbn [mem].
    rewrite F1, F0 by (pose proof W1 as (_ & ? & _); lia). exact Hp. }
  { intros Hpn. unfold st1, size_curr_of in *. cbn [mem].
    rewrite F1, F0 by (pose proof W1 as (_ & ? & _); unfold block_l; lia).
    exact (Hwl Hpn). }
  { fold ml. intros Hml. specialize (HcFl Hml). fold c1 in HcFl. unfold SIZE_MAX. lia. }
  fold block_l ml F in E2, W2, N2, F2, I2.
  replace ((if ml then p + BLOCK_STRUCT_SIZE else 0) + c1) with cF in *
    by (unfold cF, c1; lia).
  change (mkState m2 _ (mapped st1) (trace st1))
    with (mkState m2 t2 (mapped st) (trace st)) in E2.
  set (st2 := mkState m2 t2 (mapped st) (trace st)) in *.
  assert (HF : F <= block /\ F + BLOCK_STRUCT_SIZE + cF = block + BLOCK_STRUCT_SIZE + c1).
  { unfold F, cF, c1. destruct ml; lia. }
  pose proof W1 as (_ & Hc10 & _).
  assert (Hhdr : forall a, a = F + 8 \/ a = F + 16 -> load m2 a = load (mem st) a).
  { intros a Ha. rewrite F2 by lia. unfold st1. cbn [mem].
    destruct (Z.eq_dec a block) as [-> | Hne].
    - assert (Hml : ml = true) by (unfold F in Ha; destruct ml; [reflexivity | lia]).
      exfalso. unfold F in Ha. rewrite Hml in Ha. unfold block_l in Ha. lia.
    - rewrite F1, F0 by lia. reflexivity. }
  destruct (block_fields_of_word _ _ _ _ _ W2) as (S2 & B2 & L2).
  assert (Epre : mem_free st ptr
    = if block_get_flag_first (mem st) F && lF then Some (kernel_free st2 F ARENA_SIZE)
      else st3 ← block_dontneed st2 F; tree_add_block st3 F).
  { unfold mem_free. rewrite (proj2 (Z.eqb_neq ptr NULL) Hptr).
    fold block. cbv zeta. fold st0. rewrite S0.
    rewrite (proj2 (Z.ltb_ge BLOCK_SIZE_MAX c)) by lia.
    rewrite E1. cbn [mbind option_bind]. rewrite E2. cbn [mbind option_bind].
    change (mem st2) with m2. rewrite L2.
    unfold block_get_flag_first, size_prev_of, sizeof_size_t.
    rewrite (Hhdr (F + 8)) by auto. reflexivity. }
  rewrite Epre. clear Epre.
  destruct (block_get_flag_first (mem st) F && lF).
  { eexists. split; [reflexivity |]. cbn. repeat split. }
  assert (Hoff2 : block_get_offset (mem st2) F = block_get_offset (mem st) F).
  { unfold block_get_offset, offset_of, sizeof_size_t. apply Hhdr. right. lia. }
  assert (Hsz2 : block_get_size_curr (mem st2) F = cF) by exact S2.
  destruct (block_dontneed_range Hcfg st2 F) as [Ed | (lo & len & Ed & Hlo & Hhi & Hlen & _)].
  { rewrite Hoff2. unfold is_size_t, SIZE_MAX. lia. }
  { rewrite Hsz2. lia. }
  { rewrite Hoff2, Hsz2. unfold SIZE_MAX. lia. }
  - rewrite Ed. cbn [mbind option_bind].
    unfold tree_add_block, with_tree. change (mem st2) with m2. rewrite B2, S2.
    cbn [negb assert mbind option_bind].
    eexists. split; [reflexivity |]. cbn [mem blocks_tree mapped trace].
    unfold block_next, block_get_size_prev, block_get_offset, size_prev_of, offset_of,
      sizeof_size_t.
    rewrite S2, !Hhdr by (auto; right; lia).
    repeat split; try assumption; try reflexivity; [| left; reflexivity].
    intros Hm Hl. replace (F + BLOCK_STRUCT_SIZE + cF + 8)
      with (block + BLOCK_STRUCT_SIZE + c1 + 8) by lia.
    destruct ml eqn:Eml; [exact (N2 eq_refl Hl) |].
    rewrite (I2 eq_refl). unfold st1. cbn [mem].
    rewrite orb_false_r in Hm. rewrite (N1 Hm Hl). unfold cF, c1. lia.
  - rewrite Ed. cbn [mbind option_bind]. rewrite Hsz2 in Hhi.
    assert (Fe : forall a, a + 8 <= F + BLOCK_STRUCT_SIZE + sizeof_tree_node_type \/
                           F + BLOCK_STRUCT_SIZE + cF <= a ->
                           load (erase_range m2 lo len) a = load m2 a).
    { intros a Ha. apply load_erase_range. unfold sizeof_size_t. lia. }
    assert (W3 : size_word (load (erase_range m2 lo len) (size_curr_of F)) cF false lF).
    { unfold size_curr_of in *. rewrite Fe by lia. exact W2. }
    destruct (block_fields_of_word _ _ _ _ _ W3) as (S3 & B3 & L3).
    unfold tree_add_block, with_tree, kernel_reset. cbn [mem blocks_tree mapped trace].
    change (mem st2) with m2. rewrite B3, S3. cbn [negb assert mbind option_bind].
    eexists. split; [reflexivity |]. cbn [mem blocks_tree mapped trace].
    unfold block_next, block_get_size_prev, block_get_offset, size_prev_of, offset_of,
      sizeof_size_t.
    rewrite S3, !Fe, !Hhdr by (first [lia | auto | right; lia]).
    repeat split; try assumption; try reflexivity; [| right; eauto].
    intros Hm Hl. replace (F + BLOCK_STRUCT_SIZE + cF + 8)
      with (block + BLOCK_STRUCT_SIZE + c1 + 8) by lia.
    destruct ml eqn:Eml; [exact (N2 eq_refl Hl) |].
    rewrite (I2 eq_refl). unfold st1. cbn [mem].
    rewrite orb_false_r in Hm. rewrite (N1 Hm Hl). unfold cF, c1. lia.
Qed.

End Coalesce.

(** ** [mem_alloc] served from the index *)

Section AllocIndexed.
Context {cfg : Config} (Hcfg : config_ok cfg).

(** X17: [mem_alloc] of a size up to [BLOCK_SIZE_MAX] when the index offers
    a block: the node is taken out of the index and the result is its
    address, the block is busy and holds at least the request, and the page
    provider is not called.  When the block is large enough the rest is
    split off as its free right neighbour and put into the index; otherwise
    the block keeps its size. *)
Theorem mem_alloc_reuses_free_block (k : Z -> Z) (st : State) (s c : Z) (b l : bool) :
  let a := ROUND_BYTES (if s <? BLOCK_SIZE_MIN then BLOCK_SIZE_MIN else s) in
  let node := tree_find_best (blocks_tree st) a in
  let block := node_to_block node in
  let fits := BLOCK_STRUCT_SIZE + BLOCK_SIZE_MIN <=? c - a in
  let block_r := block + BLOCK_STRUCT_SIZE + a in
  let rest := c - a - BLOCK_STRUCT_SIZE in
  0 <= s <= BLOCK_SIZE_MAX ->
  0 < node ->
  size_word (load (mem st) (size_curr_of block)) c b l ->
  a <= c <= BLOCK_SIZE_MAX ->
  exists st',
    mem_alloc k st s = Some (node, st') /\
    block_get_flag_busy (mem st') block = true /\
    block_get_size_curr (mem st') block = (if fits then a else c) /\
    s <= block_get_size_curr (mem st') block /\
    block_get_flag_last (mem st') block = (if fits then false else l) /\
    (fits = true ->
     block_next (mem st') block = block_r /\
     block_get_size_curr (mem st') block_r = rest /\
     block_get_flag_busy (mem st') block_r = false /\
     block_get_flag_last (mem st') block_r = l /\
     block_prev (mem st') block_r = block) /\
    blocks_tree st'
    = (if fits then [(block_to_node block_r, rest)] else [])
        ++ tree_remove (blocks_tree st) node /\
    mapped st' = mapped st /\ trace st' = trace st.
Proof.
  intros a node block fits block_r rest Hs Hnode Hw Hc.
  pose proof (sizes_fit Hcfg) as (HH & HH4 & HM & HM4).
  pose proof (BLOCK_SIZE_MAX_facts Hcfg) as ((Hmin & Hmax) & HMal).
  assert (Ea : a = ROUND_BYTES (Z.max s BLOCK_SIZE_MIN)).
  { unfold a. destruct (Z.ltb_spec s BLOCK_SIZE_MIN); f_equal; lia. }
  destruct (normalised_size Hcfg s Hs) as ((Hlo & Hhi) & Hal & _). rewrite <- Ea in Hlo, Hhi, Hal.
  assert (Ha4 : a mod 4 = 0) by (apply (align_mod_4 Hcfg); assumption).
  pose proof Hw as (_ & Hc0 & Hc4 & _).
  assert (Hpay : block_to_payload block = node)
    by (unfold block, block_to_payload, node_to_block, payload_to_block; lia).
  assert (Epre : mem_alloc k st s
    = mem_alloc_split (with_tree st (tree_remove (blocks_tree st) node)) block a).
  { unfold mem_alloc.
    rewrite (proj2 (Z.ltb_ge BLOCK_SIZE_MAX s)) by lia.
    fold a. fold node. rewrite (proj2 (Z.eqb_neq node NULL)) by (unfold NULL; lia).
    reflexivity. }
  rewrite Epre. clear Epre.
  unfold mem_alloc_split, with_tree, with_mem. cbn [mem blocks_tree mapped trace].
  unfold fits. destruct (Z.leb_spec (BLOCK_STRUCT_SIZE + BLOCK_SIZE_MIN) (c - a))
    as [Hfit | Hno].
  - destruct (block_split_mem Hcfg (mem st) block a c b l Hw Ha4 ltac:(lia) Hfit)
      as (m2 & Es & L2b & L2r & P2r & O2r & P2n & F2).
    fold block_r rest in Es, L2b, L2r, P2r, O2r, P2n, F2.
    rewrite Es.
    rewrite (proj2 (Z.eqb_neq block_r NULL))
      by (unfold NULL, block_r, block, node_to_block, payload_to_block; lia).
    cbn [negb].
    assert (Hr4 : rest mod 4 = 0).
    { unfold rest. apply diff_mod_4; [apply diff_mod_4 |]; assumption. }
    assert (W2b : size_word (load m2 (size_curr_of block)) a true false).
    { unfold size_curr_of. rewrite L2b.
      repeat split; first [assumption | unfold SIZE_MAX; lia]. }
    assert (W2r : size_word (load m2 (size_curr_of block_r)) rest false l).
    { unfold size_curr_of. rewrite L2r.
      repeat split; first [assumption | unfold rest, SIZE_MAX; lia]. }
    destruct (block_fields_of_word _ _ _ _ _ W2b) as (S2b & B2b & La2b).
    destruct (block_fields_of_word _ _ _ _ _ W2r) as (S2r & B2r & La2r).
    unfold tree_add_block, with_tree. cbn [mem blocks_tree mapped trace].
    rewrite B2r, S2r, Hpay. cbn [negb assert mbind option_bind].
    eexists. split; [reflexivity |]. cbn [mem blocks_tree mapped trace app].
    unfold block_next, block_prev, block_get_size_prev, size_prev_of, sizeof_size_t.
    rewrite S2b, S2r, P2r.
    repeat split; try assumption; try reflexivity; try (unfold block_r; lia); lia.
  - rewrite (block_split_none Hcfg (mem st) block a c b l Hw) by lia.
    change (NULL =? NULL) with true. cbn [negb mbind option_bind]. rewrite Hpay.
    assert (W2 : size_word (load (block_set_flag_busy (mem st) block) (size_curr_of block))
                   c true l).
    { unfold block_set_flag_busy. rewrite load_store_eq. apply word_set_busy with (b := b).
      exact Hw. }
    destruct (block_fields_of_word _ _ _ _ _ W2) as (S2 & B2 & La2).
    eexists. split; [reflexivity |]. cbn [mem blocks_tree mapped trace app].
    rewrite S2.
    repeat split; try assumption; try reflexivity; try discriminate; lia.
Qed.

End AllocIndexed.

(** ** Headers, payloads and the link fields *)

Section Pointers.
Context {cfg : Config} (Hcfg : config_ok cfg).

(** X18: [block_to_payload] and [payload_to_block] are inverse to each
    other, as are [block_to_node] and [node_to_block]; the payload of a block
    at an aligned address is aligned and lies beyond the three words of the
    header. *)
Theorem block_payload_round_trip (block : Z) :
  block mod ALIGN = 0 ->
  payload_to_block (block_to_payload block) = block /\
  block_to_payload (payload_to_block block) = block /\
  node_to_block (block_to_node block) = block /\
  block_to_payload block mod ALIGN = 0 /\
  block + sizeof_Block <= block_to_payload block.
Proof.
  intros Hal. pose proof (BLOCK_STRUCT_SIZE_bounds Hcfg) as ((Hlo & _) & HHal).
  unfold node_to_block, block_to_node, payload_to_block, block_to_payload.
  repeat split; try lia.
  rewrite <- Zplus_mod_idemp_r, HHal, Z.add_0_r. assumption.
Qed.

End Pointers.

Section LinkFields.
Context {cfg : Config}.

(** X19: [block_set_size_prev] and [block_set_offset] store what the
    getters read back, and each leaves the other field, the size and the two
    flags alone; [block_get_flag_first] is the test for a zero [size_prev],
    and [block_prev] steps back over a header and [size_prev] bytes. *)
Theorem block_links_round_trip (m : Memory) (block v : Z) :
  (let m' := block_set_size_prev m block v in
   block_get_size_prev m' block = v /\
   block_get_flag_first m' block = (v =? 0) /\
   block_prev m' block = block - BLOCK_STRUCT_SIZE - v /\
   block_get_offset m' block = block_get_offset m block /\
   block_get_size_curr m' block = block_get_size_curr m block /\
   block_get_flag_busy m' block = block_get_flag_busy m block /\
   block_get_flag_last m' block = block_get_flag_last m block) /\
  (let m' := block_set_offset m block v in
   block_get_offset m' block = v /\
   block_get_size_prev m' block = block_get_size_prev m block /\
   block_get_size_curr m' block = block_get_size_curr m block /\
   block_get_flag_busy m' block = block_get_flag_busy m block /\
   block_get_flag_last m' block = block_get_flag_last m block).
Proof.
  unfold block_set_size_prev, block_set_offset, block_get_size_prev, block_get_offset,
    block_get_flag_first, block_prev, block_get_size_curr, block_get_flag_busy,
    block_get_flag_last, block_get_size_prev, size_prev_of, offset_of, size_curr_of,
    sizeof_size_t.
  cbv zeta. mem_simpl. repeat split.
Qed.

End LinkFields.

(** ** The general statements at inputs of the scenario runs *)

Section Instances.
Import Scenario.
#[local] Existing Instance scenario.

Ltac by_evaluation := vm_compute; repeat split; try reflexivity; discriminate.

(** [block_split] cuts 64 bytes from the block of a fresh arena. *)
Lemma block_split_spec_witness :
  block_get_flag_busy (block_split fresh_arena base_A 64).2 base_A = true.
Proof.
  refine (proj1 (block_split_spec scenario_ok fresh_arena base_A 64 _ _ _ _ _ _));
    by_evaluation.
Defined.

(** [block_merge] puts the two blocks together again. *)
Lemma block_merge_spec_witness :
  exists m', block_merge split_arena base_A (base_A + 96) = Some m'.
Proof.
  pose proof (block_merge_spec scenario_ok split_arena base_A (base_A + 96)) as H.
  cbv zeta in H.
  destruct H as (m' & E & _); [by_evaluation .. |].
  exists m'. exact E.
Defined.

(** [block_dontneed] on the free block of a fresh arena. *)
Lemma block_dontneed_offsets_witness :
  (dontneed_offsets (mem fresh_arena_state) base_A).1
  <= (dontneed_offsets (mem fresh_arena_state) base_A).2.
Proof.
  refine (proj1 (proj2 (block_dontneed_offsets scenario_ok fresh_arena_state base_A _ _ _)));
    by_evaluation.
Defined.

(** [mem_alloc(SIZE_MAX)]. *)
Lemma mem_alloc_overflow_witness :
  mem_alloc (provider base_A) initial_state SIZE_MAX = Some (NULL, initial_state).
Proof.
  refine (mem_alloc_overflow scenario_ok (provider base_A) initial_state SIZE_MAX _ _);
    by_evaluation.
Defined.

(** [mem_alloc(100000)] without memory. *)
Lemma mem_alloc_oversized_no_memory_witness :
  exists st',
    mem_alloc no_memory initial_state 100000 = Some (BLOCK_STRUCT_SIZE, st') /\
    BLOCK_STRUCT_SIZE <> NULL /\
    mem st' = mem initial_state /\ blocks_tree st' = blocks_tree initial_state /\
    mapped st' = mapped initial_state.
Proof.
  refine (mem_alloc_oversized_no_memory scenario_ok no_memory initial_state 100000 _ _ _);
    by_evaluation.
Defined.

(** [mem_realloc(q, 64)] on the last block of an arena. *)
Lemma mem_realloc_shrink_moves_witness :
  mem_realloc (provider base_N) last_block.2 last_block.1 64
  = realloc_move (provider base_N) last_block.2 last_block.1 64 65408.
Proof.
  refine (proj1 (mem_realloc_shrink_moves scenario_ok (provider base_N)
                   last_block.2 last_block.1 64 _ _ _ _ _ _ _ _ _)); try by_evaluation.
  left. vm_compute. reflexivity.
Defined.

(** [block_set_size_curr] on the block of a fresh arena. *)
Lemma block_size_curr_round_trip_witness :
  block_get_size_curr (block_set_size_curr fresh_arena base_A 64) base_A = 64.
Proof.
  refine (proj1 (block_size_curr_round_trip fresh_arena base_A 64 _ _ _ _)); by_evaluation.
Defined.

(** [block_set_flag_busy] on the block of a fresh arena. *)
Lemma block_flags_independent_witness :
  block_get_flag_busy (block_set_flag_busy fresh_arena base_A) base_A = true.
Proof.
  refine (proj1 (proj1 (block_flags_independent fresh_arena base_A _))); by_evaluation.
Defined.

(** [arena_init] of a default arena. *)
Lemma arena_init_block_witness :
  block_get_size_curr (arena_init ∅ base_A 65504) base_A = 65504.
Proof.
  refine (proj1 (arena_init_block ∅ base_A 65504 _ _ _)); by_evaluation.
Defined.

(** The neighbours after 64 bytes have been cut from a fresh arena. *)
Lemma block_split_links_witness :
  block_next (block_split fresh_arena base_A 64).2 base_A
  = (block_split fresh_arena base_A 64).1.
Proof.
  refine (proj1 (block_split_links scenario_ok fresh_arena base_A 64 _ _ _ _));
    by_evaluation.
Defined.

(** ... and the two blocks merged again. *)
Lemma block_split_merge_witness :
  exists m'',
    block_merge (block_split fresh_arena base_A 64).2 base_A
                (block_split fresh_arena base_A 64).1 = Some m''.
Proof.
  pose proof (block_split_merge scenario_ok fresh_arena base_A 64) as H.
  cbv zeta in H.
  destruct H as (m'' & E & _); [by_evaluation .. |].
  exists m''. exact E.
Defined.

(** [mem_realloc(NULL, 5)]. *)
Lemma mem_alloc_normalised_witness :
  mem_realloc (provider base_A) initial_state NULL 5
  = mem_alloc (provider base_A) initial_state 5.
Proof.
  refine (proj2 (mem_alloc_normalised scenario_ok (provider base_A) initial_state 5 _));
    by_evaluation.
Defined.

(** [mem_alloc(5)] on the initial state. *)
Lemma mem_alloc_fresh_arena_witness :
  exists st',
    mem_alloc (provider base_A) initial_state 5 = Some (block_to_payload base_A, st').
Proof.
  pose proof (mem_alloc_fresh_arena scenario_ok (provider base_A) initial_state 5 base_A) as H.
  destruct H as (st' & E & _); [by_evaluation .. |].
  exists st'. exact E.
Defined.

(** [mem_alloc(5)] on the initial state, then [mem_free]. *)
Lemma mem_alloc_free_releases_arena_witness :
  exists st1 st2,
    mem_alloc (provider base_A) initial_state 5 = Some (block_to_payload base_A, st1) /\
    mem_free st1 (block_to_payload base_A) = Some st2.
Proof.
  pose proof (mem_alloc_free_releases_arena scenario_ok (provider base_A) initial_state 5
                base_A) as H.
  destruct H as (st1 & st2 & E1 & E2 & _); [first [by_evaluation | constructor] .. |].
  exists st1, st2. split; [exact E1 | exact E2].
Defined.

(** [mem_alloc(100000)] on the initial state, then [mem_free]. *)
Lemma mem_alloc_free_oversized_witness :
  exists st1 st2,
    mem_alloc (provider base_N) initial_state 100000 = Some (block_to_payload base_N, st1) /\
    mem_free st1 (block_to_payload base_N) = Some st2.
Proof.
  pose proof (mem_alloc_free_oversized scenario_ok (provider base_N) initial_state 100000
                base_N) as H.
  cbv zeta in H.
  destruct H as (st1 & st2 & E1 & _ & _ & _ & E2 & _);
    [first [by_evaluation | constructor] .. |].
  exists st1, st2. split; [exact E1 | exact E2].
Defined.

(** [mem_realloc(p, 60)] on a block of 64 bytes. *)
Lemma mem_realloc_same_size_witness :
  mem_realloc no_memory small_block.2 small_block.1 60
  = Some (small_block.1, small_block.2).
Proof.
  refine (mem_realloc_same_size scenario_ok no_memory small_block.2 small_block.1 60
            _ _ _ _ _); by_evaluation.
Defined.

(** [mem_alloc(5)] on the initial state calls the page provider once. *)
Lemma mem_alloc_trace_witness :
  (trace small_block.2 = trace initial_state /\
   mapped small_block.2 = mapped initial_state) \/
  (exists n,
     trace small_block.2 = trace initial_state ++ [EKernelAlloc n (provider base_A n)] /\
     (mapped small_block.2 = mapped initial_state \/
      mapped small_block.2 = (provider base_A n, n) :: mapped initial_state)).
Proof.
  refine (mem_alloc_trace (provider base_A) initial_state 5 small_block.1 small_block.2 _).
  vm_compute. reflexivity.
Defined.

(** [mem_free] of that block calls the page provider at most once. *)
Lemma mem_free_trace_witness :
  trace small_block_freed = trace small_block.2 \/
  (exists ptr n, trace small_block_freed = trace small_block.2 ++ [EKernelFree ptr n]) \/
  (exists ptr n, trace small_block_freed = trace small_block.2 ++ [EKernelReset ptr n]).
Proof.
  refine (proj1 (mem_free_trace small_block.2 small_block.1 small_block_freed _)).
  vm_compute. reflexivity.
Defined.

(** [block_dontneed] on the free block of a fresh arena. *)
Lemma block_dontneed_frame_witness :
  exists st', block_dontneed fresh_arena_state base_A = Some st'.
Proof.
  pose proof (block_dontneed_frame scenario_ok fresh_arena_state base_A) as H.
  cbv zeta in H.
  destruct H as (st' & E & _); [by_evaluation .. |].
  exists st'. exact E.
Defined.

(** [mem_realloc(a, 64)] on a block of 256 bytes with a busy right
    neighbour. *)
Lemma mem_realloc_shrink_in_place_witness :
  exists st', mem_realloc no_memory wide_block.2 wide_block.1 64 = Some (wide_block.1, st').
Proof.
  pose proof (mem_realloc_shrink_in_place scenario_ok no_memory wide_block.2 wide_block.1
                64 256 64 true true false) as H.
  cbv zeta in H.
  destruct H as (st' & E & _); [by_evaluation .. |].
  exists st'. exact E.
Defined.


(** [mem_free] of the second of four blocks, between two free ones. *)
Lemma mem_free_coalesces_witness :
  exists st', mem_free holes.2 holes.1 = Some st'.
Proof.
  pose proof (mem_free_coalesces scenario_ok holes.2 holes.1 64 64 64
                true false false false false) as H.
  cbv zeta in H.
  destruct H as (st' & E & _); [first [by_evaluation | intros; by_evaluation] .. |].
  exists st'. exact E.
Defined.

(** [mem_alloc(100)] when the index holds the rest of an arena. *)
Lemma mem_alloc_reuses_free_block_witness :
  exists st',
    mem_alloc no_memory small_block.2 100
    = Some (tree_find_best (blocks_tree small_block.2)
              (ROUND_BYTES (if 100 <? BLOCK_SIZE_MIN then BLOCK_SIZE_MIN else 100)), st').
Proof.
  pose proof (mem_alloc_reuses_free_block scenario_ok no_memory small_block.2 100 65408
                false true) as H.
  cbv zeta in H.
  destruct H as (st' & E & _); [by_evaluation .. |].
  exists st'. exact E.
Defined.

(** The payload of the first block of an arena. *)
Lemma block_payload_round_trip_witness :
  payload_to_block (block_to_payload base_A) = base_A.
Proof.
  refine (proj1 (block_payload_round_trip scenario_ok base_A _)); by_evaluation.
Defined.

End Instances.
